(** * hmap.c: capacity management and cursor iteration of an intrusive hash map

    A shallow embedding of [src/modified_tree_bitmap/hmap.c] and the
    properties of its capacity planner, resize engine, relocation fixups and
    position cursor. *)

From Stdlib Require Import ZArith Lia List Permutation.
From stdpp Require Import base gmap list.

Local Open Scope Z_scope.

(** ** Machine integers *)

(** [size_t] is 32 or 64 bits wide; the source selects on it with
    [#if SIZE_MAX > UINT32_MAX]. *)
Inductive word_size := W32 | W64.

Definition size_bits (ws : word_size) : Z :=
  match ws with W32 => 32 | W64 => 64 end.

Definition SIZE_MAX (ws : word_size) : Z := 2 ^ size_bits ws - 1.

Definition UINT32_MAX : Z := 2 ^ 32 - 1.

(** Conversion of a mathematical integer to [size_t] and to [uint32_t]. *)
Definition wrap (ws : word_size) (x : Z) : Z := x mod 2 ^ size_bits ws.

Definition wrap32 (x : Z) : Z := x mod 2 ^ 32.

(** [sizeof (struct hmap_node * )], the size of a bucket slot: a pointer is as
    wide as [size_t]. *)
Definition sizeof_ptr (ws : word_size) : Z :=
  match ws with W32 => 4 | W64 => 8 end.

(** ** Capacity planner *)

(** [calc_mask], hmap.c lines 116-134.  No operation in it can leave the
    range of [size_t] when [capacity] is in range, so no wrap is written. *)
Definition calc_mask (ws : word_size) (capacity : Z) : Z :=
  let mask := capacity / 2 in
  let mask := Z.lor mask (Z.shiftr mask 1) in
  let mask := Z.lor mask (Z.shiftr mask 2) in
  let mask := Z.lor mask (Z.shiftr mask 4) in
  let mask := Z.lor mask (Z.shiftr mask 8) in
  let mask := Z.lor mask (Z.shiftr mask 16) in
  let mask := if SIZE_MAX ws >? UINT32_MAX
              then Z.lor mask (Z.shiftr mask 32) else mask in
  let mask := Z.lor mask (Z.shiftl (Z.land mask 1) 1) in
  mask.

(** Specification side: masks and rounding up to a mask. *)
Definition is_mask (m : Z) : Prop := exists k, 0 <= k /\ m = 2 ^ k - 1.

Definition round_mask (x : Z) : Z :=
  if x =? 0 then 0 else Z.ones (Z.log2 x + 1).

(** [covers x m w]: bit [i] of [m] is set exactly when some bit of [x] in the
    window [i, i + w) is set. *)
Definition covers (x m w : Z) : Prop :=
  forall i, 0 <= i ->
    Z.testbit m i = true <-> exists j, i <= j < i + w /\ Z.testbit x j = true.

(** ** Memory

    Three typed address spaces: table structs, bucket arrays obtained from the
    allocator, and client nodes.  A node pointer is [NULL] or the address of a
    node; a [buckets] pointer is the address of some table's inline slot
    [&h->one] or of an allocated array. *)

Definition loc := positive.
Bind Scope positive_scope with loc.

Inductive ptr := NULL | Ptr (p : loc).

Inductive bref := InlineOf (h : loc) | Arr (a : loc).

#[global] Instance ptr_eq_dec : EqDecision ptr.
Proof. solve_decision. Defined.

#[global] Instance bref_eq_dec : EqDecision bref.
Proof. solve_decision. Defined.

(** Modelled from the spec: [struct hmap_node] and [struct hmap] are declared
    in hmap.h, which is not among the sources; the fields are the ones the
    data model of the specification lists and hmap.c uses. *)
Record hmap_node := { hash : Z; next : ptr }.

Record hmap := { buckets : bref; one : ptr; mask : Z; n : Z }.

(** An allocated bucket array: its length and its cells; a cell that was never
    written holds no pointer. *)
Record barray := { blen : Z; bget : Z -> option ptr }.

Record mem := {
  tabs : gmap loc hmap;
  arrs : gmap loc barray;
  nodes : gmap loc hmap_node
}.

(** An lvalue of type [struct hmap_node *]: a bucket slot [b[i]] or the [next]
    field of the node that [p] points to. *)
Inductive slot := Bucket (b : bref) (i : Z) | NextOf (p : ptr).

Inductive error := MemFault | AssertFailed | OutOfFuel.

Inductive result (A : Type) := Ok (a : A) | Err (e : error).
Arguments Ok {A} a.
Arguments Err {A} e.

Definition rbind {A B} (r : result A) (k : A -> result B) : result B :=
  match r with Ok a => k a | Err e => Err e end.

Notation "'let*' x := c 'in' k" := (rbind c (fun x => k))
  (at level 10, x name, c at level 100, k at level 200).

Definition set_buckets (t : hmap) (b : bref) : hmap :=
  {| buckets := b; one := one t; mask := mask t; n := n t |}.
Definition set_one (t : hmap) (p : ptr) : hmap :=
  {| buckets := buckets t; one := p; mask := mask t; n := n t |}.
Definition set_mask (t : hmap) (k : Z) : hmap :=
  {| buckets := buckets t; one := one t; mask := k; n := n t |}.
Definition set_n (t : hmap) (k : Z) : hmap :=
  {| buckets := buckets t; one := one t; mask := mask t; n := k |}.

Definition with_tabs (m : mem) (ts : gmap loc hmap) : mem :=
  {| tabs := ts; arrs := arrs m; nodes := nodes m |}.
Definition with_arrs (m : mem) (ars : gmap loc barray) : mem :=
  {| tabs := tabs m; arrs := ars; nodes := nodes m |}.
Definition with_nodes (m : mem) (nds : gmap loc hmap_node) : mem :=
  {| tabs := tabs m; arrs := arrs m; nodes := nds |}.

Definition bset (arr : barray) (i : Z) (p : ptr) : barray :=
  {| blen := blen arr; bget := fun j => if j =? i then Some p else bget arr j |}.

Definition in_bounds (arr : barray) (i : Z) : bool := (0 <=? i) && (i <? blen arr).

Definition read_tab (m : mem) (h : loc) : result hmap :=
  match tabs m !! h with Some t => Ok t | None => Err MemFault end.

Definition write_tab (h : loc) (t : hmap) (m : mem) : result mem :=
  match tabs m !! h with
  | Some _ => Ok (with_tabs m (<[h := t]> (tabs m)))
  | None => Err MemFault
  end.

Definition read_node (m : mem) (p : ptr) : result hmap_node :=
  match p with
  | NULL => Err MemFault
  | Ptr a => match nodes m !! a with Some nd => Ok nd | None => Err MemFault end
  end.

Definition write_node (p : ptr) (nd : hmap_node) (m : mem) : result mem :=
  match p with
  | NULL => Err MemFault
  | Ptr a =>
      match nodes m !! a with
      | Some _ => Ok (with_nodes m (<[a := nd]> (nodes m)))
      | None => Err MemFault
      end
  end.

Definition read_slot (m : mem) (s : slot) : result ptr :=
  match s with
  | Bucket (InlineOf h) i =>
      if i =? 0 then let* t := read_tab m h in Ok (one t) else Err MemFault
  | Bucket (Arr a) i =>
      match arrs m !! a with
      | Some arr =>
          if in_bounds arr i
          then match bget arr i with Some p => Ok p | None => Err MemFault end
          else Err MemFault
      | None => Err MemFault
      end
  | NextOf p => let* nd := read_node m p in Ok (next nd)
  end.

Definition write_slot (s : slot) (v : ptr) (m : mem) : result mem :=
  match s with
  | Bucket (InlineOf h) i =>
      if i =? 0 then let* t := read_tab m h in write_tab h (set_one t v) m
      else Err MemFault
  | Bucket (Arr a) i =>
      match arrs m !! a with
      | Some arr =>
          if in_bounds arr i
          then Ok (with_arrs m (<[a := bset arr i v]> (arrs m)))
          else Err MemFault
      | None => Err MemFault
      end
  | NextOf p =>
      let* nd := read_node m p in
      write_node p {| hash := hash nd; next := v |} m
  end.

(** ** The state and error monad of the mutating functions *)

Definition M (A : Type) : Type := mem -> result (A * mem).

Definition ret {A} (a : A) : M A := fun m => Ok (a, m).

Definition bind {A B} (c : M A) (k : A -> M B) : M B :=
  fun m => match c m with Ok (a, m') => k a m' | Err e => Err e end.

Definition fail {A} (e : error) : M A := fun _ => Err e.

Definition get {A} (f : mem -> result A) : M A :=
  fun m => match f m with Ok a => Ok (a, m) | Err e => Err e end.

Definition put (f : mem -> result mem) : M unit :=
  fun m => match f m with Ok m' => Ok (tt, m') | Err e => Err e end.

Notation "x <- c ;; k" := (bind c (fun x => k))
  (at level 100, c at next level, right associativity).
Notation "c ;; k" := (bind c (fun _ => k))
  (at level 100, right associativity).

(** [assert(b)] of <assert.h>. *)
Definition c_assert (b : bool) : M unit :=
  if b then ret tt else fail AssertFailed.

(** Field assignment [h->f = v]. *)
Definition set_field (h : loc) (f : hmap -> hmap) : M unit :=
  t <- get (fun m => read_tab m h) ;; put (write_tab h (f t)).

(** A local [struct hmap]: a fresh table address with indeterminate fields,
    released when the function returns. *)
Definition poison : hmap :=
  {| buckets := Arr 1%positive; one := NULL; mask := -1; n := -1 |}.

Definition stack_alloc : M loc :=
  fun m => let h := fresh (dom (tabs m)) in
           Ok (h, with_tabs m (<[h := poison]> (tabs m))).

Definition stack_free (h : loc) : M unit :=
  fun m => Ok (tt, with_tabs m (delete h (tabs m))).

(** Modelled from the spec: [xmalloc] and [free] come from util.h, which is
    not among the sources.  The allocator hands out a fresh block of [size]
    bytes with indeterminate contents and never fails (failure aborts at the
    allocator boundary).  Used as an array of bucket slots the block has
    [size / sizeof_ptr] slots: a block of 0 bytes has none. *)
Definition xmalloc (ws : word_size) (size : Z) : M loc :=
  fun m => let a := fresh (dom (arrs m)) in
           Ok (a, with_arrs m (<[a := {| blen := size / sizeof_ptr ws;
                                         bget := fun _ => None |}]> (arrs m))).

Definition free (b : bref) : M unit :=
  fun m => match b with
           | Arr a =>
               match arrs m !! a with
               | Some _ => Ok (tt, with_arrs m (delete a (arrs m)))
               | None => Err MemFault
               end
           | InlineOf _ => Err MemFault
           end.

(** [memset(b, 0, count * sizeof *b)]. *)
Definition memset_null (b : bref) (count : Z) : M unit :=
  fun m =>
    match b with
    | Arr a =>
        match arrs m !! a with
        | Some arr =>
            if count <=? blen arr
            then Ok (tt, with_arrs m (<[a :=
                   {| blen := blen arr;
                      bget := fun j => if (0 <=? j) && (j <? count)
                                       then Some NULL else bget arr j |}]> (arrs m)))
            else Err MemFault
        | None => Err MemFault
        end
    | InlineOf h =>
        if count =? 0 then Ok (tt, m)
        else if count =? 1 then put (write_slot (Bucket b 0) NULL) m
        else Err MemFault
    end.

Section Program.

Context (ws : word_size).

(** ** Table lifecycle, hmap.c lines 26-81 *)

Definition hmap_init (h : loc) : M unit :=
  put (write_tab h {| buckets := InlineOf h; one := NULL; mask := 0; n := 0 |}).

Definition hmap_destroy (hp : option loc) : M unit :=
  match hp with
  | None => ret tt
  | Some h =>
      t <- get (fun m => read_tab m h) ;;
      if decide (buckets t <> InlineOf h) then free (buckets t) else ret tt
  end.

Definition hmap_clear (h : loc) : M unit :=
  t <- get (fun m => read_tab m h) ;;
  if n t >? 0 then
    set_field h (fun t => set_n t 0) ;;
    t <- get (fun m => read_tab m h) ;;
    memset_null (buckets t) (wrap ws (mask t + 1))
  else ret tt.

Definition hmap_moved (h : loc) : M unit :=
  t <- get (fun m => read_tab m h) ;;
  if mask t =? 0 then set_field h (fun t => set_buckets t (InlineOf h))
  else ret tt.

Definition hmap_swap (a b : loc) : M unit :=
  tmp <- get (fun m => read_tab m a) ;;
  tb <- get (fun m => read_tab m b) ;;
  put (write_tab a tb) ;;
  put (write_tab b tmp) ;;
  hmap_moved a ;;
  hmap_moved b.

(** Modelled from the spec: [hmap_insert_fast] is an inline function of
    hmap.h, which is not among the sources.  "Given a table, a node, and its
    hash, thread the node onto the head of bucket [hash & mask] and increment
    [n], performing no capacity check and no duplicate check." *)
Definition hmap_insert_fast (h : loc) (node : ptr) (hash_ : Z) : M unit :=
  t <- get (fun m => read_tab m h) ;;
  let bucket := Bucket (buckets t) (Z.land hash_ (mask t)) in
  head <- get (fun m => read_slot m bucket) ;;
  put (write_node node {| hash := hash_; next := head |}) ;;
  put (write_slot bucket node) ;;
  t <- get (fun m => read_tab m h) ;;
  put (write_tab h (set_n t (wrap ws (n t + 1)))).

(** ** Resize engine, hmap.c lines 83-114 *)

(** [sizeof *tmp.buckets * (new_mask + 1)], computed in [size_t]: the sum
    and the product both wrap. *)
Definition buckets_size (new_mask : Z) : Z :=
  wrap ws (sizeof_ptr ws * wrap ws (new_mask + 1)).

(** [for (i = start; i <= bound; i++) body], all in [size_t]. *)
Fixpoint for_upto (fuel : nat) (i : Z) (bound : M Z) (body : Z -> M unit) : M unit :=
  match fuel with
  | O => fail OutOfFuel
  | S fuel' =>
      b <- bound ;;
      if i <=? b then body i ;; for_upto fuel' (wrap ws (i + 1)) bound body
      else ret tt
  end.

(** The inner loop of [resize]:
    [for (node = ...; node; node = next) { next = node->next; hmap_insert_fast(&tmp, node, node->hash); }] *)
Fixpoint rehash_chain (fuel : nat) (tmp : loc) (node : ptr) : M unit :=
  match fuel with
  | O => fail OutOfFuel
  | S fuel' =>
      match node with
      | NULL => ret tt
      | Ptr _ =>
          nd <- get (fun m => read_node m node) ;;
          hmap_insert_fast tmp node (hash nd) ;;
          rehash_chain fuel' tmp (next nd)
      end
  end.

Definition resize (fuel : nat) (h : loc) (new_mask : Z) : M unit :=
  c_assert (Z.land new_mask (wrap ws (new_mask + 1)) =? 0) ;;
  c_assert (negb (new_mask =? SIZE_MAX ws)) ;;
  tmp <- stack_alloc ;;
  hmap_init tmp ;;
  (if negb (new_mask =? 0) then
     a <- xmalloc ws (buckets_size new_mask) ;;
     set_field tmp (fun t => set_buckets t (Arr a)) ;;
     set_field tmp (fun t => set_mask t new_mask) ;;
     for_upto fuel 0
       (t <- get (fun m => read_tab m tmp) ;; ret (mask t))
       (fun i => t <- get (fun m => read_tab m tmp) ;;
                 put (write_slot (Bucket (buckets t) i) NULL))
   else ret tt) ;;
  for_upto fuel 0
    (t <- get (fun m => read_tab m h) ;; ret (mask t))
    (fun i => t <- get (fun m => read_tab m h) ;;
              head <- get (fun m => read_slot m (Bucket (buckets t) i)) ;;
              rehash_chain fuel tmp head) ;;
  hmap_swap h tmp ;;
  hmap_destroy (Some tmp) ;;
  stack_free tmp.

(** ** The three policies, hmap.c lines 136-169 *)

Definition hmap_expand (fuel : nat) (h : loc) : M unit :=
  t <- get (fun m => read_tab m h) ;;
  let new_mask := calc_mask ws (n t) in
  if new_mask >? mask t then resize fuel h new_mask else ret tt.

Definition hmap_shrink (fuel : nat) (h : loc) : M unit :=
  t <- get (fun m => read_tab m h) ;;
  let new_mask := calc_mask ws (n t) in
  if new_mask <? mask t then resize fuel h new_mask else ret tt.

Definition hmap_reserve (fuel : nat) (h : loc) (n_ : Z) : M unit :=
  t <- get (fun m => read_tab m h) ;;
  let new_mask := calc_mask ws n_ in
  if new_mask >? mask t then resize fuel h new_mask else ret tt.

(** ** Relocation tracker, hmap.c lines 171-182 *)

(** [while ( *bucket != target) bucket = &( *bucket)->next;] *)
Fixpoint walk_to (fuel : nat) (bucket : slot) (target : ptr) : M slot :=
  match fuel with
  | O => fail OutOfFuel
  | S fuel' =>
      p <- get (fun m => read_slot m bucket) ;;
      if decide (p <> target) then walk_to fuel' (NextOf p) target
      else ret bucket
  end.

Definition hmap_node_moved (fuel : nat) (h : loc) (old_node node : ptr) : M unit :=
  t <- get (fun m => read_tab m h) ;;
  nd <- get (fun m => read_node m node) ;;
  bucket <- walk_to fuel (Bucket (buckets t) (Z.land (hash nd) (mask t))) old_node ;;
  put (write_slot bucket node).

(** Modelled from the spec: [hmap_remove] is an inline function of hmap.h,
    which is not among the sources; removal is the bucket-chain operation
    that unlinks the node from the chain of bucket [hash & mask] and
    decrements [n]. *)
Definition hmap_remove (fuel : nat) (h : loc) (node : ptr) : M unit :=
  t <- get (fun m => read_tab m h) ;;
  nd <- get (fun m => read_node m node) ;;
  bucket <- walk_to fuel (Bucket (buckets t) (Z.land (hash nd) (mask t))) node ;;
  put (write_slot bucket (next nd)) ;;
  t <- get (fun m => read_tab m h) ;;
  put (write_tab h (set_n t (wrap ws (n t - 1)))).

(** ** Position cursor, hmap.c lines 220-261 *)

(** The inner loop of [hmap_at_position]; [Some] is the [return node] with
    the cursor it stores through the two [uint32_t] pointers, [None] is the
    loop running off the end of the chain. *)
Fixpoint position_chain (fuel : nat) (m : mem) (t : hmap) (node : ptr) (n_idx offset : Z)
  : result (option (ptr * (Z * Z))) :=
  match fuel with
  | O => Err OutOfFuel
  | S fuel' =>
      match node with
      | NULL => Ok None
      | Ptr _ =>
          let* nd := read_node m node in
          if n_idx =? offset then
            if decide (next nd <> NULL)
            then Ok (Some (node, (wrap32 (Z.land (hash nd) (mask t)),
                                  wrap32 (wrap ws (offset + 1)))))
            else Ok (Some (node, (wrap32 (wrap ws (Z.land (hash nd) (mask t) + 1)), 0)))
          else position_chain fuel' m t (next nd) (wrap ws (n_idx + 1)) offset
      end
  end.

Fixpoint position_buckets (fuel cfuel : nat) (m : mem) (t : hmap) (b_idx offset : Z)
  : result (ptr * (Z * Z)) :=
  match fuel with
  | O => Err OutOfFuel
  | S fuel' =>
      if b_idx <=? mask t then
        let* head := read_slot m (Bucket (buckets t) b_idx) in
        let* r := position_chain cfuel m t head 0 offset in
        match r with
        | Some found => Ok found
        | None => position_buckets fuel' cfuel m t (wrap ws (b_idx + 1)) 0
        end
      else Ok (NULL, (0, 0))
  end.

Definition hmap_at_position (fuel : nat) (m : mem) (h : loc) (bucketp offsetp : Z)
  : result (ptr * (Z * Z)) :=
  let* t := read_tab m h in
  position_buckets fuel fuel m t bucketp offsetp.

End Program.

(** ** Data-model invariants *)

(** [chain nd p l]: following [next] from [p] visits exactly the nodes [l], in
    this order, and then reaches [NULL]. *)
Fixpoint chain (nd : gmap loc hmap_node) (p : ptr) (l : list loc) : Prop :=
  match l with
  | [] => p = NULL
  | a :: l' => p = Ptr a /\ exists x, nd !! a = Some x /\ chain nd (next x) l'
  end.

(** The nodes of buckets [0 .. k-1], in bucket order and chain order. *)
Definition all_nodes (cs : Z -> list loc) (k : Z) : list loc :=
  seqZ 0 k ≫= cs.

Definition node_ok (nd : gmap loc hmap_node) (msk i : Z) (a : loc) : Prop :=
  exists x, nd !! a = Some x /\ Z.land (hash x) msk = i.

Definition bucket_ok (m : mem) (t : hmap) (cs : Z -> list loc) (i : Z) : Prop :=
  exists p, read_slot m (Bucket (buckets t) i) = Ok p /\
            chain (nodes m) p (cs i) /\
            Forall (node_ok (nodes m) (mask t) i) (cs i).

(** The bucket array has [mask + 1] slots: the table's own inline slot when
    [mask] is 0, a live allocation otherwise. *)
Definition storage_ok (m : mem) (h : loc) (t : hmap) : Prop :=
  (mask t = 0 /\ buckets t = InlineOf h) \/
  (mask t <> 0 /\ exists a arr, buckets t = Arr a /\ arrs m !! a = Some arr /\
                                blen arr = mask t + 1).

(** Modelled from the spec: [struct hmap_node] of hmap.h has the two fields
    [hash] and [next], a [size_t] and a pointer. *)
Definition sizeof_node (ws : word_size) : Z := 2 * sizeof_ptr ws.

(** The number of nodes that an address space of [SIZE_MAX] bytes has room
    for. *)
Definition MAX_NODES (ws : word_size) : Z := SIZE_MAX ws / sizeof_node ws.

(** [wf_tab ws m h t cs]: the table at [h] holds the struct [t] and satisfies
    the data-model invariants, its bucket [i] holding the chain [cs i].  A
    table of [SIZE_MAX + 1] buckets does not fit the address space, and
    [resize] refuses to build one; the [n] nodes of the table are distinct
    objects, so the address space has room for [n] nodes. *)
Definition wf_tab (ws : word_size) (m : mem) (h : loc) (t : hmap) (cs : Z -> list loc) : Prop :=
  tabs m !! h = Some t /\
  is_mask (mask t) /\ mask t < SIZE_MAX ws /\
  storage_ok m h t /\
  (forall i, 0 <= i <= mask t -> bucket_ok m t cs i) /\
  NoDup (all_nodes cs (mask t + 1)) /\
  n t = Z.of_nat (length (all_nodes cs (mask t + 1))) /\
  n t <= MAX_NODES ws.

(** The [hash] field of the node at [a], and whether that node belongs in
    bucket [i] of a table with mask [msk]. *)
Definition hash_of (nd : gmap loc hmap_node) (a : loc) : Z :=
  match nd !! a with Some x => hash x | None => 0 end.

Definition lands_in (nd : gmap loc hmap_node) (msk i : Z) (a : loc) : bool :=
  Z.land (hash_of nd a) msk =? i.

(** Bucket contents after pushing [a] onto the head of bucket [j]. *)
Definition push (cs : Z -> list loc) (j : Z) (a : loc) : Z -> list loc :=
  fun i => if i =? j then a :: cs i else cs i.

(** Every node keeps its address and its [hash] field. *)
Definition hash_stable (nd nd' : gmap loc hmap_node) : Prop :=
  forall a x, nd !! a = Some x -> exists x', nd' !! a = Some x' /\ hash x' = hash x.

(** [outside tmp b L m m']: from [m] to [m'] nothing changed except the table
    struct at [tmp], the array [b] and the [next] fields of the nodes [L]. *)
Definition outside (tmp : loc) (b : bref) (L : list loc) (m m' : mem) : Prop :=
  (forall h', h' <> tmp -> tabs m' !! h' = tabs m !! h') /\
  (forall a', b <> Arr a' -> arrs m' !! a' = arrs m !! a') /\
  (forall x, x ∉ L -> nodes m' !! x = nodes m !! x) /\
  hash_stable (nodes m) (nodes m').

(** What [hmap_moved] makes of a struct that now lives at [h]. *)
Definition moved_fix (h : loc) (t : hmap) : hmap :=
  if mask t =? 0 then set_buckets t (InlineOf h) else t.

(** The slot that the walk of [hmap_node_moved] stands on after stepping
    over the nodes [l1], starting from slot [s]. *)
Fixpoint link_slot (s : slot) (l1 : list loc) : slot :=
  match l1 with
  | [] => s
  | b :: l1' => link_slot (NextOf (Ptr b)) l1'
  end.

Definition chain_head (l : list loc) : ptr :=
  match l with [] => NULL | a :: _ => Ptr a end.

(** [chain_seg nd p l q]: following [next] from [p] steps over exactly the
    nodes [l] and arrives at the pointer [q]. *)
Fixpoint chain_seg (nd : gmap loc hmap_node) (p : ptr) (l : list loc) (q : ptr) : Prop :=
  match l with
  | [] => p = q
  | a :: l' => p = Ptr a /\ exists x, nd !! a = Some x /\ chain_seg nd (next x) l' q
  end.

(** Bucket contents with the chain of bucket [j] replaced by [l]. *)
Definition upd (cs : Z -> list loc) (j : Z) (l : list loc) : Z -> list loc :=
  fun i => if i =? j then l else cs i.

(** The client moves the storage of the node at [old] to the unused address
    [new] (as [realloc] does): the contents are copied and the old storage is
    gone. *)
Definition move_node (old new : loc) (m : mem) : mem :=
  match nodes m !! old with
  | Some x => with_nodes m (<[new := x]> (delete old (nodes m)))
  | None => m
  end.

(** The client moves the table struct at [old] to the unused address [new]
    (as [realloc] of an enclosing object does): the struct is copied and the
    old storage is gone. *)
Definition move_tab (old new : loc) (m : mem) : mem :=
  match tabs m !! old with
  | Some t => with_tabs m (<[new := t]> (delete old (tabs m)))
  | None => m
  end.

(** ** Clients

    Walking every bucket chain and counting the nodes met. *)
Fixpoint chain_count (fuel : nat) (m : mem) (p : ptr) : result Z :=
  match fuel with
  | O => Err OutOfFuel
  | S fuel' =>
      match p with
      | NULL => Ok 0
      | Ptr _ =>
          let* nd := read_node m p in
          let* k := chain_count fuel' m (next nd) in
          Ok (k + 1)
      end
  end.

Fixpoint count_buckets (fuel cfuel : nat) (m : mem) (t : hmap) (i : Z) : result Z :=
  match fuel with
  | O => Err OutOfFuel
  | S fuel' =>
      if i <=? mask t then
        let* head := read_slot m (Bucket (buckets t) i) in
        let* k := chain_count cfuel m head in
        let* rest := count_buckets fuel' cfuel m t (i + 1) in
        Ok (k + rest)
      else Ok 0
  end.

Definition count_reachable (fuel : nat) (m : mem) (h : loc) : result Z :=
  let* t := read_tab m h in count_buckets fuel fuel m t 0.

(** The operations a client applies to a table. *)
Inductive op :=
| OpInsert (a : loc) (hv : Z)
| OpRemove (a : loc)
| OpExpand
| OpShrink
| OpReserve (k : Z)
| OpClear.

Definition run_op (ws : word_size) (fuel : nat) (h : loc) (o : op) : M unit :=
  match o with
  | OpInsert a hv => hmap_insert_fast ws h (Ptr a) hv
  | OpRemove a => hmap_remove ws fuel h (Ptr a)
  | OpExpand => hmap_expand ws fuel h
  | OpShrink => hmap_shrink ws fuel h
  | OpReserve k => hmap_reserve ws fuel h k
  | OpClear => hmap_clear ws h
  end.

Fixpoint run_ops (ws : word_size) (fuel : nat) (h : loc) (os : list op) : M unit :=
  match os with
  | [] => ret tt
  | o :: os' => run_op ws fuel h o ;; run_ops ws fuel h os'
  end.

(** The client contract: only allocated nodes that are not in the table are
    inserted, only nodes that are in the table are removed, and the argument
    of reserve is a [size_t] for which the bucket array that [calc_mask]
    plans has a byte size within [size_t].  [X] is the set of nodes in the
    table. *)
Fixpoint legal (ws : word_size) (nd : gset loc) (X : gset loc) (os : list op) : Prop :=
  match os with
  | [] => True
  | OpInsert a _ :: os' => a ∈ nd /\ (a ∉ X) /\ legal ws nd ({[a]} ∪ X) os'
  | OpRemove a :: os' => a ∈ X /\ legal ws nd (X ∖ {[a]}) os'
  | OpReserve k :: os' =>
      0 <= k <= SIZE_MAX ws /\
      sizeof_ptr ws * (calc_mask ws k + 1) <= SIZE_MAX ws /\
      legal ws nd X os'
  | OpClear :: os' => legal ws nd ∅ os'
  | _ :: os' => legal ws nd X os'
  end.

(** A full traversal with the position cursor: call [hmap_at_position] until
    it returns [NULL], at most [k] times. *)
Fixpoint traverse (ws : word_size) (fuel k : nat) (m : mem) (h : loc) (b o : Z)
  : result (list loc * (Z * Z)) :=
  match k with
  | O => Err OutOfFuel
  | S k' =>
      let* r := hmap_at_position ws fuel m h b o in
      match r with
      | (NULL, c) => Ok ([], c)
      | (Ptr a, (b', o')) =>
          let* rest := traverse ws fuel k' m h b' o' in
          Ok (a :: fst rest, snd rest)
      end
  end.

(** What a traversal still has to visit from the cursor [(b, o)], and the
    cursors that a traversal of an unmodified table can hold. *)
Definition rest_from (cs : Z -> list loc) (msk b o : Z) : list loc :=
  drop (Z.to_nat o) (seqZ b (msk + 1 - b) ≫= cs).

Definition cursor_ok (cs : Z -> list loc) (msk b o : Z) : Prop :=
  0 <= b <= msk + 1 /\ 0 <= o /\
  (o = 0 \/ (b <= msk /\ o < Z.of_nat (length (cs b)))).

(** A computation that cannot end in a failed assertion. *)
Definition no_assert {A} (c : M A) : Prop := forall m, c m <> Err AssertFailed.

Definition no_assert_r {A} (f : mem -> result A) : Prop :=
  forall m, f m <> Err AssertFailed.

(** ** Example states *)

(** Table 1 uses its inline slot and holds the chain 3, 2, 1; table 2 has four
    buckets and holds 5 and 6; node 4 is allocated but in no table. *)
Definition ex_nodes : gmap loc hmap_node :=
  <[1%positive := {| hash := 1; next := NULL |}]>
  (<[2%positive := {| hash := 4; next := Ptr 1 |}]>
  (<[3%positive := {| hash := 7; next := Ptr 2 |}]>
  (<[4%positive := {| hash := 9; next := NULL |}]>
  (<[5%positive := {| hash := 5; next := NULL |}]>
  (<[6%positive := {| hash := 6; next := NULL |}]> ∅))))).

Definition ex_tab1 : hmap :=
  {| buckets := InlineOf 1; one := Ptr 3; mask := 0; n := 3 |}.

Definition ex_tab2 : hmap :=
  {| buckets := Arr 1; one := NULL; mask := 3; n := 2 |}.

Definition ex_arr : barray :=
  {| blen := 4;
     bget := fun i => if i =? 1 then Some (Ptr 5)
                      else if i =? 2 then Some (Ptr 6) else Some NULL |}.

Definition ex_mem : mem :=
  {| tabs := <[1%positive := ex_tab1]> (<[2%positive := ex_tab2]> ∅);
     arrs := <[1%positive := ex_arr]> ∅;
     nodes := ex_nodes |}.

Definition ex_cs1 : Z -> list loc := fun i => if i =? 0 then [3; 2; 1]%positive else [].

Definition ex_cs2 : Z -> list loc :=
  fun i => if i =? 1 then [5%positive] else if i =? 2 then [6%positive] else [].

(** A table of 2^32 buckets on a 64-bit platform whose only node sits in the
    last bucket. *)
Definition big_tab : hmap :=
  {| buckets := Arr 1; one := NULL; mask := 2 ^ 32 - 1; n := 1 |}.

Definition big_arr : barray :=
  {| blen := 2 ^ 32;
     bget := fun i => if i =? 2 ^ 32 - 1 then Some (Ptr 1) else Some NULL |}.

Definition big_mem : mem :=
  {| tabs := <[1%positive := big_tab]> ∅;
     arrs := <[1%positive := big_arr]> ∅;
     nodes := <[1%positive := {| hash := 2 ^ 32 - 1; next := NULL |}]> ∅ |}.

Definition big_cs : Z -> list loc :=
  upd (fun _ => []) (2 ^ 32 - 1) [1%positive].

(** ** Capacity planner: proofs *)

Lemma SIZE_MAX_ge ws : UINT32_MAX <= SIZE_MAX ws.
Proof. destruct ws; unfold SIZE_MAX, UINT32_MAX; simpl; lia. Qed.

Lemma covers_self x : covers x x 1.
Proof.
  intros i Hi; split.
  - intros H; exists i; split; [lia | exact H].
  - intros (j & Hj & H). replace i with j by lia. exact H.
Qed.

Lemma covers_step x m w :
  0 < w -> covers x m w -> covers x (Z.lor m (Z.shiftr m w)) (2 * w).
Proof.
  intros Hw Hc i Hi.
  rewrite Z.lor_spec, Z.shiftr_spec by lia.
  rewrite orb_true_iff, (Hc i Hi), (Hc (i + w)) by lia.
  split.
  - intros [(j & Hj & H) | (j & Hj & H)]; exists j; (split; [lia | exact H]).
  - intros (j & Hj & H).
    destruct (Z_lt_le_dec j (i + w)); [left | right]; exists j; (split; [lia | exact H]).
Qed.

Lemma covers_full x m w b :
  0 <= x < 2 ^ b -> 0 <= b <= w -> covers x m w -> 0 <= m -> m = round_mask x.
Proof.
  intros Hx Hb Hc Hm. unfold round_mask.
  destruct (Z.eqb_spec x 0) as [-> | Hne].
  - apply Z.bits_inj'; intros i Hi. rewrite Z.bits_0.
    destruct (Z.testbit m i) eqn:E; [| reflexivity].
    apply (Hc i Hi) in E. destruct E as (j & _ & E).
    rewrite Z.bits_0 in E. discriminate.
  - assert (Hpos : 0 < x) by lia.
    assert (Hlog : Z.log2 x < b) by (apply Z.log2_lt_pow2; lia).
    pose proof (Z.log2_nonneg x) as Hl0.
    apply Z.bits_inj'; intros i Hi.
    destruct (Z_lt_le_dec i (Z.log2 x + 1)) as [Hlt | Hge].
    + rewrite Z.ones_spec_low by lia.
      apply (Hc i Hi). exists (Z.log2 x). split; [lia |].
      apply Z.bit_log2; lia.
    + rewrite Z.ones_spec_high by lia.
      destruct (Z.testbit m i) eqn:E; [| reflexivity].
      apply (Hc i Hi) in E. destruct E as (j & Hj & E).
      rewrite Z.bits_above_log2 in E by lia. discriminate.
Qed.

Lemma lor_shiftr_nonneg m k : 0 <= m -> 0 <= Z.lor m (Z.shiftr m k).
Proof. intros H. apply Z.lor_nonneg. split; [lia | apply Z.shiftr_nonneg; lia]. Qed.

Lemma round_mask_nonneg x : 0 <= round_mask x.
Proof.
  unfold round_mask. destruct (x =? 0); [lia |].
  rewrite Z.ones_equiv.
  pose proof (Z.log2_nonneg x).
  assert (0 < 2 ^ (Z.log2 x + 1)) by (apply Z.pow_pos_nonneg; lia). lia.
Qed.

(** The last statement of [calc_mask] on a rounded mask. *)
Lemma floor_fix_round x :
  0 <= x ->
  Z.lor (round_mask x) (Z.shiftl (Z.land (round_mask x) 1) 1)
  = if round_mask x =? 1 then 3 else round_mask x.
Proof.
  intros Hx. unfold round_mask.
  destruct (Z.eqb_spec x 0) as [-> | Hne]; [reflexivity |].
  pose proof (Z.log2_nonneg x) as Hl0.
  destruct (Z.eq_dec (Z.log2 x) 0) as [E0 | En0].
  - rewrite E0. reflexivity.
  - assert (Hk : 2 <= Z.log2 x + 1) by lia.
    set (k := Z.log2 x + 1) in *.
    assert (Hones : (Z.ones k =? 1) = false).
    { apply Z.eqb_neq. rewrite Z.ones_equiv.
      assert (2 ^ 2 <= 2 ^ k) by (apply Z.pow_le_mono_r; lia). lia. }
    rewrite Hones.
    assert (Hland : Z.land (Z.ones k) 1 = 1).
    { change 1 with (Z.ones 1) at 1. rewrite Z.land_ones by lia.
      rewrite Z.ones_equiv. change (2 ^ 1) with 2.
      replace k with (1 + (k - 1)) by lia.
      rewrite Z.pow_add_r by lia. change (2 ^ 1) with 2.
      replace (Z.pred (2 * 2 ^ (k - 1))) with (1 + (2 ^ (k - 1) - 1) * 2) by lia.
      rewrite Z.mod_add by lia. reflexivity. }
    rewrite Hland. change (Z.shiftl 1 1) with 2.
    apply Z.bits_inj'; intros i Hi.
    rewrite Z.lor_spec.
    destruct (Z.eq_dec i 1) as [-> | Hi1].
    + rewrite Z.ones_spec_low by lia. reflexivity.
    + replace (Z.testbit 2 i) with false; [apply orb_false_r |].
      symmetry. change 2 with (2 ^ 1). apply Z.pow2_bits_false. lia.
Qed.

Lemma calc_mask_round ws c :
  0 <= c <= SIZE_MAX ws ->
  calc_mask ws c = if round_mask (c / 2) =? 1 then 3 else round_mask (c / 2).
Proof.
  intros Hc.
  assert (Hx : 0 <= c / 2 < 2 ^ (size_bits ws - 1)).
  { split; [apply Z.div_pos; lia |].
    apply Z.div_lt_upper_bound; [lia |].
    unfold SIZE_MAX in Hc.
    replace (2 * 2 ^ (size_bits ws - 1)) with (2 ^ size_bits ws); [lia |].
    destruct ws; reflexivity. }
  unfold calc_mask. set (x := c / 2) in *.
  pose proof (covers_self x) as C1.
  apply covers_step in C1; [| lia].
  apply covers_step in C1; [| lia].
  apply covers_step in C1; [| lia].
  apply covers_step in C1; [| lia].
  apply covers_step in C1; [| lia].
  cbn [Z.mul Pos.mul] in C1.
  set (m5 := Z.lor _ (Z.shiftr _ 16)) in *.
  assert (H5 : 0 <= m5).
  { subst m5. repeat apply lor_shiftr_nonneg. lia. }
  assert (Hm : (if SIZE_MAX ws >? UINT32_MAX then Z.lor m5 (Z.shiftr m5 32) else m5)
               = round_mask x).
  { destruct ws.
    - change (SIZE_MAX W32 >? UINT32_MAX) with false. cbn iota.
      apply (covers_full x m5 32 31); [exact Hx | lia | exact C1 | exact H5].
    - change (SIZE_MAX W64 >? UINT32_MAX) with true. cbn iota.
      apply covers_step in C1; [| lia].
      apply (covers_full x _ 64 63); [exact Hx | lia | exact C1 |].
      apply lor_shiftr_nonneg, H5. }
  rewrite Hm. apply floor_fix_round. lia.
Qed.

Lemma is_mask_ones k : 0 <= k -> is_mask (Z.ones k).
Proof. intros Hk. exists k. split; [exact Hk |]. rewrite Z.ones_equiv. lia. Qed.

Lemma round_mask_is_mask x : is_mask (round_mask x).
Proof.
  unfold round_mask. destruct (x =? 0).
  - exists 0. split; [lia | reflexivity].
  - apply is_mask_ones. pose proof (Z.log2_nonneg x). lia.
Qed.

Lemma round_mask_ge x : 0 <= x -> x <= round_mask x.
Proof.
  intros Hx. unfold round_mask. destruct (Z.eqb_spec x 0) as [-> | Hne]; [lia |].
  rewrite Z.ones_equiv. destruct (Z.log2_spec x) as (_ & Hhi); [lia |].
  unfold Z.succ in Hhi. lia.
Qed.

Lemma round_mask_least x m : 0 <= x -> is_mask m -> x <= m -> round_mask x <= m.
Proof.
  intros Hx (k & Hk & ->) Hle. unfold round_mask.
  destruct (Z.eqb_spec x 0) as [-> | Hne]; [exact Hle |].
  rewrite Z.ones_equiv. destruct (Z.log2_spec x) as (Hlo & _); [lia |].
  assert (Hlt : Z.log2 x < k).
  { apply Z.log2_lt_pow2; lia. }
  assert (2 ^ (Z.log2 x + 1) <= 2 ^ k) by (apply Z.pow_le_mono_r; lia).
  lia.
Qed.

Lemma round_mask_mono x y : 0 <= x <= y -> round_mask x <= round_mask y.
Proof.
  intros H. apply round_mask_least; [lia | apply round_mask_is_mask |].
  pose proof (round_mask_ge y). lia.
Qed.

Lemma round_mask_lt_pow2 x b : 0 <= x < 2 ^ b -> 0 <= b -> round_mask x < 2 ^ b.
Proof.
  intros Hx Hb.
  assert (round_mask x <= 2 ^ b - 1); [| lia].
  apply round_mask_least; [lia | | lia]. exists b. auto.
Qed.

Lemma is_mask_gt_1 m : is_mask m -> 1 < m -> 3 <= m.
Proof.
  intros (k & Hk & ->) H.
  destruct (Z_lt_le_dec k 2) as [Hlt | Hge].
  - assert (k = 0 \/ k = 1) as [-> | ->] by lia; simpl in H; lia.
  - assert (2 ^ 2 <= 2 ^ k) by (apply Z.pow_le_mono_r; lia). lia.
Qed.

Lemma div2_range ws c :
  0 <= c <= SIZE_MAX ws -> 0 <= c / 2 < 2 ^ (size_bits ws - 1).
Proof.
  intros Hc. split; [apply Z.div_pos; lia |].
  apply Z.div_lt_upper_bound; [lia |].
  unfold SIZE_MAX in Hc.
  replace (2 * 2 ^ (size_bits ws - 1)) with (2 ^ size_bits ws); [lia |].
  destruct ws; reflexivity.
Qed.

Lemma calc_mask_is_mask ws c : 0 <= c <= SIZE_MAX ws -> is_mask (calc_mask ws c).
Proof.
  intros Hc. rewrite calc_mask_round by exact Hc.
  destruct (round_mask (c / 2) =? 1).
  - exists 2. split; [lia | reflexivity].
  - apply round_mask_is_mask.
Qed.

Lemma calc_mask_lt_max ws c : 0 <= c <= SIZE_MAX ws -> calc_mask ws c < SIZE_MAX ws.
Proof.
  intros Hc. rewrite calc_mask_round by exact Hc.
  pose proof (div2_range ws c Hc) as Hx.
  assert (Hr : round_mask (c / 2) < 2 ^ (size_bits ws - 1)).
  { apply round_mask_lt_pow2; [exact Hx | destruct ws; simpl; lia]. }
  assert (Hp : 2 * 2 ^ (size_bits ws - 1) = 2 ^ size_bits ws) by (destruct ws; reflexivity).
  assert (H8 : 8 <= 2 ^ (size_bits ws - 1)) by (destruct ws; simpl; lia).
  unfold SIZE_MAX. destruct (round_mask (c / 2) =? 1); lia.
Qed.

Lemma calc_mask_mono ws c1 c2 :
  0 <= c1 -> c1 <= c2 -> c2 <= SIZE_MAX ws -> calc_mask ws c1 <= calc_mask ws c2.
Proof.
  intros H1 H12 H2. rewrite !calc_mask_round by lia.
  assert (Hd : 0 <= c1 / 2 <= c2 / 2).
  { split; [apply Z.div_pos; lia | apply Z.div_le_mono; lia]. }
  pose proof (round_mask_mono _ _ Hd) as Hm.
  pose proof (round_mask_nonneg (c1 / 2)) as Hn1.
  pose proof (round_mask_is_mask (c2 / 2)) as Hk2.
  destruct (Z.eqb_spec (round_mask (c1 / 2)) 1) as [E1 | N1];
    destruct (Z.eqb_spec (round_mask (c2 / 2)) 1) as [E2 | N2]; try lia.
  apply is_mask_gt_1; [exact Hk2 | lia].
Qed.

(** ** Memory and monad: basic facts *)

Lemma bind_ok {A B} (c : M A) (k : A -> M B) m a m' :
  c m = Ok (a, m') -> bind c k m = k a m'.
Proof. intros H. unfold bind. rewrite H. reflexivity. Qed.

Lemma get_ok {A} (f : mem -> result A) m a : f m = Ok a -> get f m = Ok (a, m).
Proof. intros H. unfold get. rewrite H. reflexivity. Qed.

Lemma put_ok (f : mem -> result mem) m m' : f m = Ok m' -> put f m = Ok (tt, m').
Proof. intros H. unfold put. rewrite H. reflexivity. Qed.

Lemma read_tab_ok m h t : tabs m !! h = Some t -> read_tab m h = Ok t.
Proof. intros H. unfold read_tab. rewrite H. reflexivity. Qed.

Lemma write_tab_ok m h t0 t :
  tabs m !! h = Some t0 -> write_tab h t m = Ok (with_tabs m (<[h := t]> (tabs m))).
Proof. intros H. unfold write_tab. rewrite H. reflexivity. Qed.

Lemma read_node_ok m a x : nodes m !! a = Some x -> read_node m (Ptr a) = Ok x.
Proof. intros H. unfold read_node. rewrite H. reflexivity. Qed.

Lemma write_node_ok m a x0 x :
  nodes m !! a = Some x0 ->
  write_node (Ptr a) x m = Ok (with_nodes m (<[a := x]> (nodes m))).
Proof. intros H. unfold write_node. rewrite H. reflexivity. Qed.

Lemma set_field_ok m h t f :
  tabs m !! h = Some t ->
  set_field h f m = Ok (tt, with_tabs m (<[h := f t]> (tabs m))).
Proof.
  intros H. unfold set_field.
  rewrite (bind_ok _ _ m t m) by (apply get_ok, read_tab_ok, H).
  apply put_ok. eapply write_tab_ok, H.
Qed.

(** ** Chains *)

Lemma chain_frame nd nd' p l :
  (forall a, a ∈ l -> nd' !! a = nd !! a) -> chain nd p l -> chain nd' p l.
Proof.
  revert p. induction l as [| a l IH]; intros p Hfr Hc; simpl in *; [exact Hc |].
  destruct Hc as (-> & x & Hx & Hc). split; [reflexivity |].
  exists x. split; [rewrite Hfr by apply list_elem_of_here; exact Hx |].
  apply IH; [| exact Hc]. intros b Hb. apply Hfr, list_elem_of_further, Hb.
Qed.

Lemma chain_functional nd p l1 l2 : chain nd p l1 -> chain nd p l2 -> l1 = l2.
Proof.
  revert p l2. induction l1 as [| a l1 IH]; intros p [| b l2] H1 H2; simpl in *.
  - reflexivity.
  - destruct H2 as (-> & _). discriminate.
  - destruct H1 as (-> & _). discriminate.
  - destruct H1 as (-> & x & Hx & H1). destruct H2 as (E & y & Hy & H2).
    injection E as <-. rewrite Hx in Hy. injection Hy as <-.
    f_equal. eapply IH; eassumption.
Qed.

(** ** Bucket contents *)

Lemma seqZ_snoc i : 0 <= i -> seqZ 0 (i + 1) = seqZ 0 i ++ [i].
Proof.
  intros Hi. rewrite seqZ_app by lia. change (0 + i) with i.
  rewrite (seqZ_cons i 1) by lia. rewrite (seqZ_nil (Z.succ i)) by lia. reflexivity.
Qed.

Lemma all_nodes_succ cs i : 0 <= i -> all_nodes cs (i + 1) = all_nodes cs i ++ cs i.
Proof.
  intros Hi. unfold all_nodes. rewrite seqZ_snoc by lia.
  rewrite bind_app, bind_singleton. reflexivity.
Qed.

Lemma all_nodes_zero cs : all_nodes cs 0 = [].
Proof. unfold all_nodes. rewrite seqZ_nil by lia. reflexivity. Qed.

Lemma elem_of_all_nodes cs k a :
  a ∈ all_nodes cs k <-> exists i, 0 <= i < k /\ a ∈ cs i.
Proof.
  unfold all_nodes. rewrite list_elem_of_bind. split.
  - intros (i & Ha & Hi). apply elem_of_seqZ in Hi. exists i. split; [lia | exact Ha].
  - intros (i & Hi & Ha). exists i. split; [exact Ha | apply elem_of_seqZ; lia].
Qed.

Lemma all_nodes_ext cs cs' k :
  (forall i, 0 <= i < k -> cs i = cs' i) -> all_nodes cs k = all_nodes cs' k.
Proof.
  intros H. unfold all_nodes. apply Forall_bind_ext, Forall_seqZ.
  intros i Hi. apply H. lia.
Qed.

Lemma all_nodes_empty k : all_nodes (fun _ => []) k = [].
Proof.
  destruct (Z_lt_le_dec k 0) as [Hk | Hk].
  - unfold all_nodes. rewrite seqZ_nil by lia. reflexivity.
  - revert k Hk. apply natlike_ind.
    + apply all_nodes_zero.
    + intros k Hk IH. unfold Z.succ. rewrite all_nodes_succ, IH by lia. reflexivity.
Qed.

Lemma all_nodes_push_out cs j a k :
  ~ (0 <= j < k) -> all_nodes (push cs j a) k = all_nodes cs k.
Proof.
  intros Hj. apply all_nodes_ext. intros i Hi. unfold push.
  destruct (Z.eqb_spec i j); [lia | reflexivity].
Qed.

Lemma all_nodes_push cs j a k :
  0 <= j < k -> all_nodes (push cs j a) k ≡ₚ a :: all_nodes cs k.
Proof.
  intros Hj. assert (Hk : 0 <= k) by lia. revert k Hk Hj.
  apply (natlike_ind (fun k => 0 <= j < k -> _ ≡ₚ _)); [lia |].
  intros k Hk IH Hj. unfold Z.succ in *. rewrite !all_nodes_succ by lia.
  destruct (Z.eq_dec j k) as [-> | Hne].
  - rewrite all_nodes_push_out by lia. unfold push. rewrite Z.eqb_refl.
    symmetry. apply Permutation_middle.
  - rewrite IH by lia. unfold push.
    destruct (Z.eqb_spec k j); [lia | reflexivity].
Qed.

Lemma land_mask_range hv msk : is_mask msk -> 0 <= Z.land hv msk <= msk.
Proof.
  intros (k & Hk & ->).
  replace (2 ^ k - 1) with (Z.ones k) by (rewrite Z.ones_equiv; lia).
  rewrite Z.land_ones by lia.
  pose proof (Z.mod_pos_bound hv (2 ^ k)) as H.
  assert (0 < 2 ^ k) by (apply Z.pow_pos_nonneg; lia).
  rewrite Z.ones_equiv. lia.
Qed.

Lemma is_mask_nonneg msk : is_mask msk -> 0 <= msk.
Proof.
  intros (k & Hk & ->). assert (0 < 2 ^ k) by (apply Z.pow_pos_nonneg; lia). lia.
Qed.

(** ** Bucket slots and the fast-insert primitive *)

Lemma write_bucket_spec m h t j v :
  tabs m !! h = Some t -> storage_ok m h t -> 0 <= j <= mask t ->
  exists m' t',
    write_slot (Bucket (buckets t) j) v m = Ok m' /\
    nodes m' = nodes m /\
    tabs m' !! h = Some t' /\ mask t' = mask t /\ buckets t' = buckets t /\ n t' = n t /\
    (forall h', h' <> h -> tabs m' !! h' = tabs m !! h') /\
    (forall a', buckets t <> Arr a' -> arrs m' !! a' = arrs m !! a') /\
    storage_ok m' h t' /\
    read_slot m' (Bucket (buckets t) j) = Ok v /\
    (forall i, i <> j ->
       read_slot m' (Bucket (buckets t) i) = read_slot m (Bucket (buckets t) i)).
Proof.
  intros Ht [(Hm0 & Hb) | (Hm & a & arr & Hb & Ha & Hlen)] Hj.
  - assert (j = 0) by lia. subst j.
    exists (with_tabs m (<[h := set_one t v]> (tabs m))), (set_one t v).
    rewrite Hb. simpl. unfold read_tab at 1. rewrite Ht. simpl.
    rewrite (write_tab_ok _ _ t) by exact Ht.
    unfold read_tab. simpl. rewrite lookup_insert_eq.
    split_and!; try reflexivity; try assumption.
    + intros h' Hh'. apply lookup_insert_ne. congruence.
    + left. split; assumption.
    + intros i Hi. destruct (Z.eqb_spec i 0); [lia | reflexivity].
  - exists (with_arrs m (<[a := bset arr j v]> (arrs m))), t.
    rewrite Hb. simpl. rewrite Ha, lookup_insert_eq.
    assert (Hin : in_bounds arr j = true).
    { unfold in_bounds. apply andb_true_intro. split; [apply Z.leb_le | apply Z.ltb_lt]; lia. }
    rewrite Hin. simpl. unfold in_bounds in *. simpl. rewrite Hin, Z.eqb_refl.
    split_and!; try reflexivity; try assumption.
    + intros a' Ha'. apply lookup_insert_ne. congruence.
    + right. split; [assumption |]. exists a, (bset arr j v).
      simpl. rewrite lookup_insert_eq. auto.
    + intros i Hi. destruct (Z.eqb_spec i j); [lia | reflexivity].
Qed.

Lemma wrap_small ws x : 0 <= x <= SIZE_MAX ws -> wrap ws x = x.
Proof. intros H. unfold wrap, SIZE_MAX in *. apply Z.mod_small. lia. Qed.

Lemma MAX_NODES_le ws : 0 <= MAX_NODES ws <= SIZE_MAX ws.
Proof. destruct ws; vm_compute; split; discriminate. Qed.

Lemma storage_ok_transfer m m' h t t' :
  mask t' = mask t -> buckets t' = buckets t ->
  (forall a, buckets t = Arr a -> arrs m' !! a = arrs m !! a) ->
  storage_ok m h t -> storage_ok m' h t'.
Proof.
  intros Hm Hb Ha [(H0 & Hi) | (Hn0 & a & arr & Hba & Harr & Hlen)].
  - left. split; congruence.
  - right. split; [congruence |]. exists a, arr. rewrite Ha by exact Hba.
    split_and!; congruence.
Qed.

Lemma read_slot_set_n m h t k b i :
  tabs m !! h = Some t ->
  read_slot (with_tabs m (<[h := set_n t k]> (tabs m))) (Bucket b i)
  = read_slot m (Bucket b i).
Proof.
  intros Ht. destruct b as [h' | a]; simpl; [| reflexivity].
  destruct (i =? 0); [| reflexivity]. unfold read_tab. simpl.
  destruct (decide (h = h')) as [<- | Hne].
  - rewrite lookup_insert_eq, Ht. reflexivity.
  - rewrite lookup_insert_ne by exact Hne. reflexivity.
Qed.

Lemma node_ok_frame nd nd' msk i a :
  nd' !! a = nd !! a -> node_ok nd msk i a -> node_ok nd' msk i a.
Proof. intros E (x & Hx & Hl). exists x. split; [congruence | exact Hl]. Qed.

Lemma hmap_insert_fast_spec ws m h t cs a x0 hv :
  wf_tab ws m h t cs ->
  nodes m !! a = Some x0 ->
  a ∉ all_nodes cs (mask t + 1) ->
  n t < MAX_NODES ws ->
  exists m' t' p,
    hmap_insert_fast ws h (Ptr a) hv m = Ok (tt, m') /\
    wf_tab ws m' h t' (push cs (Z.land hv (mask t)) a) /\
    mask t' = mask t /\ buckets t' = buckets t /\ n t' = n t + 1 /\
    nodes m' = <[a := {| hash := hv; next := p |}]> (nodes m) /\
    (forall h', h' <> h -> tabs m' !! h' = tabs m !! h') /\
    (forall a', buckets t <> Arr a' -> arrs m' !! a' = arrs m !! a').
Proof.
  intros (Ht & Hmask & Hlt & Hst & Hbk & Hnd & Hn & Hnmax) Hx0 Hfresh Hroom.
  pose proof (MAX_NODES_le ws) as Hmn.
  pose proof (land_mask_range hv _ Hmask) as Hj.
  set (j := Z.land hv (mask t)) in *.
  destruct (Hbk j Hj) as (p & Hp & Hchain & Hall).
  set (m1 := with_nodes m (<[a := {| hash := hv; next := p |}]> (nodes m))).
  assert (Hst1 : storage_ok m1 h t) by exact Hst.
  destruct (write_bucket_spec m1 h t j (Ptr a) Ht Hst1 Hj)
    as (m2 & t2 & Hw & Hnodes2 & Ht2 & Hm2 & Hb2 & Hn2 & Htabs2 & Harrs2 & Hst2 & Hrd2 & Hrdo2).
  assert (Hnodes2' : nodes m2 = <[a := {| hash := hv; next := p |}]> (nodes m))
    by exact Hnodes2.
  set (t3 := set_n t2 (wrap ws (n t2 + 1))).
  exists (with_tabs m2 (<[h := t3]> (tabs m2))), t3, p.
  assert (Hn0 : 0 <= n t) by lia.
  assert (Hwrap : wrap ws (n t2 + 1) = n t + 1) by (rewrite Hn2; apply wrap_small; lia).
  assert (Hfr : forall b, b ∈ all_nodes cs (mask t + 1) ->
                  (<[a := {| hash := hv; next := p |}]> (nodes m)) !! b = nodes m !! b).
  { intros b Hb. apply lookup_insert_ne. intros ->. exact (Hfresh Hb). }
  split.
  { unfold hmap_insert_fast.
    rewrite (bind_ok _ _ m t m) by (apply get_ok, read_tab_ok, Ht).
    fold j. rewrite (bind_ok _ _ m p m) by (apply get_ok, Hp).
    rewrite (bind_ok _ _ m tt m1) by (apply put_ok; eapply write_node_ok, Hx0).
    rewrite (bind_ok _ _ m1 tt m2) by (apply put_ok, Hw).
    rewrite (bind_ok _ _ m2 t2 m2) by (apply get_ok, read_tab_ok, Ht2).
    apply put_ok. eapply write_tab_ok, Ht2. }
  split; [| split_and!].
  - unfold wf_tab. simpl. rewrite lookup_insert_eq, Hwrap, Hm2.
    split_and!; try assumption; try reflexivity.
    + intros i Hi. unfold bucket_ok.
      change (nodes (with_tabs m2 (<[h:=t3]> (tabs m2)))) with (nodes m2).
      change (mask t3) with (mask t2). change (buckets t3) with (buckets t2).
      rewrite Hm2, Hb2. unfold t3. rewrite read_slot_set_n by exact Ht2.
      rewrite Hnodes2'.
      unfold push. destruct (Z.eqb_spec i j) as [-> | Hne].
      * exists (Ptr a). split; [exact Hrd2 |]. split.
        -- simpl. split; [reflexivity |]. eexists. rewrite lookup_insert_eq.
           split; [reflexivity |]. simpl. eapply chain_frame; [| exact Hchain].
           intros b Hb. apply Hfr, elem_of_all_nodes. exists j. split; [lia | exact Hb].
        -- constructor.
           ++ eexists. rewrite lookup_insert_eq. split; reflexivity.
           ++ rewrite Forall_forall in Hall |- *. intros b Hb.
              eapply node_ok_frame; [| apply Hall, Hb].
              apply Hfr, elem_of_all_nodes. exists j. split; [lia | exact Hb].
      * destruct (Hbk i Hi) as (q & Hq & Hqc & Hqa).
        exists q. rewrite Hrdo2 by exact Hne. split; [exact Hq |]. split.
        -- eapply chain_frame; [| exact Hqc].
           intros b Hb. apply Hfr, elem_of_all_nodes. exists i. split; [lia | exact Hb].
        -- rewrite Forall_forall in Hqa |- *. intros b Hb.
           eapply node_ok_frame; [| apply Hqa, Hb].
           apply Hfr, elem_of_all_nodes. exists i. split; [lia | exact Hb].
    + rewrite all_nodes_push by lia. apply NoDup_cons. split; assumption.
    + rewrite all_nodes_push by lia. simpl. lia.
    + lia.
  - exact Hm2.
  - exact Hb2.
  - simpl. lia.
  - simpl. exact Hnodes2.
  - intros h' Hh'. simpl. rewrite lookup_insert_ne by congruence. apply Htabs2, Hh'.
  - intros a' Ha'. simpl. apply Harrs2, Ha'.
Qed.

(** ** Resize engine *)

Lemma hash_stable_refl nd : hash_stable nd nd.
Proof. intros a x Hx. exists x. split; [exact Hx | reflexivity]. Qed.

Lemma hash_stable_trans nd1 nd2 nd3 :
  hash_stable nd1 nd2 -> hash_stable nd2 nd3 -> hash_stable nd1 nd3.
Proof.
  intros H12 H23 a x Hx. destruct (H12 a x Hx) as (y & Hy & E1).
  destruct (H23 a y Hy) as (z & Hz & E2). exists z. split; [exact Hz | congruence].
Qed.

Lemma outside_refl tmp b L m : outside tmp b L m m.
Proof. split_and!; auto using hash_stable_refl. Qed.

Lemma outside_trans tmp b L1 L2 L m1 m2 m3 :
  (forall x, x ∈ L1 -> x ∈ L) -> (forall x, x ∈ L2 -> x ∈ L) ->
  outside tmp b L1 m1 m2 -> outside tmp b L2 m2 m3 -> outside tmp b L m1 m3.
Proof.
  intros HL1 HL2 (Ht1 & Ha1 & Hn1 & Hh1) (Ht2 & Ha2 & Hn2 & Hh2). split_and!.
  - intros h' Hh'. rewrite Ht2, Ht1 by exact Hh'. reflexivity.
  - intros a' Ha'. rewrite Ha2, Ha1 by exact Ha'. reflexivity.
  - intros x Hx. rewrite Hn2, Hn1; [reflexivity | |]; intros Hin; apply Hx; auto.
  - eapply hash_stable_trans; eassumption.
Qed.

Lemma rehash_chain_spec ws tmp l : forall fuel m t cs p,
  wf_tab ws m tmp t cs ->
  chain (nodes m) p l ->
  NoDup l ->
  (forall a, a ∈ l -> a ∉ all_nodes cs (mask t + 1)) ->
  n t + Z.of_nat (length l) <= MAX_NODES ws ->
  (length l < fuel)%nat ->
  exists m' t' cs',
    rehash_chain ws fuel tmp p m = Ok (tt, m') /\
    wf_tab ws m' tmp t' cs' /\ mask t' = mask t /\ buckets t' = buckets t /\
    all_nodes cs' (mask t + 1) ≡ₚ l ++ all_nodes cs (mask t + 1) /\
    outside tmp (buckets t) l m m' /\
    (forall i, cs' i = rev (List.filter (lands_in (nodes m) (mask t) i) l) ++ cs i).
Proof.
  induction l as [| a l IH]; intros fuel m t cs p Hwf Hch Hnd Hdisj Hroom Hfuel.
  - simpl in Hch. subst p. destruct fuel as [| fuel]; [simpl in Hfuel; lia |].
    exists m, t, cs. simpl. split_and!; auto using outside_refl.
  - simpl in Hch. destruct Hch as (-> & x & Hx & Hch).
    destruct fuel as [| fuel]; [simpl in Hfuel; lia |].
    apply NoDup_cons in Hnd. destruct Hnd as (Hal & Hnd).
    assert (Hfresh : a ∉ all_nodes cs (mask t + 1)) by (apply Hdisj, list_elem_of_here).
    assert (Hlen : Z.of_nat (length (a :: l)) = Z.of_nat (length l) + 1)
      by (simpl length; lia).
    destruct (hmap_insert_fast_spec ws m tmp t cs a x (hash x) Hwf Hx Hfresh)
      as (m1 & t1 & q & Hins & Hwf1 & Hm1 & Hb1 & Hn1 & Hnodes1 & Htabs1 & Harrs1); [lia |].
    pose proof Hwf as (_ & Hmask & _).
    pose proof (land_mask_range (hash x) _ Hmask) as Hj.
    destruct (IH fuel m1 t1 (push cs (Z.land (hash x) (mask t)) a) (next x))
      as (m2 & t2 & cs2 & Hrun & Hwf2 & Hm2 & Hb2 & Hperm & Hout & Hord).
    + exact Hwf1.
    + rewrite Hnodes1. eapply chain_frame; [| exact Hch].
      intros b Hb. apply lookup_insert_ne. intros ->. exact (Hal Hb).
    + exact Hnd.
    + intros b Hb. rewrite Hm1, all_nodes_push by lia.
      rewrite not_elem_of_cons. split.
      * intros ->. exact (Hal Hb).
      * apply Hdisj, list_elem_of_further, Hb.
    + lia.
    + simpl in Hfuel. lia.
    + exists m2, t2, cs2. split_and!.
      * cbn [rehash_chain].
        rewrite (bind_ok _ _ m x m) by (apply get_ok; eapply read_node_ok, Hx).
        rewrite (bind_ok _ _ m tt m1) by exact Hins.
        exact Hrun.
      * exact Hwf2.
      * congruence.
      * congruence.
      * rewrite Hm1 in Hperm. rewrite Hperm, all_nodes_push by lia.
        simpl. symmetry. apply Permutation_middle.
      * rewrite Hb1 in Hout.
        apply (outside_trans tmp (buckets t) [a] l (a :: l) m m1 m2).
        -- intros y Hy. apply list_elem_of_singleton in Hy. subst y. apply list_elem_of_here.
        -- intros y Hy. apply list_elem_of_further, Hy.
        -- split_and!; [exact Htabs1 | exact Harrs1 | |].
           ++ intros y Hy. rewrite Hnodes1. apply lookup_insert_ne.
              intros ->. apply Hy, list_elem_of_here.
           ++ intros b y Hy. rewrite Hnodes1. destruct (decide (a = b)) as [<- | Hne].
              ** rewrite lookup_insert_eq. eexists. split; [reflexivity |]. simpl. congruence.
              ** rewrite lookup_insert_ne by exact Hne. exists y. auto.
        -- exact Hout.
      * intros i. rewrite Hord, Hm1.
        rewrite (List.filter_ext_in (lands_in (nodes m1) (mask t) i) (lands_in (nodes m) (mask t) i)).
        2:{ intros b Hb. unfold lands_in, hash_of. rewrite Hnodes1.
            rewrite lookup_insert_ne; [reflexivity |].
            intros ->. apply Hal, list_elem_of_In, Hb. }
        cbn [List.filter]. unfold lands_in at 2, hash_of, push. rewrite Hx.
        rewrite (Z.eqb_sym i). destruct (Z.land (hash x) (mask t) =? i); [| reflexivity].
        cbn [rev]. rewrite <- app_assoc. reflexivity.
Qed.

Lemma for_upto_spec ws (Inv : Z -> mem -> Prop) (bound : M Z) (body : Z -> M unit) hi :
  hi < SIZE_MAX ws ->
  (forall j m, Inv j m -> bound m = Ok (hi, m)) ->
  (forall j m, 0 <= j <= hi -> Inv j m ->
     exists m', body j m = Ok (tt, m') /\ Inv (j + 1) m') ->
  forall fuel i m,
    0 <= i <= hi + 1 -> Inv i m -> (Z.to_nat (hi + 1 - i) < fuel)%nat ->
    exists m', for_upto ws fuel i bound body m = Ok (tt, m') /\ Inv (hi + 1) m'.
Proof.
  intros Hhi Hbound Hbody. induction fuel as [| fuel IH]; intros i m Hi HInv Hfuel; [lia |].
  cbn [for_upto]. rewrite (bind_ok _ _ m hi m) by (eapply Hbound, HInv).
  destruct (Z.leb_spec i hi) as [Hle | Hgt].
  - destruct (Hbody i m) as (m1 & Hb & HInv1); [lia | exact HInv |].
    rewrite (bind_ok _ _ m tt m1) by exact Hb.
    rewrite wrap_small by lia.
    apply IH; [lia | exact HInv1 | lia].
  - exists m. split; [reflexivity |]. replace (hi + 1) with i by lia. exact HInv.
Qed.

Lemma with_arrs_id m a arr : arrs m !! a = Some arr -> with_arrs m (<[a := arr]> (arrs m)) = m.
Proof. intros H. destruct m. unfold with_arrs. simpl in *. rewrite insert_id by exact H. reflexivity. Qed.

Lemma fill_null_spec ws fuel tmp a m t arr0 :
  tabs m !! tmp = Some t -> buckets t = Arr a -> 0 <= mask t < SIZE_MAX ws ->
  arrs m !! a = Some arr0 -> blen arr0 = mask t + 1 ->
  (Z.to_nat (mask t + 1) < fuel)%nat ->
  exists arr,
    for_upto ws fuel 0
      (t <- get (fun m => read_tab m tmp) ;; ret (mask t))
      (fun i => t <- get (fun m => read_tab m tmp) ;;
                put (write_slot (Bucket (buckets t) i) NULL)) m
    = Ok (tt, with_arrs m (<[a := arr]> (arrs m))) /\
    blen arr = mask t + 1 /\
    forall i, 0 <= i <= mask t -> bget arr i = Some NULL.
Proof.
  intros Ht Hb Hm Ha Hlen Hfuel.
  set (Inv := fun (j : Z) (m' : mem) =>
    exists arr, m' = with_arrs m (<[a := arr]> (arrs m)) /\ blen arr = mask t + 1 /\
                forall i, 0 <= i < j -> bget arr i = Some NULL).
  destruct (for_upto_spec ws Inv
      (t <- get (fun m => read_tab m tmp) ;; ret (mask t))
      (fun i => t <- get (fun m => read_tab m tmp) ;;
                put (write_slot (Bucket (buckets t) i) NULL)) (mask t)) with (fuel := fuel) (i := 0) (m := m)
    as (m' & Hrun & arr & -> & Hl & Hcells).
  - lia.
  - intros j m' (arr & -> & _). 
    rewrite (bind_ok _ _ _ t _) by (apply get_ok, read_tab_ok, Ht). reflexivity.
  - intros j m' Hj (arr & -> & Hl & Hcells).
    rewrite (bind_ok _ _ _ t _) by (apply get_ok, read_tab_ok, Ht).
    exists (with_arrs m (<[a := bset arr j NULL]> (arrs m))). split.
    + apply put_ok. rewrite Hb. simpl. rewrite lookup_insert_eq.
      unfold in_bounds. rewrite Hl.
      replace (0 <=? j) with true by (symmetry; apply Z.leb_le; lia).
      replace (j <? mask t + 1) with true by (symmetry; apply Z.ltb_lt; lia).
      simpl. unfold with_arrs. simpl. rewrite insert_insert_eq. reflexivity.
    + exists (bset arr j NULL). split_and!; [reflexivity | exact Hl |].
      intros i Hi. simpl. destruct (Z.eqb_spec i j); [reflexivity |]. apply Hcells. lia.
  - lia.
  - exists arr0. split_and!; [symmetry; apply with_arrs_id, Ha | exact Hlen | intros; lia].
  - lia.
  - exists arr. split_and!; [exact Hrun | exact Hl |]. intros i Hi. apply Hcells. lia.
Qed.

Lemma all_nodes_split cs j k :
  0 <= j <= k -> exists rest, all_nodes cs k = all_nodes cs j ++ rest.
Proof.
  intros Hj. exists (seqZ j (k - j) ≫= cs). unfold all_nodes.
  replace k with (j + (k - j)) at 1 by lia.
  rewrite seqZ_app by lia. rewrite bind_app. reflexivity.
Qed.

Lemma read_slot_outside tmp b L m m' h t i :
  outside tmp b L m m' -> h <> tmp -> storage_ok m h t ->
  (forall a', buckets t = Arr a' -> b <> Arr a') ->
  read_slot m' (Bucket (buckets t) i) = read_slot m (Bucket (buckets t) i).
Proof.
  intros (Ht & Ha & _) Hne [(_ & Hb) | (_ & a & arr & Hb & _)] Hdist; rewrite Hb; simpl.
  - unfold read_tab. rewrite Ht by exact Hne. reflexivity.
  - rewrite Ha; [reflexivity |]. apply Hdist, Hb.
Qed.

Lemma wf_tab_nodup_prefix ws m h t cs j :
  wf_tab ws m h t cs -> 0 <= j <= mask t ->
  NoDup (all_nodes cs j ++ cs j) /\
  Z.of_nat (length (all_nodes cs j ++ cs j)) <= MAX_NODES ws.
Proof.
  intros (_ & _ & _ & _ & _ & Hnd & Hn & Hmax) Hj.
  pose proof (MAX_NODES_le ws) as Hmn.
  destruct (all_nodes_split cs (j + 1) (mask t + 1)) as (rest & E); [lia |].
  rewrite (all_nodes_succ cs j) in E by lia. rewrite E in Hnd, Hn.
  apply NoDup_app in Hnd. destruct Hnd as (Hnd & _). split; [exact Hnd |].
  rewrite (length_app _ rest) in Hn. lia.
Qed.

Lemma rehash_all_spec ws fuel h tmp m t cs t0 :
  h <> tmp ->
  wf_tab ws m h t cs ->
  wf_tab ws m tmp t0 (fun _ => []) ->
  (forall a', buckets t = Arr a' -> buckets t0 <> Arr a') ->
  (Z.to_nat (mask t + 1) < fuel)%nat ->
  (length (all_nodes cs (mask t + 1)) < fuel)%nat ->
  exists m' t' cs',
    for_upto ws fuel 0
      (t <- get (fun m => read_tab m h) ;; ret (mask t))
      (fun i => t <- get (fun m => read_tab m h) ;;
                head <- get (fun m => read_slot m (Bucket (buckets t) i)) ;;
                rehash_chain ws fuel tmp head) m = Ok (tt, m') /\
    wf_tab ws m' tmp t' cs' /\ mask t' = mask t0 /\ buckets t' = buckets t0 /\
    all_nodes cs' (mask t0 + 1) ≡ₚ all_nodes cs (mask t + 1) /\
    outside tmp (buckets t0) (all_nodes cs (mask t + 1)) m m' /\
    (forall i, cs' i = rev (List.filter (lands_in (nodes m) (mask t0) i)
                              (all_nodes cs (mask t + 1)))).
Proof.
  intros Hne Hwf Hwf0 Hdist Hfuel1 Hfuel2.
  pose proof Hwf as (Ht & Hmask & Hlt & Hst & Hbk & Hnd & Hn & Hmax).
  pose proof (MAX_NODES_le ws) as Hmn.
  pose proof (is_mask_nonneg _ Hmask) as Hm0.
  set (Inv := fun (j : Z) (m' : mem) =>
    exists t' cs', wf_tab ws m' tmp t' cs' /\ mask t' = mask t0 /\ buckets t' = buckets t0 /\
      all_nodes cs' (mask t0 + 1) ≡ₚ all_nodes cs j /\
      outside tmp (buckets t0) (all_nodes cs j) m m' /\
      (forall i, cs' i = rev (List.filter (lands_in (nodes m) (mask t0) i) (all_nodes cs j)))).
  destruct (for_upto_spec ws Inv
      (t <- get (fun m => read_tab m h) ;; ret (mask t))
      (fun i => t <- get (fun m => read_tab m h) ;;
                head <- get (fun m => read_slot m (Bucket (buckets t) i)) ;;
                rehash_chain ws fuel tmp head) (mask t)) with (fuel := fuel) (i := 0) (m := m)
    as (m' & Hrun & t' & cs' & Hwf' & Hm' & Hb' & Hperm & Hout & Hord).
  - exact Hlt.
  - intros j m' (t' & cs' & _ & _ & _ & _ & (Htabs & _) & _).
    rewrite (bind_ok _ _ m' t m'); [reflexivity |].
    apply get_ok, read_tab_ok. rewrite Htabs by exact Hne. exact Ht.
  - intros j m1 Hj (t1 & cs1 & Hwf1 & Hm1 & Hb1 & Hperm1 & Hout1 & Hord1).
    pose proof Hout1 as (Htabs1 & Harrs1 & Hnodes1 & Hhash1).
    destruct (wf_tab_nodup_prefix ws m h t cs j Hwf Hj) as (Hndj & Hlenj).
    apply NoDup_app in Hndj. destruct Hndj as (Hnd1 & Hdisj & Hnd2).
    destruct (Hbk j Hj) as (p & Hp & Hchain & _).
    rewrite (bind_ok _ _ m1 t m1)
      by (apply get_ok, read_tab_ok; rewrite Htabs1 by exact Hne; exact Ht).
    rewrite (bind_ok _ _ m1 p m1).
    2:{ apply get_ok. rewrite (read_slot_outside tmp (buckets t0) _ m m1 h t j Hout1 Hne Hst Hdist).
        exact Hp. }
    pose proof Hwf1 as (_ & _ & _ & _ & _ & _ & Hn1 & _).
    rewrite Hm1, Hperm1 in Hn1. rewrite length_app in Hlenj.
    destruct (rehash_chain_spec ws tmp (cs j) fuel m1 t1 cs1 p)
      as (m2 & t2 & cs2 & Hrun2 & Hwf2 & Hm2 & Hb2 & Hperm2 & Hout2 & Hord2).
    + exact Hwf1.
    + eapply chain_frame; [| exact Hchain]. intros b Hb. apply Hnodes1.
      intros Hin. exact (Hdisj b Hin Hb).
    + exact Hnd2.
    + intros b Hb. rewrite Hm1, Hperm1. intros Hin. exact (Hdisj b Hin Hb).
    + lia.
    + destruct (all_nodes_split cs (j + 1) (mask t + 1)) as (rest & E); [lia |].
      rewrite (all_nodes_succ cs j) in E by lia. rewrite E, !length_app in Hfuel2. lia.
    + exists m2. split; [exact Hrun2 |]. exists t2, cs2.
      split_and!; [exact Hwf2 | congruence | congruence | | |].
      * rewrite <- Hm1, Hperm2, Hm1, Hperm1, (all_nodes_succ cs j) by lia.
        apply Permutation_app_comm.
      * rewrite Hb1 in Hout2. rewrite (all_nodes_succ cs j) by lia.
        eapply (outside_trans tmp (buckets t0) (all_nodes cs j) (cs j)); [| | exact Hout1 | exact Hout2].
        -- intros y Hy. apply elem_of_app. left. exact Hy.
        -- intros y Hy. apply elem_of_app. right. exact Hy.
      * intros i. rewrite Hord2, Hord1, Hm1, (all_nodes_succ cs j) by lia.
        rewrite List.filter_app, rev_app_distr. f_equal. f_equal.
        apply List.filter_ext_in. intros b Hb. unfold lands_in, hash_of.
        rewrite Hnodes1; [reflexivity |].
        intros Hin. apply (Hdisj b Hin), list_elem_of_In, Hb.
  - lia.
  - exists t0, (fun _ => []).
    split_and!; [exact Hwf0 | reflexivity | reflexivity | | apply outside_refl |].
    + rewrite all_nodes_empty, all_nodes_zero. reflexivity.
    + intros i. rewrite all_nodes_zero. reflexivity.
  - rewrite Z.sub_0_r. exact Hfuel1.
  - exists m', t', cs'. split_and!; assumption.
Qed.

Lemma with_tabs_id m h t : tabs m !! h = Some t -> with_tabs m (<[h := t]> (tabs m)) = m.
Proof. intros H. destruct m. unfold with_tabs. simpl in *. rewrite insert_id by exact H. reflexivity. Qed.

Lemma hmap_moved_ok m h t :
  tabs m !! h = Some t ->
  hmap_moved h m = Ok (tt, with_tabs m (<[h := moved_fix h t]> (tabs m))).
Proof.
  intros Ht. unfold hmap_moved, moved_fix.
  rewrite (bind_ok _ _ m t m) by (apply get_ok, read_tab_ok, Ht).
  destruct (mask t =? 0).
  - apply (set_field_ok m h t (fun t => set_buckets t (InlineOf h)) Ht).
  - rewrite with_tabs_id by exact Ht. reflexivity.
Qed.

Lemma moved_fix_idem h t : moved_fix h (moved_fix h t) = moved_fix h t.
Proof. unfold moved_fix. destruct (mask t =? 0) eqn:E; simpl; rewrite E; reflexivity. Qed.

Lemma hmap_swap_ok m a b ta tb :
  tabs m !! a = Some ta -> tabs m !! b = Some tb ->
  hmap_swap a b m
  = Ok (tt, with_tabs m (<[b := moved_fix b ta]> (<[a := moved_fix a tb]> (tabs m)))).
Proof.
  intros Ha Hb. unfold hmap_swap.
  rewrite (bind_ok _ _ m ta m) by (apply get_ok, read_tab_ok, Ha).
  rewrite (bind_ok _ _ m tb m) by (apply get_ok, read_tab_ok, Hb).
  rewrite (bind_ok _ _ m tt _) by (apply put_ok; eapply write_tab_ok, Ha).
  set (m1 := with_tabs m (<[a := tb]> (tabs m))).
  assert (Hb1 : is_Some (tabs m1 !! b)).
  { unfold m1. simpl. destruct (decide (a = b)) as [-> | Hne].
    - rewrite lookup_insert_eq. eauto.
    - rewrite lookup_insert_ne by exact Hne. eauto. }
  destruct Hb1 as (tb1 & Hb1).
  rewrite (bind_ok _ _ m1 tt _) by (apply put_ok; eapply write_tab_ok, Hb1).
  set (m2 := with_tabs m1 (<[b := ta]> (tabs m1))).
  assert (Ha2 : tabs m2 !! a = Some (if decide (a = b) then ta else tb)).
  { unfold m2, m1. simpl. destruct (decide (a = b)) as [-> | Hne].
    - rewrite lookup_insert_eq. reflexivity.
    - rewrite lookup_insert_ne by congruence. rewrite lookup_insert_eq. reflexivity. }
  rewrite (bind_ok _ _ m2 tt _) by (eapply hmap_moved_ok, Ha2).
  set (m3 := with_tabs m2 _).
  assert (Hb3 : tabs m3 !! b = Some (if decide (a = b) then moved_fix a ta else ta)).
  { unfold m3, m2, m1. simpl. destruct (decide (a = b)) as [-> | Hne].
    - rewrite lookup_insert_eq. reflexivity.
    - rewrite lookup_insert_ne by congruence. rewrite lookup_insert_eq. reflexivity. }
  rewrite (hmap_moved_ok m3 b _ Hb3). f_equal. f_equal.
  unfold m3, m2, m1, with_tabs. simpl. f_equal.
  apply map_eq. intros k. destruct (decide (a = b)) as [-> | Hne].
  - rewrite Ha in Hb. injection Hb as <-. rewrite moved_fix_idem.
    destruct (decide (k = b)) as [-> | Hk].
    + rewrite !lookup_insert_eq. reflexivity.
    + rewrite !lookup_insert_ne by congruence. reflexivity.
  - destruct (decide (k = b)) as [-> | Hkb].
    + rewrite !lookup_insert_eq. reflexivity.
    + rewrite !(lookup_insert_ne _ b) by congruence.
      destruct (decide (k = a)) as [-> | Hka].
      * rewrite !lookup_insert_eq. reflexivity.
      * repeat (rewrite lookup_insert_ne by congruence). reflexivity.
Qed.

Lemma wf_tab_move ws m m' tmp h t cs :
  wf_tab ws m tmp t cs ->
  tabs m' !! h = Some (moved_fix h t) ->
  nodes m' = nodes m ->
  (forall a, buckets t = Arr a -> arrs m' !! a = arrs m !! a) ->
  wf_tab ws m' h (moved_fix h t) cs.
Proof.
  intros (Ht & Hmask & Hlt & Hst & Hbk & Hnd & Hn & Hmax) Ht' Hnodes Harrs.
  pose proof (MAX_NODES_le ws) as Hmn.
  assert (Hm : mask (moved_fix h t) = mask t).
  { unfold moved_fix. destruct (mask t =? 0); reflexivity. }
  assert (Hnn : n (moved_fix h t) = n t).
  { unfold moved_fix. destruct (mask t =? 0); reflexivity. }
  unfold wf_tab. rewrite Hm, Hnn.
  split_and!; try assumption.
  - destruct Hst as [(H0 & Hb) | (Hn0 & a & arr & Hb & Ha & Hlen)].
    + left. unfold moved_fix. rewrite H0. simpl. auto.
    + right. unfold moved_fix. destruct (Z.eqb_spec (mask t) 0); [contradiction |].
      split; [assumption |]. exists a, arr. rewrite Harrs by exact Hb. auto.
  - intros i Hi. destruct (Hbk i Hi) as (p & Hp & Hc & Hall).
    exists p. rewrite Hm, Hnodes. split_and!; try assumption.
    destruct Hst as [(H0 & Hb) | (Hn0 & a & arr & Hb & Ha & Hlen)].
    + unfold moved_fix. rewrite H0. simpl. rewrite Hb in Hp. simpl in Hp.
      destruct (i =? 0); [| discriminate].
      unfold read_tab in *. rewrite Ht in Hp. simpl in Hp.
      rewrite Ht'. unfold moved_fix. rewrite H0. simpl. exact Hp.
    + unfold moved_fix. destruct (Z.eqb_spec (mask t) 0); [contradiction |].
      rewrite Hb in *. simpl in *. rewrite Harrs by reflexivity. exact Hp.
Qed.

Lemma wf_tab_outside ws tmp b L m m' h t cs :
  outside tmp b L m m' -> h <> tmp ->
  (forall a', buckets t = Arr a' -> b <> Arr a') ->
  (forall x, x ∈ all_nodes cs (mask t + 1) -> x ∉ L) ->
  wf_tab ws m h t cs -> wf_tab ws m' h t cs.
Proof.
  intros Hout Hne Hdist HL (Ht & Hmask & Hlt & Hst & Hbk & Hnd & Hn & Hmax).
  pose proof (MAX_NODES_le ws) as Hmn.
  pose proof Hout as (Htabs & Harrs & Hnodes & _).
  unfold wf_tab. split_and!; try assumption.
  - rewrite Htabs by exact Hne. exact Ht.
  - eapply storage_ok_transfer; [reflexivity | reflexivity | | exact Hst].
    intros a Ha. apply Harrs, Hdist, Ha.
  - intros i Hi. destruct (Hbk i Hi) as (p & Hp & Hc & Hall).
    assert (Hfr : forall x, x ∈ cs i -> nodes m' !! x = nodes m !! x).
    { intros x Hx. apply Hnodes, HL, elem_of_all_nodes. exists i. split; [lia | exact Hx]. }
    exists p. split_and!.
    + rewrite (read_slot_outside tmp b L m m' h t i Hout Hne Hst Hdist). exact Hp.
    + eapply chain_frame; [| exact Hc]. exact Hfr.
    + rewrite Forall_forall in Hall |- *. intros x Hx.
      eapply node_ok_frame; [| apply Hall, Hx]. apply Hfr, Hx.
Qed.

Lemma is_mask_land nm : is_mask nm -> Z.land nm (nm + 1) = 0.
Proof.
  intros (k & Hk & ->). replace (2 ^ k - 1 + 1) with (2 ^ k) by lia.
  replace (2 ^ k - 1) with (Z.ones k) by (rewrite Z.ones_equiv; lia).
  rewrite Z.land_comm, Z.land_ones by lia. apply Z_mod_same_full.
Qed.

Lemma land_succ_is_mask nm : 0 <= nm -> Z.land nm (nm + 1) = 0 -> is_mask nm.
Proof.
  intros H0 Hl. set (k := Z.log2 (nm + 1)).
  pose proof (Z.log2_nonneg (nm + 1)) as Hk.
  destruct (Z.log2_spec (nm + 1)) as (Hlo & Hhi); [lia |]. fold k in Hk, Hlo, Hhi.
  exists k. split; [exact Hk |].
  destruct (Z.eq_dec (nm + 1) (2 ^ k)) as [E | Hne]; [lia |].
  exfalso.
  assert (Hlog : Z.log2 nm = k).
  { apply Z.log2_unique; [exact Hk |]. unfold Z.succ in Hhi. lia. }
  assert (Hpos : 0 < nm).
  { destruct (Z.eq_dec nm 0) as [-> | ?]; [| lia].
    simpl in k. subst k. simpl in Hne. lia. }
  assert (Hb1 : Z.testbit nm k = true) by (rewrite <- Hlog; apply Z.bit_log2; lia).
  assert (Hb2 : Z.testbit (nm + 1) k = true) by (apply Z.bit_log2; lia).
  assert (Hb : Z.testbit (Z.land nm (nm + 1)) k = true)
    by (rewrite Z.land_spec, Hb1, Hb2; reflexivity).
  rewrite Hl, Z.bits_0 in Hb. discriminate.
Qed.

Lemma sizeof_ptr_pos ws : 0 < sizeof_ptr ws.
Proof. destruct ws; reflexivity. Qed.

(** The byte size of an array of [nm + 1] slots when it does not wrap, and
    when it does: [nm + 1] is a power of two, so a wrapped size is 0. *)
Lemma buckets_size_fits ws nm :
  0 <= nm -> sizeof_ptr ws * (nm + 1) <= SIZE_MAX ws ->
  buckets_size ws nm / sizeof_ptr ws = nm + 1.
Proof.
  intros H0 Hfit. pose proof (sizeof_ptr_pos ws) as Hp. unfold buckets_size.
  rewrite (wrap_small ws (nm + 1)) by nia.
  rewrite wrap_small by nia.
  rewrite Z.mul_comm. apply Z.div_mul. lia.
Qed.

Lemma buckets_size_wraps ws nm :
  is_mask nm -> nm < SIZE_MAX ws -> SIZE_MAX ws < sizeof_ptr ws * (nm + 1) ->
  buckets_size ws nm = 0.
Proof.
  intros (k & Hk & ->) Hlt Hbig. unfold buckets_size, wrap, SIZE_MAX in *.
  replace (2 ^ k - 1 + 1) with (2 ^ k) in * by lia.
  assert (Hkb : k < size_bits ws).
  { destruct (Z_lt_le_dec k (size_bits ws)) as [? | Hge]; [assumption |].
    pose proof (Z.pow_le_mono_r 2 (size_bits ws) k ltac:(lia) Hge). lia. }
  rewrite (Z.mod_small (2 ^ k)) by (split; [apply Z.pow_nonneg; lia | lia]).
  set (j := match ws with W32 => 2 | W64 => 3 end).
  assert (Ej : sizeof_ptr ws = 2 ^ j) by (destruct ws; reflexivity).
  assert (Hj : 0 <= j) by (destruct ws; cbn; lia).
  rewrite Ej in *. rewrite <- Z.pow_add_r in * by lia.
  assert (Hge : size_bits ws <= j + k).
  { destruct (Z_lt_le_dec (j + k) (size_bits ws)) as [Hl | ?]; [| assumption].
    pose proof (Z.pow_le_mono_r 2 (j + k) (size_bits ws - 1) ltac:(lia) ltac:(lia)) as Hp.
    assert (2 * 2 ^ (size_bits ws - 1) = 2 ^ size_bits ws).
    { rewrite <- (Z.pow_succ_r 2 (size_bits ws - 1)) by (destruct ws; cbn; lia).
      f_equal. lia. }
    assert (0 < 2 ^ (size_bits ws - 1)) by (apply Z.pow_pos_nonneg; destruct ws; cbn; lia).
    lia. }
  replace (j + k) with ((j + k - size_bits ws) + size_bits ws) by lia.
  rewrite Z.pow_add_r by (destruct ws; cbn in *; lia).
  apply Z.mod_mul. destruct ws; cbn; lia.
Qed.

Lemma resize_setup_spec ws fuel tmp nm m t_any :
  tabs m !! tmp = Some t_any ->
  is_mask nm -> nm < SIZE_MAX ws -> sizeof_ptr ws * (nm + 1) <= SIZE_MAX ws ->
  (Z.to_nat (nm + 1) < fuel)%nat ->
  exists m_b t0,
    (forall k : M unit,
       (hmap_init tmp ;;
        (if negb (nm =? 0) then
           a <- xmalloc ws (buckets_size ws nm) ;;
           set_field tmp (fun t => set_buckets t (Arr a)) ;;
           set_field tmp (fun t => set_mask t nm) ;;
           for_upto ws fuel 0
             (t <- get (fun m => read_tab m tmp) ;; ret (mask t))
             (fun i => t <- get (fun m => read_tab m tmp) ;;
                       put (write_slot (Bucket (buckets t) i) NULL))
         else ret tt) ;; k) m = k m_b) /\
    wf_tab ws m_b tmp t0 (fun _ => []) /\ mask t0 = nm /\
    outside tmp (buckets t0) [] m m_b /\
    (forall a', buckets t0 = Arr a' -> arrs m !! a' = None).
Proof.
  intros Ht Hmask Hlt Hfit Hfuel.
  pose proof (is_mask_nonneg _ Hmask) as Hnm0.
  pose proof (MAX_NODES_le ws) as Hmn.
  set (init := {| buckets := InlineOf tmp; one := NULL; mask := 0; n := 0 |}).
  set (m2 := with_tabs m (<[tmp := init]> (tabs m))).
  assert (Hinit : hmap_init tmp m = Ok (tt, m2)).
  { unfold hmap_init. apply put_ok. eapply write_tab_ok, Ht. }
  assert (Ht2 : tabs m2 !! tmp = Some init) by apply lookup_insert_eq.
  destruct (Z.eqb_spec nm 0) as [-> | Hnz]; cbn [negb].
  - exists m2, init. split_and!.
    + intros k. rewrite (bind_ok _ _ m tt m2) by exact Hinit. reflexivity.
    + unfold wf_tab. rewrite all_nodes_empty. cbn [mask n init length].
      split_and!; try assumption; try reflexivity; try lia.
      * left. split; reflexivity.
      * intros i Hi. assert (i = 0) by lia. subst i. exists NULL.
        split_and!; [| reflexivity | constructor].
        cbn. unfold read_tab. rewrite Ht2. reflexivity.
      * constructor.
    + reflexivity.
    + split_and!; auto using hash_stable_refl.
      intros h' Hh'. apply lookup_insert_ne. congruence.
    + intros a' Ha'. discriminate.
  - set (a := fresh (dom (arrs m))).
    assert (Hfresh : arrs m !! a = None).
    { apply not_elem_of_dom. apply is_fresh. }
    set (arr0 := {| blen := buckets_size ws nm / sizeof_ptr ws; bget := fun _ => None |}).
    set (m3 := with_arrs m2 (<[a := arr0]> (arrs m2))).
    set (t5 := set_mask (set_buckets init (Arr a)) nm).
    set (m5 := with_tabs m3 (<[tmp := t5]> (tabs m3))).
    assert (Hsets : forall k : M unit,
      (set_field tmp (fun t => set_buckets t (Arr a)) ;;
       set_field tmp (fun t => set_mask t nm) ;; k) m3 = k m5).
    { intros k.
      rewrite (bind_ok _ _ m3 tt _)
        by (apply (set_field_ok m3 tmp init (fun t => set_buckets t (Arr a))), Ht2).
      rewrite (bind_ok _ _ _ tt m5); [reflexivity |].
      erewrite (set_field_ok _ tmp (set_buckets init (Arr a)) (fun t => set_mask t nm))
        by apply lookup_insert_eq.
      unfold m5, with_tabs. cbn [tabs arrs nodes]. rewrite insert_insert_eq. reflexivity. }
    assert (Ht5 : tabs m5 !! tmp = Some t5) by apply lookup_insert_eq.
    assert (Ha5 : arrs m5 !! a = Some arr0) by apply lookup_insert_eq.
    destruct (fill_null_spec ws fuel tmp a m5 t5 arr0 Ht5) as (arr & Hfill & Hlen & Hcells).
    + reflexivity.
    + cbn. lia.
    + exact Ha5.
    + cbn. apply buckets_size_fits; [lia | exact Hfit].
    + cbn. exact Hfuel.
    + cbn [mask t5 set_mask] in Hlen, Hcells.
      exists (with_arrs m5 (<[a := arr]> (arrs m5))), t5. split_and!.
      * intros k. rewrite (bind_ok _ _ m tt m2) by exact Hinit.
        rewrite (bind_ok _ _ m2 tt (with_arrs m5 (<[a := arr]> (arrs m5)))); [reflexivity |].
        rewrite (bind_ok _ _ m2 a m3) by reflexivity.
        rewrite Hsets. exact Hfill.
      * unfold wf_tab. rewrite all_nodes_empty. cbn [mask n t5 set_mask set_buckets init length].
        split_and!; try assumption; try reflexivity; try lia.
        -- right. split; [exact Hnz |]. exists a, arr. cbn.
           rewrite lookup_insert_eq. auto.
        -- intros i Hi. exists NULL. split_and!; [| reflexivity | constructor].
           cbn. rewrite lookup_insert_eq. unfold in_bounds. rewrite Hlen.
           replace (0 <=? i) with true by (symmetry; apply Z.leb_le; lia).
           replace (i <? nm + 1) with true by (symmetry; apply Z.ltb_lt; lia).
           cbn. rewrite Hcells by lia. reflexivity.
        -- constructor.
      * reflexivity.
      * split_and!; auto using hash_stable_refl.
        -- intros h' Hh'. cbn. rewrite !lookup_insert_ne by congruence. reflexivity.
        -- intros a' Ha'. cbn in Ha'. cbn. rewrite !lookup_insert_ne by congruence. reflexivity.
      * intros a' Ha'. cbn in Ha'. injection Ha' as <-. exact Hfresh.
Qed.

Lemma resize_spec ws fuel h m t cs nm :
  wf_tab ws m h t cs ->
  is_mask nm -> nm < SIZE_MAX ws -> sizeof_ptr ws * (nm + 1) <= SIZE_MAX ws ->
  (Z.to_nat (nm + 1) < fuel)%nat -> (Z.to_nat (mask t + 1) < fuel)%nat ->
  (length (all_nodes cs (mask t + 1)) < fuel)%nat ->
  exists m' t' cs',
    resize ws fuel h nm m = Ok (tt, m') /\
    wf_tab ws m' h t' cs' /\ mask t' = nm /\ n t' = n t /\
    all_nodes cs' (nm + 1) ≡ₚ all_nodes cs (mask t + 1) /\
    hash_stable (nodes m) (nodes m') /\
    (forall x, x ∉ all_nodes cs (mask t + 1) -> nodes m' !! x = nodes m !! x) /\
    (forall h', h' <> h -> tabs m' !! h' = tabs m !! h') /\
    (forall a, buckets t = Arr a -> arrs m' !! a = None) /\
    (forall a, buckets t <> Arr a -> buckets t' <> Arr a -> arrs m' !! a = arrs m !! a) /\
    (forall a, buckets t' = Arr a -> arrs m !! a = None) /\
    (forall i, cs' i = rev (List.filter (lands_in (nodes m) nm i) (all_nodes cs (mask t + 1)))).
Proof.
  intros Hwf Hmask Hlt Hfit Hf1 Hf2 Hf3.
  pose proof Hwf as (Ht & Hmask_t & Hlt_t & Hst & Hbk & Hnd & Hn & Hmax).
  pose proof (MAX_NODES_le ws) as Hmn.
  pose proof (is_mask_nonneg _ Hmask) as Hnm0.
  set (tmp := fresh (dom (tabs m))).
  assert (Htmp : tabs m !! tmp = None) by (apply not_elem_of_dom, is_fresh).
  assert (Hne : h <> tmp) by congruence.
  set (m1 := with_tabs m (<[tmp := poison]> (tabs m))).
  destruct (resize_setup_spec ws fuel tmp nm m1 poison)
    as (m_b & t0 & Hsetup & Hwf0 & Hm0 & Hout0 & Hfresh0);
    [apply lookup_insert_eq | exact Hmask | exact Hlt | exact Hfit | exact Hf1 |].
  assert (Hout1 : outside tmp (buckets t0) [] m m1).
  { split_and!; auto using hash_stable_refl.
    intros h' Hh'. apply lookup_insert_ne. congruence. }
  assert (Houtb : outside tmp (buckets t0) [] m m_b).
  { eapply (outside_trans tmp (buckets t0) [] []); [| | exact Hout1 | exact Hout0]; auto. }
  assert (Hdist : forall a', buckets t = Arr a' -> buckets t0 <> Arr a').
  { intros a' Ha' Hb. apply Hfresh0 in Hb.
    destruct Hst as [(_ & Hb') | (_ & a & arr & Hb' & Harr & _)]; [congruence |].
    assert (a = a') by congruence. subst a'. cbn in Hb. congruence. }
  assert (Hwfb : wf_tab ws m_b h t cs).
  { eapply wf_tab_outside; [exact Houtb | exact Hne | exact Hdist | | exact Hwf].
    intros x _. apply not_elem_of_nil. }
  destruct (rehash_all_spec ws fuel h tmp m_b t cs t0 Hne Hwfb Hwf0 Hdist Hf2 Hf3)
    as (m_c & t_c & cs' & Hrehash & Hwfc & Hmc & Hbc & Hperm & Houtc & Hord).
  pose proof Houtc as (Htabs_c & Harrs_c & Hnodes_c & Hhash_c).
  pose proof Houtb as (Htabs_b & Harrs_b & Hnodes_b & Hhash_b).
  pose proof Hwfc as (Htc & _ & _ & Hstc & _ & _ & Hnc & _).
  assert (Hth_c : tabs m_c !! h = Some t).
  { rewrite Htabs_c, Htabs_b by exact Hne. exact Ht. }
  set (m_d := with_tabs m_c (<[tmp := moved_fix tmp t]> (<[h := moved_fix h t_c]> (tabs m_c)))).
  assert (Hswap : hmap_swap h tmp m_c = Ok (tt, m_d)) by (apply hmap_swap_ok; assumption).
  assert (Htd : tabs m_d !! tmp = Some (moved_fix tmp t)) by apply lookup_insert_eq.
  assert (Hdestroy : exists m_e,
    hmap_destroy (Some tmp) m_d = Ok (tt, m_e) /\ tabs m_e = tabs m_d /\ nodes m_e = nodes m_d /\
    (forall a, buckets t = Arr a -> arrs m_e !! a = None) /\
    (forall a, buckets t <> Arr a -> arrs m_e !! a = arrs m_d !! a)).
  { unfold hmap_destroy.
    rewrite (bind_ok _ _ m_d _ m_d) by (apply get_ok, read_tab_ok, Htd).
    destruct Hst as [(H0 & Hb) | (Hn0 & a & arr & Hb & Harr & Hlen)].
    - unfold moved_fix. rewrite H0. cbn.
      destruct (decide (InlineOf tmp <> InlineOf tmp)); [congruence |].
      exists m_d. split_and!; try reflexivity. intros a Ha. congruence.
    - unfold moved_fix. destruct (Z.eqb_spec (mask t) 0); [contradiction |].
      destruct (decide (buckets t <> InlineOf tmp)) as [Hd | Hd];
        [| exfalso; apply Hd; rewrite Hb; discriminate].
      rewrite Hb. unfold free.
      assert (Ha_d : arrs m_d !! a = Some arr).
      { cbn. rewrite Harrs_c, Harrs_b; [exact Harr | |]; apply Hdist, Hb. }
      rewrite Ha_d. eexists. split_and!; try reflexivity.
      + intros a' Ha'. injection Ha' as <-. cbn. apply lookup_delete_eq.
      + intros a' Ha'. cbn. apply lookup_delete_ne. congruence. }
  destruct Hdestroy as (m_e & Hdes & Htabs_e & Hnodes_e & Hfreed & Harrs_e).
  set (m_f := with_tabs m_e (delete tmp (tabs m_e))).
  assert (Hrun : resize ws fuel h nm m = Ok (tt, m_f)).
  { unfold resize.
    replace (Z.land nm (wrap ws (nm + 1)) =? 0) with true
      by (rewrite wrap_small by lia; rewrite (is_mask_land _ Hmask); reflexivity).
    replace (nm =? SIZE_MAX ws) with false by (symmetry; apply Z.eqb_neq; lia).
    rewrite (bind_ok _ _ m tt m) by reflexivity.
    rewrite (bind_ok _ _ m tt m) by reflexivity.
    rewrite (bind_ok _ _ m tmp m1) by reflexivity.
    cbv beta. rewrite Hsetup.
    rewrite (bind_ok _ _ m_b tt m_c) by exact Hrehash.
    rewrite (bind_ok _ _ m_c tt m_d) by exact Hswap.
    rewrite (bind_ok _ _ m_d tt m_e) by exact Hdes.
    reflexivity. }
  assert (Hwff : wf_tab ws m_f h (moved_fix h t_c) cs').
  { eapply wf_tab_move; [exact Hwfc | | cbn; rewrite Hnodes_e; reflexivity |].
    - cbn. rewrite Htabs_e. cbn. rewrite lookup_delete_ne by congruence.
      rewrite lookup_insert_ne by congruence. apply lookup_insert_eq.
    - intros a Ha. cbn. rewrite Harrs_e; [reflexivity |].
      intros Hb. apply (Hdist a Hb). congruence. }
  assert (Hmf : mask (moved_fix h t_c) = nm).
  { unfold moved_fix. destruct (mask t_c =? 0); cbn; congruence. }
  exists m_f, (moved_fix h t_c), cs'. split_and!.
  - exact Hrun.
  - exact Hwff.
  - exact Hmf.
  - destruct Hwff as (_ & _ & _ & _ & _ & _ & Hnf & _).
    rewrite Hnf, Hmf, <- Hm0, Hperm. symmetry. exact Hn.
  - rewrite <- Hm0. exact Hperm.
  - cbn. rewrite Hnodes_e. cbn. eapply hash_stable_trans; eassumption.
  - intros x Hx. cbn. rewrite Hnodes_e. cbn. rewrite Hnodes_c by exact Hx.
    apply Hnodes_b, not_elem_of_nil.
  - intros h' Hh'. cbn. rewrite Htabs_e. cbn.
    destruct (decide (h' = tmp)) as [-> | Hne'].
    + rewrite lookup_delete_eq. symmetry. exact Htmp.
    + rewrite lookup_delete_ne by congruence. rewrite !lookup_insert_ne by congruence.
      rewrite Htabs_c, Htabs_b by exact Hne'. reflexivity.
  - intros a Ha. cbn. apply Hfreed, Ha.
  - intros a Ha Ha'. cbn. rewrite Harrs_e by exact Ha. cbn.
    assert (Hb0 : buckets t0 <> Arr a).
    { intros Hb. apply Ha'. unfold moved_fix. destruct (mask t_c =? 0) eqn:E.
      - apply Z.eqb_eq in E. destruct Hstc as [(_ & Hi) | (Hnz & _)]; [congruence | contradiction].
      - congruence. }
    rewrite Harrs_c, Harrs_b by exact Hb0. reflexivity.
  - intros a Ha. apply (Hfresh0 a). rewrite <- Hbc.
    unfold moved_fix in Ha. destruct (mask t_c =? 0); [discriminate | exact Ha].
  - intros i. rewrite Hord, Hm0. f_equal. apply List.filter_ext. intros b.
    unfold lands_in, hash_of. rewrite Hnodes_b by apply not_elem_of_nil. reflexivity.
Qed.

(** ** Walking to a link and rewriting it *)

Lemma chain_head_eq nd p l : chain nd p l -> p = chain_head l.
Proof. destruct l; simpl; [auto | intros (-> & _); reflexivity]. Qed.

Lemma chain_split nd p l1 l2 :
  chain nd p (l1 ++ l2) <-> exists q, chain_seg nd p l1 q /\ chain nd q l2.
Proof.
  revert p. induction l1 as [| b l1 IH]; intros p; simpl.
  - split; [intros H; exists p; auto | intros (q & -> & H); exact H].
  - split.
    + intros (-> & x & Hx & Hc). apply IH in Hc. destruct Hc as (q & Hs & Hc).
      exists q. split; [| exact Hc]. split; [reflexivity |]. exists x. auto.
    + intros (q & (-> & x & Hx & Hs) & Hc). split; [reflexivity |].
      exists x. split; [exact Hx |]. apply IH. exists q. auto.
Qed.

Lemma chain_seg_frame nd nd' p l q :
  (forall a, a ∈ l -> nd' !! a = nd !! a) -> chain_seg nd p l q -> chain_seg nd' p l q.
Proof.
  revert p. induction l as [| a l IH]; intros p Hfr Hc; simpl in *; [exact Hc |].
  destruct Hc as (-> & x & Hx & Hc). split; [reflexivity |].
  exists x. split; [rewrite Hfr by apply list_elem_of_here; exact Hx |].
  apply IH; [| exact Hc]. intros b Hb. apply Hfr, list_elem_of_further, Hb.
Qed.

Lemma walk_to_spec l1 : forall s p m fuel target,
  read_slot m s = Ok p ->
  chain_seg (nodes m) p l1 target ->
  (forall b, b ∈ l1 -> Ptr b <> target) ->
  (length l1 < fuel)%nat ->
  walk_to fuel s target m = Ok (link_slot s l1, m) /\
  read_slot m (link_slot s l1) = Ok target.
Proof.
  induction l1 as [| b l1 IH]; intros s p m fuel target Hrd Hc Hne Hfuel;
    (destruct fuel as [| fuel]; [simpl in Hfuel; lia |]).
  - simpl in Hc. subst p.
    cbn [walk_to link_slot]. rewrite (bind_ok _ _ m target m) by (apply get_ok, Hrd).
    destruct (decide (target <> target)); [congruence |]. split; [reflexivity | exact Hrd].
  - simpl in Hc. destruct Hc as (-> & x & Hx & Hc).
    cbn [walk_to link_slot]. rewrite (bind_ok _ _ m (Ptr b) m) by (apply get_ok, Hrd).
    destruct (decide (Ptr b <> target)) as [_ | Heq];
      [| exfalso; apply Heq, Hne, list_elem_of_here].
    apply (IH (NextOf (Ptr b)) (next x) m fuel target).
    + cbn. rewrite Hx. reflexivity.
    + exact Hc.
    + intros c Hc'. apply Hne, list_elem_of_further, Hc'.
    + simpl in Hfuel. lia.
Qed.

(** A walk for a target that is neither in the chain nor [NULL] runs off the
    end of the chain and dereferences the null link. *)
Lemma walk_to_absent l : forall s p m fuel target,
  read_slot m s = Ok p ->
  chain (nodes m) p l ->
  (forall b, b ∈ l -> Ptr b <> target) ->
  target <> NULL ->
  (length l + 1 < fuel)%nat ->
  walk_to fuel s target m = Err MemFault.
Proof.
  induction l as [| b l IH]; intros s p m fuel target Hrd Hc Hne Hnull Hfuel;
    (destruct fuel as [| fuel]; [simpl in Hfuel; lia |]).
  - simpl in Hc. subst p. cbn [walk_to].
    rewrite (bind_ok _ _ m NULL m) by (apply get_ok, Hrd).
    destruct (decide (NULL <> target)) as [_ | Heq]; [| exfalso; apply Heq; congruence].
    destruct fuel as [| fuel]; [simpl in Hfuel; lia |]. reflexivity.
  - simpl in Hc. destruct Hc as (-> & x & Hx & Hc).
    cbn [walk_to]. rewrite (bind_ok _ _ m (Ptr b) m) by (apply get_ok, Hrd).
    destruct (decide (Ptr b <> target)) as [_ | Heq];
      [| exfalso; apply Heq, Hne, list_elem_of_here].
    apply (IH (NextOf (Ptr b)) (next x) m fuel target).
    + cbn. rewrite Hx. reflexivity.
    + exact Hc.
    + intros c Hc'. apply Hne, list_elem_of_further, Hc'.
    + exact Hnull.
    + simpl in Hfuel. lia.
Qed.

(** Writing [v] into the link after the nodes [b :: l1]: the last of them gets
    [v] as its [next]. *)
Lemma write_next_link v q l1 : forall b m,
  chain_seg (nodes m) (Ptr b) (b :: l1) q ->
  NoDup (b :: l1) ->
  exists c x,
    c ∈ b :: l1 /\ nodes m !! c = Some x /\
    write_slot (link_slot (NextOf (Ptr b)) l1) v m
    = Ok (with_nodes m (<[c := {| hash := hash x; next := v |}]> (nodes m))) /\
    chain_seg (<[c := {| hash := hash x; next := v |}]> (nodes m)) (Ptr b) (b :: l1) v.
Proof.
  induction l1 as [| b' l1 IH]; intros b m Hc Hnd.
  - simpl in Hc. destruct Hc as (_ & x & Hx & Hc).
    exists b, x. split_and!; [apply list_elem_of_here | exact Hx | |].
    + cbn [link_slot write_slot]. unfold read_node. rewrite Hx. cbn.
      rewrite Hx. reflexivity.
    + simpl. split; [reflexivity |].
      eexists. rewrite lookup_insert_eq. split; reflexivity.
  - destruct Hc as (_ & x & Hx & Hc).
    apply NoDup_cons in Hnd. destruct Hnd as (Hb & Hnd).
    pose proof Hc as (Hnext & _).
    rewrite Hnext in Hc.
    destruct (IH b' m Hc Hnd) as (c & y & Hcin & Hy & Hw & Hchain).
    exists c, y. split_and!; [apply list_elem_of_further, Hcin | exact Hy | exact Hw |].
    split; [reflexivity |].
    assert (Hcb : c <> b) by (intros ->; exact (Hb Hcin)).
    exists x. rewrite lookup_insert_ne by exact Hcb. split; [exact Hx |].
    rewrite Hnext. exact Hchain.
Qed.

Lemma relink_spec m h t j p l1 q v :
  tabs m !! h = Some t -> storage_ok m h t -> 0 <= j <= mask t ->
  read_slot m (Bucket (buckets t) j) = Ok p ->
  chain_seg (nodes m) p l1 q -> NoDup l1 ->
  exists m' t' p',
    write_slot (link_slot (Bucket (buckets t) j) l1) v m = Ok m' /\
    tabs m' !! h = Some t' /\ mask t' = mask t /\ buckets t' = buckets t /\ n t' = n t /\
    storage_ok m' h t' /\
    outside h (buckets t) l1 m m' /\
    read_slot m' (Bucket (buckets t) j) = Ok p' /\
    chain_seg (nodes m') p' l1 v /\
    (forall i, i <> j ->
       read_slot m' (Bucket (buckets t) i) = read_slot m (Bucket (buckets t) i)).
Proof.
  intros Ht Hst Hj Hp Hseg Hnd. destruct l1 as [| b l1].
  - destruct (write_bucket_spec m h t j v Ht Hst Hj)
      as (m' & t' & Hw & Hnodes & Ht' & Hm' & Hb' & Hn' & Htabs & Harrs & Hst' & Hrd & Hrdo).
    exists m', t', v. cbn [link_slot]. split_and!; try assumption.
    + unfold outside. split_and!; try assumption.
      * intros x _. rewrite Hnodes. reflexivity.
      * rewrite Hnodes. apply hash_stable_refl.
    + reflexivity.
  - pose proof Hseg as (-> & _).
    destruct (write_next_link v q l1 b m Hseg Hnd) as (c & x & Hcin & Hx & Hw & Hseg').
    exists (with_nodes m (<[c := {| hash := hash x; next := v |}]> (nodes m))), t, (Ptr b).
    cbn [link_slot]. split_and!; try reflexivity; try assumption.
    unfold outside. split_and!; try reflexivity.
    + intros y Hy. cbn. apply lookup_insert_ne. intros ->. exact (Hy Hcin).
    + intros y z Hz. cbn. destruct (decide (c = y)) as [<- | Hne].
      * rewrite lookup_insert_eq. eexists. split; [reflexivity |]. cbn. congruence.
      * rewrite lookup_insert_ne by exact Hne. exists z. auto.
Qed.

Lemma all_nodes_upd_out cs j l k :
  ~ (0 <= j < k) -> all_nodes (upd cs j l) k = all_nodes cs k.
Proof.
  intros Hj. apply all_nodes_ext. intros i Hi. unfold upd.
  destruct (Z.eqb_spec i j); [lia | reflexivity].
Qed.

Lemma all_nodes_upd cs j l k :
  0 <= j < k -> all_nodes (upd cs j l) k ≡ₚ l ++ all_nodes (upd cs j []) k.
Proof.
  intros Hj. assert (Hk : 0 <= k) by lia. revert k Hk Hj.
  apply (natlike_ind (fun k => 0 <= j < k -> _ ≡ₚ _)); [lia |].
  intros k Hk IH Hj. unfold Z.succ in *. rewrite !all_nodes_succ by lia.
  destruct (Z.eq_dec j k) as [-> | Hne].
  - rewrite !all_nodes_upd_out by lia. unfold upd. rewrite Z.eqb_refl.
    rewrite app_nil_r. apply Permutation_app_comm.
  - rewrite IH by lia. unfold upd.
    destruct (Z.eqb_spec k j); [lia |]. rewrite app_assoc. reflexivity.
Qed.

Lemma all_nodes_upd_self cs j k :
  0 <= j < k -> all_nodes cs k ≡ₚ cs j ++ all_nodes (upd cs j []) k.
Proof.
  intros Hj. rewrite <- all_nodes_upd by exact Hj.
  erewrite all_nodes_ext; [reflexivity |]. intros i _. unfold upd.
  destruct (Z.eqb_spec i j); congruence.
Qed.

Lemma node_ok_stable nd nd' msk i a :
  hash_stable nd nd' -> node_ok nd msk i a -> node_ok nd' msk i a.
Proof.
  intros Hs (x & Hx & Hl). destruct (Hs a x Hx) as (x' & Hx' & E).
  exists x'. split; [exact Hx' | congruence].
Qed.

Lemma wf_tab_bucket_of ws m h t cs a :
  wf_tab ws m h t cs -> a ∈ all_nodes cs (mask t + 1) ->
  exists x, nodes m !! a = Some x /\
    0 <= Z.land (hash x) (mask t) <= mask t /\ a ∈ cs (Z.land (hash x) (mask t)).
Proof.
  intros (_ & _ & _ & _ & Hbk & _) Ha.
  apply elem_of_all_nodes in Ha. destruct Ha as (i & Hi & Ha).
  destruct (Hbk i) as (p & _ & _ & Hall); [lia |].
  rewrite Forall_forall in Hall. destruct (Hall a Ha) as (x & Hx & Hl).
  exists x. rewrite Hl. split_and!; [exact Hx | lia | lia | exact Ha].
Qed.

Lemma wf_tab_bucket_unique ws m h t cs a i :
  wf_tab ws m h t cs -> 0 <= i <= mask t -> a ∈ cs i ->
  exists x, nodes m !! a = Some x /\ Z.land (hash x) (mask t) = i.
Proof.
  intros (_ & _ & _ & _ & Hbk & _) Hi Ha.
  destruct (Hbk i Hi) as (p & _ & _ & Hall).
  rewrite Forall_forall in Hall. exact (Hall a Ha).
Qed.

Lemma wf_tab_bucket_nodup ws m h t cs j :
  wf_tab ws m h t cs -> 0 <= j <= mask t -> NoDup (cs j).
Proof.
  intros (_ & _ & _ & _ & _ & Hnd & _) Hj.
  rewrite (all_nodes_upd_self cs j) in Hnd by lia.
  apply NoDup_app in Hnd. tauto.
Qed.

(** The chains are read off the memory: two descriptions of the same table
    agree on every bucket. *)
Lemma wf_tab_unique ws m h t cs cs' i :
  wf_tab ws m h t cs -> wf_tab ws m h t cs' -> 0 <= i <= mask t -> cs i = cs' i.
Proof.
  intros (_ & _ & _ & _ & Hbk & _) (_ & _ & _ & _ & Hbk' & _) Hi.
  destruct (Hbk i Hi) as (p & Hp & Hc & _). destruct (Hbk' i Hi) as (p' & Hp' & Hc' & _).
  rewrite Hp in Hp'. injection Hp' as <-. eapply chain_functional; eassumption.
Qed.

Lemma hmap_remove_spec ws fuel m h t cs a :
  wf_tab ws m h t cs -> a ∈ all_nodes cs (mask t + 1) ->
  (length (all_nodes cs (mask t + 1)) < fuel)%nat ->
  exists m' t' j l1 l2,
    hmap_remove ws fuel h (Ptr a) m = Ok (tt, m') /\
    0 <= j <= mask t /\ cs j = l1 ++ a :: l2 /\
    wf_tab ws m' h t' (upd cs j (l1 ++ l2)) /\
    mask t' = mask t /\ n t' = n t - 1 /\
    hash_stable (nodes m) (nodes m') /\
    all_nodes cs (mask t + 1) ≡ₚ a :: all_nodes (upd cs j (l1 ++ l2)) (mask t + 1) /\
    (forall y, y ∉ all_nodes cs (mask t + 1) -> nodes m' !! y = nodes m !! y).
Proof.
  intros Hwf Ha Hfuel.
  destruct (wf_tab_bucket_of ws m h t cs a Hwf Ha) as (x & Hx & Hj & Haj).
  set (j := Z.land (hash x) (mask t)) in *.
  pose proof (wf_tab_bucket_nodup ws m h t cs j Hwf Hj) as Hndj.
  pose proof Hwf as (Ht & Hmask & Hlt & Hst & Hbk & Hnd & Hn & Hmax).
  pose proof (MAX_NODES_le ws) as Hmn.
  destruct (Hbk j Hj) as (p & Hp & Hchain & Hall).
  apply list_elem_of_split in Haj. destruct Haj as (l1 & l2 & Hsplit).
  rewrite Hsplit in Hchain, Hndj, Hall.
  apply chain_split in Hchain. destruct Hchain as (q & Hseg & Hq).
  destruct Hq as (-> & x' & Hx' & Hl2). rewrite Hx in Hx'. injection Hx' as <-.
  apply NoDup_app in Hndj. destruct Hndj as (Hnd1 & Hdisj & Hnd2).
  apply NoDup_cons in Hnd2. destruct Hnd2 as (Hal2 & Hnd2).
  assert (Hperm : all_nodes cs (mask t + 1)
                  ≡ₚ a :: all_nodes (upd cs j (l1 ++ l2)) (mask t + 1)).
  { rewrite (all_nodes_upd_self cs j), (all_nodes_upd cs j (l1 ++ l2)) by lia.
    rewrite Hsplit. rewrite <- !app_assoc. cbn [app]. symmetry. apply Permutation_middle. }
  assert (Hlen : (length l1 < fuel)%nat).
  { rewrite (all_nodes_upd_self cs j), Hsplit, !length_app in Hfuel by lia. lia. }
  destruct (walk_to_spec l1 (Bucket (buckets t) j) p m fuel (Ptr a) Hp Hseg) as (Hwalk & _);
    [| exact Hlen |].
  { intros b Hb E. injection E as ->. apply (Hdisj a Hb), list_elem_of_here. }
  destruct (relink_spec m h t j p l1 (Ptr a) (next x) Ht Hst Hj Hp Hseg Hnd1)
    as (m1 & t1 & p' & Hw & Ht1 & Hm1 & Hb1 & Hn1 & Hst1 & Hout & Hrd1 & Hseg1 & Hrdo).
  pose proof Hout as (Htabs1 & Harrs1 & Hnodes1 & Hhash1).
  assert (Hnpos : 1 <= n t).
  { rewrite Hn, Hperm. simpl length. lia. }
  set (t2 := set_n t1 (wrap ws (n t1 - 1))).
  exists (with_tabs m1 (<[h := t2]> (tabs m1))), t2, j, l1, l2.
  assert (Hwrap : wrap ws (n t1 - 1) = n t - 1) by (rewrite Hn1; apply wrap_small; lia).
  split_and!.
  - unfold hmap_remove.
    rewrite (bind_ok _ _ m t m) by (apply get_ok, read_tab_ok, Ht).
    rewrite (bind_ok _ _ m x m) by (apply get_ok; eapply read_node_ok, Hx).
    fold j. rewrite (bind_ok _ _ m _ m) by exact Hwalk.
    rewrite (bind_ok _ _ m tt m1) by (apply put_ok, Hw).
    rewrite (bind_ok _ _ m1 t1 m1) by (apply get_ok, read_tab_ok, Ht1).
    apply put_ok. eapply write_tab_ok, Ht1.
  - lia.
  - lia.
  - exact Hsplit.
  - unfold wf_tab. cbn [tabs with_tabs]. rewrite lookup_insert_eq.
    change (mask t2) with (mask t1). change (n t2) with (wrap ws (n t1 - 1)).
    rewrite Hwrap, Hm1.
    split_and!; try assumption; try reflexivity.
    + intros i Hi. unfold bucket_ok.
      change (nodes (with_tabs m1 (<[h:=t2]> (tabs m1)))) with (nodes m1).
      change (mask t2) with (mask t1). change (buckets t2) with (buckets t1).
      rewrite Hm1, Hb1. unfold t2. rewrite read_slot_set_n by exact Ht1.
      unfold upd. destruct (Z.eqb_spec i j) as [-> | Hne].
      * exists p'. split_and!; [exact Hrd1 | |].
        -- apply chain_split. exists (next x). split; [exact Hseg1 |].
           eapply chain_frame; [| exact Hl2]. intros y Hy. apply Hnodes1.
           intros Hy1. apply (Hdisj y Hy1), list_elem_of_further, Hy.
        -- rewrite Forall_forall in Hall |- *. intros y Hy.
           eapply node_ok_stable; [exact Hhash1 |]. apply Hall.
           apply elem_of_app in Hy. apply elem_of_app.
           destruct Hy as [Hy | Hy]; [left; exact Hy | right; apply list_elem_of_further, Hy].
      * destruct (Hbk i Hi) as (pi & Hpi & Hci & Halli).
        exists pi. rewrite Hrdo by exact Hne. split_and!; [exact Hpi | |].
        -- eapply chain_frame; [| exact Hci]. intros y Hy. apply Hnodes1.
           intros Hy1.
           destruct (wf_tab_bucket_unique ws m h t cs y i Hwf Hi Hy) as (z & Hz & Hzi).
           destruct (wf_tab_bucket_unique ws m h t cs y j Hwf Hj) as (z' & Hz' & Hzj).
           { rewrite Hsplit. apply elem_of_app. left. exact Hy1. }
           congruence.
        -- rewrite Forall_forall in Halli |- *. intros y Hy.
           eapply node_ok_stable; [exact Hhash1 | apply Halli, Hy].
    + rewrite Hperm in Hnd. apply NoDup_cons in Hnd. tauto.
    + rewrite Hn, Hperm. simpl length. lia.
    + lia.
  - exact Hm1.
  - cbn. lia.
  - exact Hhash1.
  - exact Hperm.
  - intros y Hy. cbn. apply Hnodes1. intros Hy1. apply Hy, elem_of_all_nodes.
    exists j. split; [lia |]. rewrite Hsplit. apply elem_of_app. left. exact Hy1.
Qed.

Lemma hmap_node_moved_spec ws fuel m0 h t cs old new :
  wf_tab ws m0 h t cs -> old ∈ all_nodes cs (mask t + 1) ->
  nodes m0 !! new = None ->
  (length (all_nodes cs (mask t + 1)) < fuel)%nat ->
  exists m' t' x l1 l2,
    hmap_node_moved fuel h (Ptr old) (Ptr new) (move_node old new m0) = Ok (tt, m') /\
    nodes m0 !! old = Some x /\
    0 <= Z.land (hash x) (mask t) <= mask t /\
    cs (Z.land (hash x) (mask t)) = l1 ++ old :: l2 /\
    wf_tab ws m' h t' (upd cs (Z.land (hash x) (mask t)) (l1 ++ new :: l2)) /\
    mask t' = mask t /\ buckets t' = buckets t /\ n t' = n t /\
    nodes m' !! new = Some x /\
    (forall h', h' <> h -> tabs m' !! h' = tabs m0 !! h').
Proof.
  intros Hwf Ha Hnew Hfuel.
  destruct (wf_tab_bucket_of ws m0 h t cs old Hwf Ha) as (x & Hx & Hj & Haj).
  set (j := Z.land (hash x) (mask t)) in *.
  pose proof (wf_tab_bucket_nodup ws m0 h t cs j Hwf Hj) as Hndj.
  pose proof Hwf as (Ht & Hmask & Hlt & Hst & Hbk & Hnd & Hn & Hmax).
  pose proof (MAX_NODES_le ws) as Hmn.
  destruct (Hbk j Hj) as (p & Hp & Hchain & Hall).
  apply list_elem_of_split in Haj. destruct Haj as (l1 & l2 & Hsplit).
  rewrite Hsplit in Hchain, Hndj, Hall.
  apply chain_split in Hchain. destruct Hchain as (q & Hseg & Hq).
  destruct Hq as (-> & x' & Hx' & Hl2). rewrite Hx in Hx'. injection Hx' as <-.
  apply NoDup_app in Hndj. destruct Hndj as (Hnd1 & Hdisj & Hnd2).
  apply NoDup_cons in Hnd2. destruct Hnd2 as (Hal2 & Hnd2).
  assert (Hnewout : new ∉ all_nodes cs (mask t + 1)).
  { intros Hin. destruct (wf_tab_bucket_of ws m0 h t cs new Hwf Hin) as (z & Hz & _).
    congruence. }
  assert (Hon : old <> new) by congruence.
  set (m := with_nodes m0 (<[new := x]> (delete old (nodes m0)))).
  assert (Hmove : move_node old new m0 = m) by (unfold move_node; rewrite Hx; reflexivity).
  assert (Hfr : forall y, y <> old -> y <> new -> nodes m !! y = nodes m0 !! y).
  { intros y Hy1 Hy2. cbn. rewrite lookup_insert_ne by congruence.
    apply lookup_delete_ne. congruence. }
  assert (Hin_all : forall y i, 0 <= i <= mask t -> y ∈ cs i -> y <> new).
  { intros y i Hi Hy ->. apply Hnewout, elem_of_all_nodes. exists i. split; [lia | exact Hy]. }
  assert (Hl1 : forall y, y ∈ l1 -> y <> old /\ y <> new).
  { intros y Hy. split.
    - intros ->. apply (Hdisj old Hy), list_elem_of_here.
    - apply (Hin_all y j Hj). rewrite Hsplit. apply elem_of_app. left. exact Hy. }
  assert (Hl2' : forall y, y ∈ l2 -> y <> old /\ y <> new /\ y ∉ l1).
  { intros y Hy. split_and!.
    - intros ->. exact (Hal2 Hy).
    - apply (Hin_all y j Hj). rewrite Hsplit. apply elem_of_app. right.
      apply list_elem_of_further, Hy.
    - intros Hy1. apply (Hdisj y Hy1), list_elem_of_further, Hy. }
  assert (Hperm : all_nodes cs (mask t + 1)
                  ≡ₚ old :: all_nodes (upd cs j (l1 ++ l2)) (mask t + 1)).
  { rewrite (all_nodes_upd_self cs j), (all_nodes_upd cs j (l1 ++ l2)) by lia.
    rewrite Hsplit. rewrite <- !app_assoc. cbn [app]. symmetry. apply Permutation_middle. }
  assert (Hperm' : all_nodes (upd cs j (l1 ++ new :: l2)) (mask t + 1)
                  ≡ₚ new :: all_nodes (upd cs j (l1 ++ l2)) (mask t + 1)).
  { rewrite (all_nodes_upd cs j (l1 ++ new :: l2)), (all_nodes_upd cs j (l1 ++ l2)) by lia.
    rewrite <- !app_assoc. cbn [app]. symmetry. apply Permutation_middle. }
  assert (Hlen : (length l1 < fuel)%nat).
  { rewrite (all_nodes_upd_self cs j), Hsplit, !length_app in Hfuel by lia. lia. }
  assert (Hsegm : chain_seg (nodes m) p l1 (Ptr old)).
  { eapply chain_seg_frame; [| exact Hseg]. intros y Hy.
    destruct (Hl1 y Hy). apply Hfr; assumption. }
  assert (Hpm : read_slot m (Bucket (buckets t) j) = Ok p) by exact Hp.
  assert (Htm : tabs m !! h = Some t) by exact Ht.
  assert (Hstm : storage_ok m h t) by exact Hst.
  destruct (walk_to_spec l1 (Bucket (buckets t) j) p m fuel (Ptr old) Hpm Hsegm) as (Hwalk & _);
    [| exact Hlen |].
  { intros b Hb E. injection E as ->. apply (Hdisj old Hb), list_elem_of_here. }
  destruct (relink_spec m h t j p l1 (Ptr old) (Ptr new) Htm Hstm Hj Hpm Hsegm Hnd1)
    as (m1 & t1 & p' & Hw & Ht1 & Hm1 & Hb1 & Hn1 & Hst1 & Hout & Hrd1 & Hseg1 & Hrdo).
  pose proof Hout as (Htabs1 & Harrs1 & Hnodes1 & Hhash1).
  assert (Hxm : nodes m !! new = Some x) by apply lookup_insert_eq.
  assert (Hnew1 : nodes m1 !! new = Some x).
  { rewrite Hnodes1; [exact Hxm |]. intros Hin. destruct (Hl1 new Hin). congruence. }
  assert (Hstable : forall y z, y <> old -> nodes m0 !! y = Some z ->
            exists z', nodes m1 !! y = Some z' /\ hash z' = hash z).
  { intros y z Hy Hz. apply Hhash1. rewrite Hfr; [exact Hz | exact Hy | congruence]. }
  exists m1, t1, x, l1, l2. rewrite Hmove. fold j. split_and!.
  - unfold hmap_node_moved.
    rewrite (bind_ok _ _ m t m) by (apply get_ok, read_tab_ok, Htm).
    rewrite (bind_ok _ _ m x m) by (apply get_ok; eapply read_node_ok, Hxm).
    fold j. rewrite (bind_ok _ _ m _ m) by exact Hwalk.
    apply put_ok, Hw.
  - exact Hx.
  - lia.
  - lia.
  - exact Hsplit.
  - unfold wf_tab. rewrite Hm1, Hn1.
    split_and!; try assumption.
    + intros i Hi. unfold bucket_ok. rewrite Hm1, Hb1.
      unfold upd. destruct (Z.eqb_spec i j) as [-> | Hne].
      * exists p'. split_and!; [exact Hrd1 | |].
        -- apply chain_split. exists (Ptr new). split; [exact Hseg1 |].
           split; [reflexivity |]. exists x. split; [exact Hnew1 |].
           eapply chain_frame; [| exact Hl2]. intros y Hy.
           destruct (Hl2' y Hy) as (? & ? & ?).
           rewrite Hnodes1 by assumption. apply Hfr; assumption.
        -- rewrite Forall_forall in Hall |- *. intros y Hy.
           apply elem_of_app in Hy. destruct Hy as [Hy | Hy].
           ++ destruct (Hall y) as (z & Hz & Hzj); [apply elem_of_app; left; exact Hy |].
              destruct (Hl1 y Hy) as (Hyo & _).
              destruct (Hstable y z Hyo Hz) as (z' & Hz' & E).
              exists z'. split; [exact Hz' | congruence].
           ++ apply elem_of_cons in Hy. destruct Hy as [-> | Hy].
              ** exists x. split; [exact Hnew1 | reflexivity].
              ** destruct (Hall y) as (z & Hz & Hzj).
                 { apply elem_of_app; right. apply list_elem_of_further, Hy. }
                 destruct (Hl2' y Hy) as (Hyo & _).
                 destruct (Hstable y z Hyo Hz) as (z' & Hz' & E).
                 exists z'. split; [exact Hz' | congruence].
      * destruct (Hbk i Hi) as (pi & Hpi & Hci & Halli).
        assert (Hyi : forall y, y ∈ cs i -> y <> old /\ y <> new /\ y ∉ l1).
        { intros y Hy.
          destruct (wf_tab_bucket_unique ws m0 h t cs y i Hwf Hi Hy) as (z & Hz & Hzi).
          assert (Hnj : y ∉ cs j).
          { intros Hyj.
            destruct (wf_tab_bucket_unique ws m0 h t cs y j Hwf Hj Hyj) as (z' & Hz' & Hzj).
            congruence. }
          rewrite Hsplit in Hnj. split_and!.
          - intros ->. apply Hnj, elem_of_app. right. apply list_elem_of_here.
          - apply (Hin_all y i Hi Hy).
          - intros Hy1. apply Hnj, elem_of_app. left. exact Hy1. }
        exists pi. rewrite Hrdo by exact Hne. split_and!; [exact Hpi | |].
        -- eapply chain_frame; [| exact Hci]. intros y Hy.
           destruct (Hyi y Hy) as (? & ? & ?).
           rewrite Hnodes1 by assumption. apply Hfr; assumption.
        -- rewrite Forall_forall in Halli |- *. intros y Hy.
           destruct (Halli y Hy) as (z & Hz & Hzi).
           destruct (Hyi y Hy) as (Hyo & _).
           destruct (Hstable y z Hyo Hz) as (z' & Hz' & E).
           exists z'. split; [exact Hz' | congruence].
    + rewrite Hperm'. rewrite Hperm in Hnd. apply NoDup_cons in Hnd.
      destruct Hnd as (_ & Hnd). apply NoDup_cons. split; [| exact Hnd].
      intros Hin. apply Hnewout. rewrite Hperm. apply list_elem_of_further, Hin.
    + rewrite Hn, Hperm, Hperm'. reflexivity.
  - exact Hm1.
  - exact Hb1.
  - exact Hn1.
  - exact Hnew1.
  - intros h' Hh'. rewrite Htabs1 by exact Hh'. reflexivity.
Qed.

(** ** Initialisation and clearing *)

Lemma SIZE_MAX_pos ws : 0 < SIZE_MAX ws.
Proof. pose proof (SIZE_MAX_ge ws). unfold UINT32_MAX in *. lia. Qed.

Lemma hmap_init_spec ws m h t_any :
  tabs m !! h = Some t_any ->
  exists m' t',
    hmap_init h m = Ok (tt, m') /\ wf_tab ws m' h t' (fun _ => []) /\
    mask t' = 0 /\ n t' = 0 /\ nodes m' = nodes m /\
    (forall h', h' <> h -> tabs m' !! h' = tabs m !! h').
Proof.
  intros Ht.
  set (init := {| buckets := InlineOf h; one := NULL; mask := 0; n := 0 |}).
  exists (with_tabs m (<[h := init]> (tabs m))), init.
  pose proof (SIZE_MAX_pos ws).
  pose proof (MAX_NODES_le ws) as Hmn.
  split_and!; try reflexivity.
  - unfold hmap_init. apply put_ok. eapply write_tab_ok, Ht.
  - unfold wf_tab. rewrite all_nodes_empty. cbn [mask n init length tabs with_tabs].
    rewrite lookup_insert_eq.
    split_and!; try reflexivity; try lia.
    + exists 0. split; [lia | reflexivity].
    + left. split; reflexivity.
    + intros i Hi. assert (i = 0) by lia. subst i. exists NULL.
      split_and!; [| reflexivity | constructor].
      cbn. unfold read_tab. cbn. rewrite lookup_insert_eq. reflexivity.
    + constructor.
  - intros h' Hh'. apply lookup_insert_ne. congruence.
Qed.

Lemma all_nodes_nil_inv cs k i :
  all_nodes cs k = [] -> 0 <= i < k -> cs i = [].
Proof.
  intros H Hi. destruct (cs i) as [| a l] eqn:E; [reflexivity |].
  assert (Ha : a ∈ all_nodes cs k).
  { apply elem_of_all_nodes. exists i. split; [exact Hi |]. rewrite E. apply list_elem_of_here. }
  rewrite H in Ha. apply not_elem_of_nil in Ha. contradiction.
Qed.

Lemma hmap_clear_spec ws m h t cs :
  wf_tab ws m h t cs ->
  exists m' t',
    hmap_clear ws h m = Ok (tt, m') /\ wf_tab ws m' h t' (fun _ => []) /\
    mask t' = mask t /\ n t' = 0 /\ nodes m' = nodes m /\
    (forall h', h' <> h -> tabs m' !! h' = tabs m !! h').
Proof.
  intros Hwf. pose proof Hwf as (Ht & Hmask & Hlt & Hst & Hbk & Hnd & Hn & Hmax).
  pose proof (MAX_NODES_le ws) as Hmn.
  pose proof (is_mask_nonneg _ Hmask) as Hm0.
  unfold hmap_clear. rewrite (bind_ok _ _ m t m) by (apply get_ok, read_tab_ok, Ht).
  destruct (Z.gtb_spec (n t) 0) as [Hpos | Hzero].
  - set (t1 := set_n t 0).
    set (m1 := with_tabs m (<[h := t1]> (tabs m))).
    rewrite (bind_ok _ _ m tt m1) by (apply (set_field_ok m h t (fun t => set_n t 0) Ht)).
    assert (Ht1 : tabs m1 !! h = Some t1) by apply lookup_insert_eq.
    rewrite (bind_ok _ _ m1 t1 m1) by (apply get_ok, read_tab_ok, Ht1).
    change (mask t1) with (mask t). change (buckets t1) with (buckets t).
    rewrite wrap_small by lia.
    destruct Hst as [(H0 & Hb) | (Hn0 & a & arr & Hb & Harr & Hlen)].
    + rewrite Hb, H0. cbn [memset_null Z.add Z.eqb Pos.eqb].
      exists (with_tabs m1 (<[h := set_one t1 NULL]> (tabs m1))), (set_one t1 NULL).
      split_and!; try reflexivity.
      * change (0 + 1 =? 0) with false. change (0 + 1 =? 1) with true. cbv iota.
        apply put_ok. cbn. unfold read_tab. rewrite Ht1. cbn.
        rewrite (write_tab_ok _ _ t1) by exact Ht1. reflexivity.
      * unfold wf_tab. rewrite all_nodes_empty. cbn [mask n t1 set_n set_one length tabs with_tabs].
        rewrite lookup_insert_eq.
        split_and!; try assumption; try reflexivity; try lia.
        -- left. split; [exact H0 | exact Hb].
        -- intros i Hi. assert (i = 0) by lia. subst i. exists NULL.
           split_and!; [| reflexivity | constructor].
           cbn. rewrite Hb. cbn. unfold read_tab. cbn. rewrite lookup_insert_eq. reflexivity.
        -- constructor.
      * exact H0.
      * intros h' Hh'. cbn. rewrite !lookup_insert_ne by congruence. reflexivity.
    + rewrite Hb. cbn [memset_null].
      assert (Harr1 : arrs m1 !! a = Some arr) by exact Harr.
      rewrite Harr1.
      replace (mask t + 1 <=? blen arr) with true by (symmetry; apply Z.leb_le; lia).
      set (arr' := {| blen := blen arr;
                      bget := fun j => if (0 <=? j) && (j <? mask t + 1)
                                       then Some NULL else bget arr j |}).
      exists (with_arrs m1 (<[a := arr']> (arrs m1))), t1. split_and!; try reflexivity.
      * unfold wf_tab. rewrite all_nodes_empty. cbn [mask n t1 set_n length tabs with_tabs with_arrs].
        split_and!; try assumption; try reflexivity; try lia.
        -- right. split; [exact Hn0 |]. exists a, arr'. cbn. rewrite lookup_insert_eq.
           split_and!; [exact Hb | reflexivity | exact Hlen].
        -- intros i Hi. exists NULL. split_and!; [| reflexivity | constructor].
           cbn. rewrite Hb. cbn. rewrite lookup_insert_eq. unfold in_bounds. cbn.
           rewrite Hlen.
           replace (0 <=? i) with true by (symmetry; apply Z.leb_le; lia).
           replace (i <? mask t + 1) with true by (symmetry; apply Z.ltb_lt; lia).
           reflexivity.
        -- constructor.
      * intros h' Hh'. cbn. rewrite !lookup_insert_ne by congruence. reflexivity.
  - exists m, t.
    assert (Hempty : all_nodes cs (mask t + 1) = []).
    { apply length_zero_iff_nil. lia. }
    split_and!; try reflexivity.
    + unfold wf_tab. rewrite all_nodes_empty. rewrite Hempty in Hnd, Hn.
      split_and!; try assumption.
      intros i Hi. destruct (Hbk i Hi) as (p & Hp & Hc & Hall).
      rewrite (all_nodes_nil_inv cs _ i Hempty) in Hc, Hall by lia.
      exists p. split_and!; assumption.
    + rewrite Hn, Hempty. reflexivity.
Qed.

(** ** The three policies *)

(** The bucket array planned for a number of nodes that the address space
    has room for has a byte size within [size_t]. *)
Lemma calc_mask_fits ws c :
  0 <= c <= MAX_NODES ws -> sizeof_ptr ws * (calc_mask ws c + 1) <= SIZE_MAX ws.
Proof.
  intros Hc. pose proof (MAX_NODES_le ws) as Hmn.
  rewrite calc_mask_round by lia.
  set (b := match ws with W32 => 28 | W64 => 59 end).
  assert (Hb : 0 <= b) by (destruct ws; cbn; lia).
  assert (Hmax : MAX_NODES ws = 2 * 2 ^ b - 1) by (destruct ws; reflexivity).
  assert (Hsz : sizeof_ptr ws * 2 ^ b <= SIZE_MAX ws) by (destruct ws; vm_compute; discriminate).
  assert (H3 : 3 < 2 ^ b) by (destruct ws; reflexivity).
  assert (Hx : 0 <= c / 2 < 2 ^ b).
  { split; [apply Z.div_pos; lia |]. apply Z.div_lt_upper_bound; lia. }
  pose proof (round_mask_lt_pow2 (c / 2) b Hx Hb) as Hr.
  pose proof (round_mask_nonneg (c / 2)) as H0.
  pose proof (sizeof_ptr_pos ws) as Hp.
  clearbody b.
  destruct (round_mask (c / 2) =? 1); nia.
Qed.

Lemma maybe_resize_spec ws fuel h m t cs nm (go : bool) :
  wf_tab ws m h t cs -> is_mask nm -> nm < SIZE_MAX ws ->
  (go = true -> sizeof_ptr ws * (nm + 1) <= SIZE_MAX ws) ->
  (Z.to_nat (SIZE_MAX ws) < fuel)%nat ->
  exists m' t' cs',
    (if go then resize ws fuel h nm else ret tt) m = Ok (tt, m') /\
    wf_tab ws m' h t' cs' /\
    mask t' = (if go then nm else mask t) /\ n t' = n t /\
    all_nodes cs' (mask t' + 1) ≡ₚ all_nodes cs (mask t + 1) /\
    hash_stable (nodes m) (nodes m') /\
    (forall x, x ∉ all_nodes cs (mask t + 1) -> nodes m' !! x = nodes m !! x) /\
    (forall h', h' <> h -> tabs m' !! h' = tabs m !! h').
Proof.
  intros Hwf Hmask Hlt Hfit Hfuel. destruct go.
  - pose proof Hwf as (_ & Hmask_t & Hlt_t & _ & _ & _ & Hn & Hmax).
    pose proof (MAX_NODES_le ws) as Hmn.
    pose proof (is_mask_nonneg _ Hmask). pose proof (is_mask_nonneg _ Hmask_t).
    destruct (resize_spec ws fuel h m t cs nm Hwf Hmask Hlt (Hfit eq_refl))
      as (m' & t' & cs' & Hrun & Hwf' & Hm' & Hn' & Hperm & Hhash & Hnodes & Htabs & _);
      [lia | lia | lia |].
    exists m', t', cs'. rewrite Hm'. split_and!; try assumption; reflexivity.
  - exists m, t, cs. split_and!; auto using hash_stable_refl.
Qed.

Lemma n_range ws m h t cs : wf_tab ws m h t cs -> 0 <= n t <= SIZE_MAX ws.
Proof. intros (_ & _ & _ & _ & _ & _ & Hn & Hmax). pose proof (MAX_NODES_le ws). lia. Qed.

Lemma n_fits ws m h t cs :
  wf_tab ws m h t cs -> sizeof_ptr ws * (calc_mask ws (n t) + 1) <= SIZE_MAX ws.
Proof.
  intros (_ & _ & _ & _ & _ & _ & Hn & Hmax). apply calc_mask_fits. lia.
Qed.

Lemma hmap_expand_unfold ws fuel h m t :
  tabs m !! h = Some t ->
  hmap_expand ws fuel h m
  = (if calc_mask ws (n t) >? mask t then resize ws fuel h (calc_mask ws (n t)) else ret tt) m.
Proof.
  intros Ht. unfold hmap_expand.
  rewrite (bind_ok _ _ m t m) by (apply get_ok, read_tab_ok, Ht). reflexivity.
Qed.

Lemma hmap_shrink_unfold ws fuel h m t :
  tabs m !! h = Some t ->
  hmap_shrink ws fuel h m
  = (if calc_mask ws (n t) <? mask t then resize ws fuel h (calc_mask ws (n t)) else ret tt) m.
Proof.
  intros Ht. unfold hmap_shrink.
  rewrite (bind_ok _ _ m t m) by (apply get_ok, read_tab_ok, Ht). reflexivity.
Qed.

Lemma hmap_reserve_unfold ws fuel h k m t :
  tabs m !! h = Some t ->
  hmap_reserve ws fuel h k m
  = (if calc_mask ws k >? mask t then resize ws fuel h (calc_mask ws k) else ret tt) m.
Proof.
  intros Ht. unfold hmap_reserve.
  rewrite (bind_ok _ _ m t m) by (apply get_ok, read_tab_ok, Ht). reflexivity.
Qed.

(** ** Counting the reachable nodes *)

Lemma chain_count_spec m l : forall p fuel,
  chain (nodes m) p l -> (length l < fuel)%nat ->
  chain_count fuel m p = Ok (Z.of_nat (length l)).
Proof.
  induction l as [| a l IH]; intros p fuel Hc Hfuel;
    (destruct fuel as [| fuel]; [simpl in Hfuel; lia |]).
  - simpl in Hc. subst p. reflexivity.
  - simpl in Hc. destruct Hc as (-> & x & Hx & Hc).
    cbn [chain_count]. rewrite (read_node_ok _ _ _ Hx). cbn [rbind].
    rewrite (IH (next x) fuel Hc) by (simpl in Hfuel; lia). cbn [rbind].
    f_equal. simpl length. lia.
Qed.

Lemma count_buckets_spec m t cs cfuel (d : nat) : forall i fuel,
  0 <= i -> i + Z.of_nat d = mask t + 1 -> (d < fuel)%nat ->
  (forall j, 0 <= j <= mask t -> bucket_ok m t cs j) ->
  (forall j, 0 <= j <= mask t -> (length (cs j) < cfuel)%nat) ->
  count_buckets fuel cfuel m t i
  = Ok (Z.of_nat (length (seqZ i (Z.of_nat d) ≫= cs))).
Proof.
  induction d as [| d IH]; intros i fuel Hi Hd Hfuel Hbk Hcf;
    (destruct fuel as [| fuel]; [lia |]); cbn [count_buckets].
  - replace (i <=? mask t) with false by (symmetry; apply Z.leb_gt; lia).
    rewrite seqZ_nil by lia. reflexivity.
  - replace (i <=? mask t) with true by (symmetry; apply Z.leb_le; lia).
    destruct (Hbk i) as (p & Hp & Hc & _); [lia |].
    rewrite Hp. cbn [rbind].
    rewrite (chain_count_spec m (cs i) p cfuel Hc) by (apply Hcf; lia). cbn [rbind].
    rewrite (IH (i + 1) fuel) by (try assumption; lia). cbn [rbind].
    rewrite (seqZ_cons i) by lia. rewrite bind_cons, length_app.
    replace (Z.pred (Z.of_nat (S d))) with (Z.of_nat d) by lia.
    unfold Z.succ. f_equal. lia.
Qed.

Lemma count_reachable_spec ws m h t cs fuel :
  wf_tab ws m h t cs -> (Z.to_nat (mask t + 1) < fuel)%nat ->
  (length (all_nodes cs (mask t + 1)) < fuel)%nat ->
  count_reachable fuel m h = Ok (n t).
Proof.
  intros Hwf Hf1 Hf2. pose proof Hwf as (Ht & Hmask & _ & _ & Hbk & _ & Hn & _).
  pose proof (is_mask_nonneg _ Hmask) as Hm0.
  unfold count_reachable. rewrite (read_tab_ok _ _ _ Ht). cbn [rbind].
  rewrite (count_buckets_spec m t cs fuel (Z.to_nat (mask t + 1))); try lia; try assumption.
  - rewrite Z2Nat.id by lia. f_equal. symmetry. exact Hn.
  - intros j Hj. eapply Nat.le_lt_trans; [| exact Hf2].
    rewrite (all_nodes_upd_self cs j) by lia. rewrite length_app. lia.
Qed.

(** ** Sequences of operations *)

Lemma dom_stable (nd nd' : gmap loc hmap_node) (L : list loc) :
  hash_stable nd nd' ->
  (forall y, y ∉ L -> nd' !! y = nd !! y) ->
  (forall y, y ∈ L -> is_Some (nd !! y)) ->
  dom nd' = dom nd.
Proof.
  intros Hs Hout Hin. apply set_eq. intros y. rewrite !elem_of_dom. split.
  - intros Hy. destruct (decide (y ∈ L)) as [HL | HL]; [apply Hin, HL |].
    rewrite <- Hout by exact HL. exact Hy.
  - intros (x & Hx). destruct (Hs y x Hx) as (x' & Hx' & _). eauto.
Qed.

Lemma wf_tab_allocated ws m h t cs a :
  wf_tab ws m h t cs -> a ∈ all_nodes cs (mask t + 1) -> is_Some (nodes m !! a).
Proof.
  intros Hwf Ha. destruct (wf_tab_bucket_of ws m h t cs a Hwf Ha) as (x & Hx & _). eauto.
Qed.

Lemma nodup_length_le_size (l : list loc) (X : gset loc) :
  NoDup l -> (forall x, x ∈ l -> x ∈ X) -> (length l <= size X)%nat.
Proof.
  intros Hnd Hin. unfold size, set_size. cbn.
  apply submseteq_length, NoDup_submseteq; [exact Hnd |].
  intros x Hx. apply elem_of_elements, Hin, Hx.
Qed.

Lemma run_ops_inv ws fuel h nd0 : forall os m t cs X,
  (Z.to_nat (SIZE_MAX ws) < fuel)%nat ->
  Z.of_nat (size nd0) <= MAX_NODES ws ->
  legal ws nd0 X os ->
  dom (nodes m) = nd0 ->
  wf_tab ws m h t cs ->
  (forall a, a ∈ all_nodes cs (mask t + 1) <-> a ∈ X) ->
  exists m' t' cs',
    run_ops ws fuel h os m = Ok (tt, m') /\ wf_tab ws m' h t' cs' /\
    dom (nodes m') = nd0.
Proof.
  induction os as [| o os IH]; intros m t cs X Hfuel Hsize Hlegal Hdom Hwf HX.
  - exists m, t, cs. split_and!; [reflexivity | exact Hwf | exact Hdom].
  - pose proof Hwf as (Ht & Hmask & Hlt & _ & _ & Hnd & Hn & Hmax).
    pose proof (MAX_NODES_le ws) as Hmn.
    assert (Hstep : exists m1 t1 cs1 X1,
      run_op ws fuel h o m = Ok (tt, m1) /\ wf_tab ws m1 h t1 cs1 /\
      dom (nodes m1) = nd0 /\ legal ws nd0 X1 os /\
      (forall a, a ∈ all_nodes cs1 (mask t1 + 1) <-> a ∈ X1)).
    { destruct o as [a hv | a | | | k |]; cbn [legal run_op] in *.
      - destruct Hlegal as (Hand & HaX & Hlegal).
        assert (Hfresh : a ∉ all_nodes cs (mask t + 1)) by (rewrite HX; exact HaX).
        rewrite <- Hdom in Hand. apply elem_of_dom in Hand. destruct Hand as (x0 & Hx0).
        assert (Hroom : n t < MAX_NODES ws).
        { assert (Hl : (length (a :: all_nodes cs (mask t + 1)) <= size nd0)%nat).
          { apply nodup_length_le_size.
            - apply NoDup_cons. split; assumption.
            - intros y Hy. rewrite <- Hdom. apply elem_of_dom.
              apply elem_of_cons in Hy. destruct Hy as [-> | Hy]; [eauto |].
              eapply wf_tab_allocated; eassumption. }
          simpl length in Hl. lia. }
        destruct (hmap_insert_fast_spec ws m h t cs a x0 hv Hwf Hx0 Hfresh Hroom)
          as (m1 & t1 & p & Hrun & Hwf1 & Hm1 & _ & _ & Hnodes1 & _).
        exists m1, t1, (push cs (Z.land hv (mask t)) a), ({[a]} ∪ X).
        split_and!; try assumption.
        + rewrite Hnodes1, dom_insert_lookup_L by eauto. exact Hdom.
        + intros y. rewrite Hm1.
          pose proof (land_mask_range hv _ Hmask).
          rewrite all_nodes_push by lia.
          rewrite elem_of_cons, elem_of_union, elem_of_singleton, HX. reflexivity.
      - destruct Hlegal as (HaX & Hlegal).
        assert (Ha : a ∈ all_nodes cs (mask t + 1)) by (rewrite HX; exact HaX).
        destruct (hmap_remove_spec ws fuel m h t cs a Hwf Ha)
          as (m1 & t1 & j & l1 & l2 & Hrun & Hj & Hsplit & Hwf1 & Hm1 & Hn1 & Hhash & Hperm & Hout);
          [lia |].
        exists m1, t1, (upd cs j (l1 ++ l2)), (X ∖ {[a]}).
        split_and!; try assumption.
        + rewrite <- Hdom. eapply dom_stable; [exact Hhash | exact Hout |].
          intros y Hy. eapply wf_tab_allocated; eassumption.
        + intros y. rewrite Hm1, elem_of_difference, elem_of_singleton, <- HX.
          rewrite Hperm in Hnd. apply NoDup_cons in Hnd. destruct Hnd as (Hnotin & _).
          rewrite Hperm, elem_of_cons. split.
          * intros Hy. split; [right; exact Hy | intros ->; exact (Hnotin Hy)].
          * intros ([-> | Hy] & Hne); [congruence | exact Hy].
      - rewrite (hmap_expand_unfold ws fuel h m t Ht).
        pose proof (n_range ws m h t cs Hwf) as Hnr.
        destruct (maybe_resize_spec ws fuel h m t cs (calc_mask ws (n t))
                    (calc_mask ws (n t) >? mask t) Hwf)
          as (m1 & t1 & cs1 & Hrun & Hwf1 & _ & _ & Hperm & Hhash & Hout & _);
          [apply calc_mask_is_mask, Hnr | apply calc_mask_lt_max, Hnr
          | intros _; apply (n_fits ws m h t cs Hwf) | exact Hfuel |].
        exists m1, t1, cs1, X. split_and!; try assumption.
        + rewrite <- Hdom. eapply dom_stable; [exact Hhash | exact Hout |].
          intros y Hy. eapply wf_tab_allocated; eassumption.
        + intros y. rewrite Hperm. apply HX.
      - rewrite (hmap_shrink_unfold ws fuel h m t Ht).
        pose proof (n_range ws m h t cs Hwf) as Hnr.
        destruct (maybe_resize_spec ws fuel h m t cs (calc_mask ws (n t))
                    (calc_mask ws (n t) <? mask t) Hwf)
          as (m1 & t1 & cs1 & Hrun & Hwf1 & _ & _ & Hperm & Hhash & Hout & _);
          [apply calc_mask_is_mask, Hnr | apply calc_mask_lt_max, Hnr
          | intros _; apply (n_fits ws m h t cs Hwf) | exact Hfuel |].
        exists m1, t1, cs1, X. split_and!; try assumption.
        + rewrite <- Hdom. eapply dom_stable; [exact Hhash | exact Hout |].
          intros y Hy. eapply wf_tab_allocated; eassumption.
        + intros y. rewrite Hperm. apply HX.
      - destruct Hlegal as (Hk & Hkfit & Hlegal).
        rewrite (hmap_reserve_unfold ws fuel h k m t Ht).
        destruct (maybe_resize_spec ws fuel h m t cs (calc_mask ws k)
                    (calc_mask ws k >? mask t) Hwf)
          as (m1 & t1 & cs1 & Hrun & Hwf1 & _ & _ & Hperm & Hhash & Hout & _);
          [apply calc_mask_is_mask, Hk | apply calc_mask_lt_max, Hk
          | intros _; exact Hkfit | exact Hfuel |].
        exists m1, t1, cs1, X. split_and!; try assumption.
        + rewrite <- Hdom. eapply dom_stable; [exact Hhash | exact Hout |].
          intros y Hy. eapply wf_tab_allocated; eassumption.
        + intros y. rewrite Hperm. apply HX.
      - destruct (hmap_clear_spec ws m h t cs Hwf)
          as (m1 & t1 & Hrun & Hwf1 & _ & _ & Hnodes1 & _).
        exists m1, t1, (fun _ => []), ∅. split_and!; try assumption.
        + rewrite Hnodes1. exact Hdom.
        + intros y. rewrite all_nodes_empty. split; intros Hy.
          * apply not_elem_of_nil in Hy. contradiction.
          * apply not_elem_of_empty in Hy. contradiction. }
    destruct Hstep as (m1 & t1 & cs1 & X1 & Hrun1 & Hwf1 & Hdom1 & Hlegal1 & HX1).
    destruct (IH m1 t1 cs1 X1 Hfuel Hsize Hlegal1 Hdom1 Hwf1 HX1)
      as (m' & t' & cs' & Hrun & Hwf' & Hdom').
    exists m', t', cs'. split_and!; [| exact Hwf' | exact Hdom'].
    cbn [run_ops]. rewrite (bind_ok _ _ m tt m1) by exact Hrun1. exact Hrun.
Qed.

(** ** Position cursor *)

Lemma wrap32_small x : 0 <= x <= UINT32_MAX -> wrap32 x = x.
Proof. intros H. unfold wrap32, UINT32_MAX in *. apply Z.mod_small. lia. Qed.

Lemma position_chain_found ws m t j o l : forall p fuel k,
  chain (nodes m) p l ->
  Forall (node_ok (nodes m) (mask t) j) l ->
  0 <= k <= o -> o < k + Z.of_nat (length l) ->
  k + Z.of_nat (length l) <= SIZE_MAX ws ->
  k + Z.of_nat (length l) <= 2 ^ 32 ->
  0 <= j -> j + 1 <= UINT32_MAX ->
  (length l < fuel)%nat ->
  exists a, l !! Z.to_nat (o - k) = Some a /\
    position_chain ws fuel m t p k o
    = Ok (Some (Ptr a, if decide (o + 1 < k + Z.of_nat (length l))
                       then (j, o + 1) else (j + 1, 0))).
Proof.
  induction l as [| a l IH]; intros p fuel k Hc Hall Hk Ho Hmax H32 Hj0 Hj Hfuel;
    (destruct fuel as [| fuel]; [simpl in Hfuel; lia |]); cbn [position_chain].
  - simpl in Ho. lia.
  - simpl in Hc. destruct Hc as (-> & x & Hx & Hc). simpl length in *.
    apply Forall_cons in Hall. destruct Hall as ((x' & Hx' & Hl) & Hall).
    rewrite Hx in Hx'. injection Hx' as <-.
    pose proof (SIZE_MAX_ge ws) as Hsm.
    rewrite (read_node_ok _ _ _ Hx). cbn [rbind].
    destruct (Z.eqb_spec k o) as [-> | Hne].
    + exists a. replace (o - o) with 0 by lia. split; [reflexivity |].
      rewrite Hl.
      destruct l as [| b l].
      * simpl in Hc. rewrite Hc.
        destruct (decide (NULL <> NULL)) as [? | _]; [congruence |].
        case_decide; [simpl length in *; lia |].
        rewrite wrap_small by (unfold UINT32_MAX in *; lia).
        rewrite wrap32_small by lia. reflexivity.
      * destruct Hc as (-> & _).
        destruct (decide (Ptr b <> NULL)) as [_ | Habs]; [| exfalso; apply Habs; discriminate].
        simpl length in *.
        case_decide; [| lia].
        rewrite (wrap_small ws (o + 1)) by lia.
        rewrite !wrap32_small by (unfold UINT32_MAX in *; lia). reflexivity.
    + rewrite wrap_small by lia.
      destruct (IH (next x) fuel (k + 1)) as (a' & Ha' & Hrun);
        [exact Hc | exact Hall | lia | lia | lia | lia | exact Hj0 | exact Hj | lia |].
      exists a'. split.
      * replace (Z.to_nat (o - k)) with (S (Z.to_nat (o - (k + 1)))) by lia. exact Ha'.
      * rewrite Hrun. f_equal. f_equal. f_equal.
        destruct (decide (o + 1 < k + 1 + Z.of_nat (length l)));
          destruct (decide (o + 1 < k + Z.of_nat (S (length l)))); try reflexivity; lia.
Qed.

Lemma rest_from_cons cs msk b o :
  0 <= b <= msk ->
  rest_from cs msk b o = drop (Z.to_nat o) (cs b ++ rest_from cs msk (b + 1) 0).
Proof.
  intros Hb. unfold rest_from. rewrite (seqZ_cons b) by lia. rewrite bind_cons.
  change (Z.to_nat 0) with 0%nat. cbn [drop].
  replace (Z.succ b) with (b + 1) by lia.
  replace (Z.pred (msk + 1 - b)) with (msk + 1 - (b + 1)) by lia. reflexivity.
Qed.

Lemma position_buckets_spec ws m h t cs cfuel :
  wf_tab ws m h t cs ->
  mask t < UINT32_MAX ->
  (forall j, 0 <= j <= mask t -> Z.of_nat (length (cs j)) <= 2 ^ 32) ->
  (forall j, 0 <= j <= mask t -> (length (cs j) < cfuel)%nat) ->
  forall (d : nat) b o fuel,
    cursor_ok cs (mask t) b o -> b + Z.of_nat d = mask t + 1 -> (d < fuel)%nat ->
    match rest_from cs (mask t) b o with
    | [] => position_buckets ws fuel cfuel m t b o = Ok (NULL, (0, 0))
    | a :: r =>
        exists b' o', position_buckets ws fuel cfuel m t b o = Ok (Ptr a, (b', o')) /\
                      cursor_ok cs (mask t) b' o' /\ rest_from cs (mask t) b' o' = r
    end.
Proof.
  intros Hwf H32 Hlen Hcf.
  pose proof Hwf as (Ht & Hmask & Hlt & _ & Hbk & _ & Hn & Hmax).
  pose proof (MAX_NODES_le ws) as Hmn.
  induction d as [| d IH]; intros b o fuel (Hb & Ho & Hval) Hd Hfuel;
    (destruct fuel as [| fuel]; [lia |]); cbn [position_buckets].
  - replace (b <=? mask t) with false by (symmetry; apply Z.leb_gt; lia).
    unfold rest_from. rewrite seqZ_nil by lia. cbn. rewrite drop_nil. reflexivity.
  - replace (b <=? mask t) with true by (symmetry; apply Z.leb_le; lia).
    assert (Hbr : 0 <= b <= mask t) by lia.
    destruct (Hbk b Hbr) as (p & Hp & Hc & Hall).
    rewrite Hp. cbn [rbind].
    rewrite rest_from_cons by exact Hbr.
    assert (Hchain_max : Z.of_nat (length (cs b)) <= SIZE_MAX ws).
    { rewrite (all_nodes_upd_self cs b) in Hn by lia. rewrite length_app in Hn. lia. }
    destruct (Z_lt_le_dec o (Z.of_nat (length (cs b)))) as [Hin | Hout].
    + destruct (position_chain_found ws m t b o (cs b) p cfuel 0 Hc Hall)
        as (a & Ha & Hrun); try lia.
      { specialize (Hlen b Hbr). lia. }
      { apply Hcf, Hbr. }
      rewrite Hrun. cbn [rbind]. rewrite Z.sub_0_r in Ha.
      rewrite drop_app_le by lia. rewrite (drop_S _ _ _ Ha). cbn [app].
      destruct (decide (o + 1 < 0 + Z.of_nat (length (cs b)))) as [Hmore | Hlast].
      * exists b, (o + 1). split_and!; [reflexivity | | ].
        -- unfold cursor_ok. lia.
        -- rewrite rest_from_cons by exact Hbr.
           rewrite drop_app_le by lia.
           replace (Z.to_nat (o + 1)) with (S (Z.to_nat o)) by lia. reflexivity.
      * exists (b + 1), 0. split_and!; [reflexivity | | ].
        -- unfold cursor_ok. lia.
        -- rewrite drop_ge by lia. reflexivity.
    + assert (o = 0) by lia. subst o.
      assert (Hnil : cs b = []) by (apply length_zero_iff_nil; lia).
      rewrite Hnil in Hc |- *. simpl in Hc. subst p.
      assert (Hcf0 : (0 < cfuel)%nat) by (specialize (Hcf b Hbr); lia).
      destruct cfuel as [| cfuel]; [lia |]. cbn [position_chain rbind app Z.to_nat drop].
      pose proof (SIZE_MAX_ge ws).
      rewrite wrap_small by lia.
      apply (IH (b + 1) 0 fuel); [unfold cursor_ok; lia | lia | lia].
Qed.

Lemma hmap_at_position_spec ws m h t cs fuel b o :
  wf_tab ws m h t cs ->
  mask t < UINT32_MAX ->
  (forall j, 0 <= j <= mask t -> Z.of_nat (length (cs j)) <= 2 ^ 32) ->
  (Z.to_nat (mask t + 1) < fuel)%nat ->
  (length (all_nodes cs (mask t + 1)) < fuel)%nat ->
  cursor_ok cs (mask t) b o ->
  match rest_from cs (mask t) b o with
  | [] => hmap_at_position ws fuel m h b o = Ok (NULL, (0, 0))
  | a :: r =>
      exists b' o', hmap_at_position ws fuel m h b o = Ok (Ptr a, (b', o')) /\
                    cursor_ok cs (mask t) b' o' /\ rest_from cs (mask t) b' o' = r
  end.
Proof.
  intros Hwf H32 Hlen Hf1 Hf2 Hcur. pose proof Hwf as (Ht & Hmask & _).
  pose proof (is_mask_nonneg _ Hmask) as Hm0.
  unfold hmap_at_position. rewrite (read_tab_ok _ _ _ Ht). cbn [rbind].
  destruct Hcur as (Hb & Hrest).
  apply (position_buckets_spec ws m h t cs fuel Hwf H32 Hlen) with (d := Z.to_nat (mask t + 1 - b)).
  - intros j Hj. eapply Nat.le_lt_trans; [| exact Hf2].
    rewrite (all_nodes_upd_self cs j) by lia. rewrite length_app. lia.
  - split; assumption.
  - lia.
  - lia.
Qed.

Lemma traverse_spec ws m h t cs fuel :
  wf_tab ws m h t cs ->
  mask t < UINT32_MAX ->
  (forall j, 0 <= j <= mask t -> Z.of_nat (length (cs j)) <= 2 ^ 32) ->
  (Z.to_nat (mask t + 1) < fuel)%nat ->
  (length (all_nodes cs (mask t + 1)) < fuel)%nat ->
  forall r b o k,
    cursor_ok cs (mask t) b o -> rest_from cs (mask t) b o = r -> (length r < k)%nat ->
    traverse ws fuel k m h b o = Ok (r, (0, 0)).
Proof.
  intros Hwf H32 Hlen Hf1 Hf2.
  induction r as [| a r IH]; intros b o k Hcur Hrest Hk;
    (destruct k as [| k]; [simpl in Hk; lia |]); cbn [traverse];
    pose proof (hmap_at_position_spec ws m h t cs fuel b o Hwf H32 Hlen Hf1 Hf2 Hcur) as Hstep;
    rewrite Hrest in Hstep.
  - rewrite Hstep. reflexivity.
  - destruct Hstep as (b' & o' & Hrun & Hcur' & Hrest').
    rewrite Hrun. cbn [rbind].
    rewrite (IH b' o' k Hcur' Hrest') by (simpl in Hk; lia). reflexivity.
Qed.

(** ** Assertions *)

Create HintDb na discriminated.

Lemma na_ret {A} (a : A) : no_assert (ret a).
Proof. intros m. discriminate. Qed.

Lemma na_fail {A} e : e <> AssertFailed -> no_assert (@fail A e).
Proof. intros He m. unfold fail. congruence. Qed.

Lemma na_bind {A B} (c : M A) (k : A -> M B) :
  no_assert c -> (forall a, no_assert (k a)) -> no_assert (bind c k).
Proof.
  intros Hc Hk m. unfold bind. specialize (Hc m).
  destruct (c m) as [[a m'] | e]; [apply Hk | congruence].
Qed.

Lemma na_get {A} (f : mem -> result A) : no_assert_r f -> no_assert (get f).
Proof. intros Hf m. unfold get. specialize (Hf m). destruct (f m); congruence. Qed.

Lemma na_put (f : mem -> result mem) : no_assert_r f -> no_assert (put f).
Proof. intros Hf m. unfold put. specialize (Hf m). destruct (f m); congruence. Qed.

Lemma na_read_tab h : no_assert_r (fun m => read_tab m h).
Proof. intros m. unfold read_tab. destruct (tabs m !! h); discriminate. Qed.

Lemma na_write_tab h t : no_assert_r (write_tab h t).
Proof. intros m. unfold write_tab. destruct (tabs m !! h); discriminate. Qed.

Lemma na_read_node p : no_assert_r (fun m => read_node m p).
Proof.
  intros m. unfold read_node. destruct p as [| a]; [discriminate |].
  destruct (nodes m !! a); discriminate.
Qed.

Lemma na_write_node p x : no_assert_r (write_node p x).
Proof.
  intros m. unfold write_node. destruct p as [| a]; [discriminate |].
  destruct (nodes m !! a); discriminate.
Qed.

Lemma na_read_slot s : no_assert_r (fun m => read_slot m s).
Proof.
  intros m. destruct s as [[h | a] i | p]; cbn.
  - destruct (i =? 0); [| discriminate]. unfold read_tab, rbind.
    destruct (tabs m !! h); discriminate.
  - destruct (arrs m !! a) as [arr |]; [| discriminate].
    destruct (in_bounds arr i); [| discriminate]. destruct (bget arr i); discriminate.
  - pose proof (na_read_node p m) as H. unfold rbind.
    destruct (read_node m p); [discriminate | congruence].
Qed.

Lemma na_write_slot s v : no_assert_r (write_slot s v).
Proof.
  intros m. destruct s as [[h | a] i | p]; cbn.
  - destruct (i =? 0); [| discriminate]. unfold read_tab, rbind.
    destruct (tabs m !! h); [apply na_write_tab | discriminate].
  - destruct (arrs m !! a) as [arr |]; [| discriminate].
    destruct (in_bounds arr i); discriminate.
  - pose proof (na_read_node p m) as H. unfold rbind.
    destruct (read_node m p); [apply na_write_node | congruence].
Qed.

#[local] Hint Resolve na_ret na_bind na_get na_put na_read_tab na_write_tab
  na_read_node na_write_node na_read_slot na_write_slot : na.

Lemma na_set_field h f : no_assert (set_field h f).
Proof. unfold set_field. auto with na. Qed.

Lemma na_hmap_init h : no_assert (hmap_init h).
Proof. unfold hmap_init. auto with na. Qed.

Lemma na_free b : no_assert (free b).
Proof.
  intros m. unfold free. destruct b as [h | a]; [discriminate |].
  destruct (arrs m !! a); discriminate.
Qed.

#[local] Hint Resolve na_set_field na_hmap_init na_free : na.

Lemma na_hmap_moved h : no_assert (hmap_moved h).
Proof.
  unfold hmap_moved. apply na_bind; [auto with na |]. intros t.
  destruct (mask t =? 0); auto with na.
Qed.

#[local] Hint Resolve na_hmap_moved : na.

Lemma na_hmap_swap a b : no_assert (hmap_swap a b).
Proof. unfold hmap_swap. auto 10 with na. Qed.

Lemma na_hmap_destroy hp : no_assert (hmap_destroy hp).
Proof.
  unfold hmap_destroy. destruct hp as [h |]; [| auto with na].
  apply na_bind; [auto with na |]. intros t.
  destruct (decide (buckets t <> InlineOf h)); auto with na.
Qed.

Lemma na_hmap_insert_fast ws h node hv : no_assert (hmap_insert_fast ws h node hv).
Proof. unfold hmap_insert_fast. auto 12 with na. Qed.

#[local] Hint Resolve na_hmap_swap na_hmap_destroy na_hmap_insert_fast : na.

Lemma na_for_upto ws bound body :
  no_assert bound -> (forall i, no_assert (body i)) ->
  forall fuel i, no_assert (for_upto ws fuel i bound body).
Proof.
  intros Hb Hbody. induction fuel as [| fuel IH]; intros i; cbn [for_upto].
  - apply na_fail. discriminate.
  - apply na_bind; [exact Hb |]. intros b. destruct (i <=? b); auto with na.
Qed.

Lemma na_rehash_chain ws tmp : forall fuel node, no_assert (rehash_chain ws fuel tmp node).
Proof.
  induction fuel as [| fuel IH]; intros node; cbn [rehash_chain].
  - apply na_fail. discriminate.
  - destruct node; auto 8 with na.
Qed.

#[local] Hint Resolve na_for_upto na_rehash_chain : na.

Lemma resize_no_assert ws fuel h nm m :
  Z.land nm (wrap ws (nm + 1)) = 0 -> nm <> SIZE_MAX ws ->
  resize ws fuel h nm m <> Err AssertFailed.
Proof.
  intros Hland Hne. unfold resize. rewrite Hland.
  replace (nm =? SIZE_MAX ws) with false by (symmetry; apply Z.eqb_neq; exact Hne).
  rewrite (bind_ok _ _ m tt m) by reflexivity.
  rewrite (bind_ok _ _ m tt m) by reflexivity.
  apply na_bind; [intros m'; discriminate |]. intros tmp.
  apply na_bind; [auto with na |]. intros _.
  apply na_bind.
  { destruct (negb (nm =? 0)); [| auto with na].
    apply na_bind; [intros m'; discriminate |]. intros a.
    apply na_bind; [auto with na |]. intros _.
    apply na_bind; [auto with na |]. intros _.
    apply na_for_upto; auto 8 with na. }
  intros _. apply na_bind.
  { apply na_for_upto; auto 8 with na. }
  intros _. apply na_bind; [auto with na |]. intros _.
  apply na_bind; [auto with na |]. intros _. intros m'. discriminate.
Qed.

(** ** The example states are well formed *)

Lemma ex_wf1 : wf_tab W64 ex_mem 1 ex_tab1 ex_cs1.
Proof.
  unfold wf_tab. split_and!.
  - reflexivity.
  - exists 0. split; [lia | reflexivity].
  - reflexivity.
  - left. split; reflexivity.
  - intros i Hi. cbn in Hi. assert (i = 0) by lia. subst i.
    exists (Ptr 3). split_and!.
    + reflexivity.
    + cbn. repeat (split; [reflexivity |]; eexists; split; [reflexivity |]). reflexivity.
    + repeat constructor; (eexists; split; reflexivity).
  - apply (bool_decide_unpack _). vm_compute. exact I.
  - reflexivity.
  - vm_compute. discriminate.
Qed.

Lemma ex_wf2 : wf_tab W64 ex_mem 2 ex_tab2 ex_cs2.
Proof.
  unfold wf_tab. split_and!.
  - reflexivity.
  - exists 2. split; [lia | reflexivity].
  - reflexivity.
  - right. split; [discriminate |]. exists 1%positive, ex_arr. split_and!; reflexivity.
  - intros i Hi. cbn in Hi.
    assert (i = 0 \/ i = 1 \/ i = 2 \/ i = 3) as [-> | [-> | [-> | ->]]] by lia.
    + exists NULL. split_and!; [reflexivity | reflexivity | constructor].
    + exists (Ptr 5). split_and!; [reflexivity | |].
      * cbn. split; [reflexivity |]. eexists. split; reflexivity.
      * repeat constructor; (eexists; split; reflexivity).
    + exists (Ptr 6). split_and!; [reflexivity | |].
      * cbn. split; [reflexivity |]. eexists. split; reflexivity.
      * repeat constructor; (eexists; split; reflexivity).
    + exists NULL. split_and!; [reflexivity | reflexivity | constructor].
  - apply (bool_decide_unpack _). vm_compute. exact I.
  - reflexivity.
  - vm_compute. discriminate.
Qed.

Lemma big_all_nodes : all_nodes big_cs (2 ^ 32 - 1 + 1) ≡ₚ [1%positive].
Proof.
  unfold big_cs. rewrite all_nodes_upd by lia.
  erewrite (all_nodes_ext (upd _ _ _)); [rewrite all_nodes_empty; reflexivity |].
  intros i _. unfold upd. destruct (i =? 2 ^ 32 - 1); reflexivity.
Qed.

Lemma big_wf : wf_tab W64 big_mem 1 big_tab big_cs.
Proof.
  unfold wf_tab. cbn [mask n big_tab]. rewrite big_all_nodes. split_and!.
  - reflexivity.
  - exists 32. split; [lia | reflexivity].
  - reflexivity.
  - right. split; [discriminate |]. exists 1%positive, big_arr. split_and!; reflexivity.
  - intros i Hi. unfold bucket_ok, big_cs, upd. cbn [buckets mask big_tab].
    assert (Hrd : read_slot big_mem (Bucket (Arr 1) i)
                  = Ok (if i =? 2 ^ 32 - 1 then Ptr 1 else NULL)).
    { unfold read_slot, big_mem. cbn [arrs]. rewrite lookup_insert_eq.
      unfold in_bounds. cbn [blen bget big_arr].
      replace (0 <=? i) with true by (symmetry; apply Z.leb_le; lia).
      replace (i <? 2 ^ 32) with true by (symmetry; apply Z.ltb_lt; lia).
      cbn [andb]. destruct (i =? 2 ^ 32 - 1); reflexivity. }
    rewrite Hrd. eexists. split; [reflexivity |].
    destruct (Z.eqb_spec i (2 ^ 32 - 1)) as [-> | Hne].
    + split.
      * cbn. split; [reflexivity |]. eexists. split; reflexivity.
      * repeat constructor. eexists. split; reflexivity.
    + split; [reflexivity | constructor].
  - apply NoDup_singleton.
  - reflexivity.
  - vm_compute. discriminate.
Qed.

(** ** Allocation sizes that wrap *)

Lemma bind_err {A B} (c : M A) (k : A -> M B) m e :
  c m = Err e -> bind c k m = Err e.
Proof. intros H. unfold bind. rewrite H. reflexivity. Qed.

(** [resize] to a mask that passes both assertions but whose bucket array has
    a byte size beyond [size_t]: the size wraps to 0, the block has no slot,
    and the first store of the loop that fills the array with [NULL] lies
    outside the block. *)
Lemma resize_wraps ws fuel h nm m :
  is_mask nm -> nm < SIZE_MAX ws -> SIZE_MAX ws < sizeof_ptr ws * (nm + 1) ->
  resize ws (S fuel) h nm m = Err MemFault.
Proof.
  intros Hmask Hlt Hbig. pose proof (is_mask_nonneg _ Hmask) as H0.
  assert (Hnz : nm <> 0).
  { intros ->. destruct ws; vm_compute in Hbig; discriminate. }
  set (tmp := fresh (dom (tabs m))).
  set (m1 := with_tabs m (<[tmp := poison]> (tabs m))).
  set (init := {| buckets := InlineOf tmp; one := NULL; mask := 0; n := 0 |}).
  set (m2 := with_tabs m1 (<[tmp := init]> (tabs m1))).
  set (a := fresh (dom (arrs m2))).
  set (arr0 := {| blen := 0 / sizeof_ptr ws; bget := fun _ => None |}).
  set (m3 := with_arrs m2 (<[a := arr0]> (arrs m2))).
  set (t5 := set_mask (set_buckets init (Arr a)) nm).
  set (m5 := with_tabs m3 (<[tmp := t5]> (tabs m3))).
  assert (Ht2 : tabs m2 !! tmp = Some init) by apply lookup_insert_eq.
  assert (Ht5 : tabs m5 !! tmp = Some t5) by apply lookup_insert_eq.
  unfold resize.
  replace (Z.land nm (wrap ws (nm + 1)) =? 0) with true
    by (rewrite wrap_small by lia; rewrite (is_mask_land _ Hmask); reflexivity).
  replace (nm =? SIZE_MAX ws) with false by (symmetry; apply Z.eqb_neq; lia).
  replace (nm =? 0) with false by (symmetry; apply Z.eqb_neq; exact Hnz).
  cbn [negb c_assert].
  rewrite (bind_ok _ _ m tt m) by reflexivity.
  rewrite (bind_ok _ _ m tt m) by reflexivity.
  rewrite (bind_ok _ _ m tmp m1) by reflexivity.
  rewrite (bind_ok _ _ m1 tt m2)
    by (unfold hmap_init; apply put_ok; eapply write_tab_ok, lookup_insert_eq).
  apply bind_err.
  rewrite (buckets_size_wraps ws nm Hmask Hlt Hbig).
  rewrite (bind_ok _ _ m2 a m3) by reflexivity.
  rewrite (bind_ok _ _ m3 tt _)
    by (apply (set_field_ok m3 tmp init (fun t => set_buckets t (Arr a))), Ht2).
  rewrite (bind_ok _ _ _ tt m5).
  2:{ erewrite (set_field_ok _ tmp (set_buckets init (Arr a)) (fun t => set_mask t nm))
        by apply lookup_insert_eq.
      unfold m5, with_tabs. cbn [tabs arrs nodes]. rewrite insert_insert_eq. reflexivity. }
  cbn [for_upto].
  rewrite (bind_ok _ _ m5 nm m5).
  2:{ rewrite (bind_ok _ _ m5 t5 m5) by (apply get_ok, read_tab_ok, Ht5). reflexivity. }
  replace (0 <=? nm) with true by (symmetry; apply Z.leb_le; exact H0).
  apply bind_err.
  rewrite (bind_ok _ _ m5 t5 m5) by (apply get_ok, read_tab_ok, Ht5).
  unfold put, write_slot. cbn [buckets t5 set_mask set_buckets].
  replace (arrs m5 !! a) with (Some arr0) by (symmetry; apply lookup_insert_eq).
  unfold in_bounds, arr0. cbn [blen].
  rewrite Z.div_0_l by (pose proof (sizeof_ptr_pos ws); lia).
  reflexivity.
Qed.

(** ** Chains that do not end *)

(** A node whose [next] field points to the node itself: counting the chain
    from it never ends. *)
Lemma chain_count_cycle m a x :
  nodes m !! a = Some x -> next x = Ptr a ->
  forall fuel, chain_count fuel m (Ptr a) = Err OutOfFuel.
Proof.
  intros Hx Hnext. induction fuel as [| fuel IH]; [reflexivity |].
  cbn [chain_count]. rewrite (read_node_ok _ _ _ Hx). cbn [rbind].
  rewrite Hnext, IH. reflexivity.
Qed.

Lemma count_reachable_cycle m h t a x :
  tabs m !! h = Some t -> 0 <= mask t ->
  read_slot m (Bucket (buckets t) 0) = Ok (Ptr a) ->
  nodes m !! a = Some x -> next x = Ptr a ->
  forall fuel, count_reachable fuel m h = Err OutOfFuel.
Proof.
  intros Ht Hm Hrd Hx Hnext fuel. unfold count_reachable.
  rewrite (read_tab_ok _ _ _ Ht). cbn [rbind].
  destruct fuel as [| fuel]; [reflexivity |].
  cbn [count_buckets].
  replace (0 <=? mask t) with true by (symmetry; apply Z.leb_le; exact Hm).
  rewrite Hrd. cbn [rbind].
  rewrite (chain_count_cycle m a x Hx Hnext). reflexivity.
Qed.

Lemma chain_seg_null nd : forall l p, chain_seg nd p l NULL -> chain nd p l.
Proof.
  induction l as [| a l IH]; intros p H; [exact H |].
  destruct H as (-> & x & Hx & H). split; [reflexivity |]. exists x. split; [exact Hx |].
  apply IH, H.
Qed.

(** * The claims *)

(** C1 (as amended). For a table that satisfies the data-model invariants
    and a target mask [nm] that passes both assertions of [resize] and whose
    bucket array has a byte size [sizeof *buckets * (nm + 1)] within
    [size_t], the call returns (given enough fuel) a table that again
    satisfies the invariants, whose mask is [nm] and whose [n] is unchanged;
    the nodes of the new table are exactly the nodes of the old one, every one
    of them keeps its [hash] field, and it lies in the chain that starts at
    bucket [hash & nm] of the new array.  The old bucket array, if there was
    one, is freed, and no other table struct is touched. *)
Theorem resize_rehashes_every_node ws m h t cs nm :
  wf_tab ws m h t cs ->
  0 <= nm <= SIZE_MAX ws ->
  Z.land nm (wrap ws (nm + 1)) = 0 ->
  nm <> SIZE_MAX ws ->
  sizeof_ptr ws * (nm + 1) <= SIZE_MAX ws ->
  exists fuel0, forall fuel, (fuel0 <= fuel)%nat ->
    exists m' t' cs',
      resize ws fuel h nm m = Ok (tt, m') /\
      wf_tab ws m' h t' cs' /\
      mask t' = nm /\ n t' = n t /\
      all_nodes cs' (nm + 1) ≡ₚ all_nodes cs (mask t + 1) /\
      (forall a, a ∈ all_nodes cs (mask t + 1) ->
         exists x x' p,
           nodes m !! a = Some x /\ nodes m' !! a = Some x' /\ hash x' = hash x /\
           read_slot m' (Bucket (buckets t') (Z.land (hash x) nm)) = Ok p /\
           chain (nodes m') p (cs' (Z.land (hash x) nm)) /\
           a ∈ cs' (Z.land (hash x) nm)) /\
      (forall a, buckets t = Arr a -> arrs m' !! a = None) /\
      (forall h', h' <> h -> tabs m' !! h' = tabs m !! h').
Proof.
  intros Hwf Hrange Hland Hne Hfit.
  assert (Hlt : nm < SIZE_MAX ws) by lia.
  assert (Hmask : is_mask nm).
  { apply land_succ_is_mask; [lia |]. rewrite wrap_small in Hland by lia. exact Hland. }
  exists (S (Nat.max (Z.to_nat (nm + 1))
              (Nat.max (Z.to_nat (mask t + 1)) (length (all_nodes cs (mask t + 1)))))).
  intros fuel Hfuel.
  destruct (resize_spec ws fuel h m t cs nm Hwf Hmask Hlt Hfit)
    as (m' & t' & cs' & Hrun & Hwf' & Hm' & Hn' & Hperm & Hhash & _ & Htabs & Hfreed & _);
    [lia | lia | lia |].
  exists m', t', cs'. split_and!; try assumption.
  intros a Ha.
  destruct (wf_tab_bucket_of ws m h t cs a Hwf Ha) as (x & Hx & _).
  destruct (Hhash a x Hx) as (x' & Hx' & E).
  assert (Ha' : a ∈ all_nodes cs' (mask t' + 1)) by (rewrite Hm', Hperm; exact Ha).
  destruct (wf_tab_bucket_of ws m' h t' cs' a Hwf' Ha') as (y & Hy & Hj & Hin).
  rewrite Hx' in Hy. injection Hy as <-. rewrite Hm', E in Hj, Hin.
  pose proof Hwf' as (_ & _ & _ & _ & Hbk & _).
  destruct (Hbk (Z.land (hash x) nm)) as (p & Hp & Hc & _); [lia |].
  exists x, x', p. split_and!; assumption.
Qed.

Lemma resize_rehashes_every_node_witness :
  exists fuel0, forall fuel, (fuel0 <= fuel)%nat ->
    exists m' t' cs',
      resize W64 fuel 1 3 ex_mem = Ok (tt, m') /\
      wf_tab W64 m' 1 t' cs' /\
      mask t' = 3 /\ n t' = n ex_tab1 /\
      all_nodes cs' (3 + 1) ≡ₚ all_nodes ex_cs1 (mask ex_tab1 + 1) /\
      (forall a, a ∈ all_nodes ex_cs1 (mask ex_tab1 + 1) ->
         exists x x' p,
           nodes ex_mem !! a = Some x /\ nodes m' !! a = Some x' /\ hash x' = hash x /\
           read_slot m' (Bucket (buckets t') (Z.land (hash x) 3)) = Ok p /\
           chain (nodes m') p (cs' (Z.land (hash x) 3)) /\
           a ∈ cs' (Z.land (hash x) 3)) /\
      (forall a, buckets ex_tab1 = Arr a -> arrs m' !! a = None) /\
      (forall h', h' <> 1%positive -> tabs m' !! h' = tabs ex_mem !! h').
Proof.
  apply (resize_rehashes_every_node W64 ex_mem 1 ex_tab1 ex_cs1 3 ex_wf1).
  - vm_compute. split; discriminate.
  - reflexivity.
  - vm_compute. discriminate.
  - vm_compute. discriminate.
Defined.

(** C1 as stated fails for a mask that passes both assertions while its
    bucket array does not fit [size_t]: on a 64-bit platform the mask
    2^61 - 1 is of the form 2^k - 1 and is not [SIZE_MAX], the byte size
    8 * 2^61 wraps to 0, and [resize] stores outside the block it was given;
    no amount of fuel gives a result. *)
Lemma resize_size_wraps_counterexample :
  wf_tab W64 ex_mem 1 ex_tab1 ex_cs1 /\
  0 <= 2 ^ 61 - 1 <= SIZE_MAX W64 /\
  Z.land (2 ^ 61 - 1) (wrap W64 (2 ^ 61 - 1 + 1)) = 0 /\
  2 ^ 61 - 1 <> SIZE_MAX W64 /\
  buckets_size W64 (2 ^ 61 - 1) = 0 /\
  (forall fuel, resize W64 (S fuel) 1 (2 ^ 61 - 1) ex_mem = Err MemFault) /\
  (forall fuel m', resize W64 fuel 1 (2 ^ 61 - 1) ex_mem <> Ok (tt, m')).
Proof.
  assert (Hwrap : forall fuel, resize W64 (S fuel) 1 (2 ^ 61 - 1) ex_mem = Err MemFault).
  { intros fuel. apply resize_wraps.
    - exists 61. split; [lia | reflexivity].
    - vm_compute. reflexivity.
    - vm_compute. reflexivity. }
  split_and!.
  - exact ex_wf1.
  - vm_compute. discriminate.
  - vm_compute. discriminate.
  - reflexivity.
  - vm_compute. discriminate.
  - reflexivity.
  - exact Hwrap.
  - intros [| fuel] m'; [vm_compute; discriminate | rewrite Hwrap; discriminate].
Qed.

(** C2 (as amended). Starting from an initialised table, after any sequence
    of fast inserts, removals, expands, shrinks, reserves and clears that
    respects the client contract (a node is inserted only while it is not in
    the table and removed only while it is in the table, and reserve is given
    a count whose planned bucket array has a byte size within [size_t]), in
    a memory whose address space has room for its nodes, the field [n] equals
    the number of nodes counted by walking every bucket chain of the current
    bucket array.  (Every prefix of such a sequence is such a sequence, so
    this holds after every step.) *)
Theorem n_counts_reachable_nodes ws m h t_any os :
  tabs m !! h = Some t_any ->
  Z.of_nat (size (dom (nodes m))) <= MAX_NODES ws ->
  legal ws (dom (nodes m)) ∅ os ->
  exists fuel0, forall fuel, (fuel0 <= fuel)%nat ->
    exists m' t',
      (hmap_init h ;; run_ops ws fuel h os) m = Ok (tt, m') /\
      tabs m' !! h = Some t' /\
      count_reachable fuel m' h = Ok (n t').
Proof.
  intros Ht Hsize Hlegal.
  exists (S (Z.to_nat (SIZE_MAX ws))). intros fuel Hfuel.
  assert (Hf : (Z.to_nat (SIZE_MAX ws) < fuel)%nat) by exact Hfuel.
  destruct (hmap_init_spec ws m h t_any Ht) as (m0 & t0 & Hinit & Hwf0 & Hm0 & _ & Hnodes0 & _).
  destruct (run_ops_inv ws fuel h (dom (nodes m)) os m0 t0 (fun _ => []) ∅)
    as (m' & t' & cs' & Hrun & Hwf' & _); try assumption.
  - rewrite Hnodes0. reflexivity.
  - intros a. rewrite all_nodes_empty. split; intros Ha.
    + apply not_elem_of_nil in Ha. contradiction.
    + apply not_elem_of_empty in Ha. contradiction.
  - exists m', t'. pose proof Hwf' as (Ht' & Hmask' & Hlt' & _ & _ & _ & Hn' & Hmax').
    pose proof (MAX_NODES_le ws) as Hmn.
    pose proof (is_mask_nonneg _ Hmask').
    set (sm := SIZE_MAX ws) in *. clearbody sm.
    split_and!.
    + rewrite (bind_ok _ _ m tt m0) by exact Hinit. exact Hrun.
    + exact Ht'.
    + apply (count_reachable_spec ws m' h t' cs'); [exact Hwf' | lia | lia].
Qed.

Lemma n_counts_reachable_nodes_witness :
  exists fuel0, forall fuel, (fuel0 <= fuel)%nat ->
    exists m' t',
      (hmap_init 1 ;;
       run_ops W64 fuel 1
         [OpInsert 1 1; OpInsert 2 4; OpInsert 3 7; OpExpand; OpRemove 2;
          OpReserve 100; OpShrink; OpClear; OpInsert 2 6]) ex_mem = Ok (tt, m') /\
      tabs m' !! 1%positive = Some t' /\
      count_reachable fuel m' 1 = Ok (n t').
Proof.
  apply (n_counts_reachable_nodes W64 ex_mem 1 ex_tab1).
  - reflexivity.
  - vm_compute. discriminate.
  - cbn [legal].
    repeat match goal with
           | |- _ /\ _ => split
           | |- _ ∈ _ => apply (bool_decide_unpack _); vm_compute; exact I
           | |- _ ∉ _ => apply (bool_decide_unpack _); vm_compute; exact I
           | |- _ <= _ => vm_compute; discriminate
           | |- True => exact I
           end.
Defined.

(** C2 as stated fails for sequences outside the client contract.  A node
    that is in the table already: [hmap_insert_fast] makes no duplicate check,
    and after node 4 is inserted twice into the empty table [n] is 2, the one
    bucket holds node 4, whose [next] field points to node 4 itself, and the
    walk over the bucket chains never ends.  A node that is not in the table:
    the walk of [hmap_remove] runs off the end of the chain.  A reserve count
    whose bucket array does not fit [size_t]: [resize] stores outside the
    block it was given. *)
Lemma client_contract_counterexample :
  (exists m' t',
     (hmap_init 1 ;; run_ops W64 0 1 [OpInsert 4 9; OpInsert 4 9]) ex_mem = Ok (tt, m') /\
     tabs m' !! 1%positive = Some t' /\ mask t' = 0 /\ n t' = 2 /\
     read_slot m' (Bucket (buckets t') 0) = Ok (Ptr 4) /\
     read_slot m' (NextOf (Ptr 4)) = Ok (Ptr 4) /\
     (forall fuel, count_reachable fuel m' 1 = Err OutOfFuel)) /\
  (hmap_init 1 ;; run_ops W64 5 1 [OpRemove 4]) ex_mem = Err MemFault /\
  (forall fuel,
     (hmap_init 1 ;; run_ops W64 (S fuel) 1 [OpReserve (SIZE_MAX W64)]) ex_mem
     = Err MemFault).
Proof.
  split_and!.
  - eexists. eexists. split; [vm_compute; reflexivity |].
    split; [vm_compute; reflexivity |].
    split_and!; try reflexivity.
    eapply (count_reachable_cycle _ 1%positive _ 4%positive);
      [vm_compute; reflexivity | vm_compute; discriminate
      | vm_compute; reflexivity | vm_compute; reflexivity | reflexivity].
  - vm_compute. reflexivity.
  - intros fuel.
    set (init := {| buckets := InlineOf 1; one := NULL; mask := 0; n := 0 |}).
    set (m0 := with_tabs ex_mem (<[1%positive := init]> (tabs ex_mem))).
    rewrite (bind_ok _ _ ex_mem tt m0) by reflexivity.
    cbn [run_ops run_op]. apply bind_err.
    rewrite (hmap_reserve_unfold W64 _ 1 _ m0 init) by reflexivity.
    change (calc_mask W64 (SIZE_MAX W64) >? mask init) with true. cbv iota.
    apply resize_wraps.
    + apply calc_mask_is_mask. vm_compute. split; discriminate.
    + vm_compute. reflexivity.
    + vm_compute. reflexivity.
Qed.


(** C3 (as amended). For every [size_t] value [c], [calc_mask c] is [c / 2]
    rounded up to the smallest value of the form [2^k - 1], except that a
    rounded value of 1 becomes 3; a rounded value of 0 stays 0. *)
Theorem calc_mask_rounds_up ws c :
  0 <= c <= SIZE_MAX ws ->
  is_mask (round_mask (c / 2)) /\
  c / 2 <= round_mask (c / 2) /\
  (forall m, is_mask m -> c / 2 <= m -> round_mask (c / 2) <= m) /\
  calc_mask ws c = (if round_mask (c / 2) =? 1 then 3 else round_mask (c / 2)) /\
  (round_mask (c / 2) = 0 -> calc_mask ws c = 0).
Proof.
  intros Hc. pose proof (div2_range ws c Hc) as Hx.
  split_and!.
  - apply round_mask_is_mask.
  - apply round_mask_ge. lia.
  - intros m Hm Hle. apply round_mask_least; [lia | exact Hm | exact Hle].
  - apply calc_mask_round, Hc.
  - intros E. rewrite calc_mask_round by exact Hc. rewrite E. reflexivity.
Qed.

Lemma calc_mask_rounds_up_witness :
  is_mask (round_mask (5 / 2)) /\
  5 / 2 <= round_mask (5 / 2) /\
  (forall m, is_mask m -> 5 / 2 <= m -> round_mask (5 / 2) <= m) /\
  calc_mask W64 5 = (if round_mask (5 / 2) =? 1 then 3 else round_mask (5 / 2)) /\
  (round_mask (5 / 2) = 0 -> calc_mask W64 5 = 0).
Proof.
  apply (calc_mask_rounds_up W64 5). vm_compute. split; discriminate.
Defined.

(** C3 as stated fails: for [c = 0] the rounded value is 0, and [calc_mask]
    returns 0, which is not "at least 3". *)
Lemma calc_mask_floor_counterexample :
  ~ (forall c, 0 <= c <= SIZE_MAX W64 ->
       round_mask (c / 2) = 0 \/ round_mask (c / 2) = 1 -> 3 <= calc_mask W64 c).
Proof.
  intros H. specialize (H 0). vm_compute in H.
  apply H; [split; discriminate | left; reflexivity | reflexivity].
Qed.


(** C4 (as amended). For a table that satisfies the invariants, has fewer
    than 2^32 - 1 buckets beyond the first (mask below [UINT32_MAX]) and no
    chain longer than 2^32 nodes, a traversal that starts with the cursor at
    (0, 0) and calls [hmap_at_position] until it returns [NULL] visits the
    nodes of bucket 0 in chain order, then those of bucket 1, and so on: every
    node once and no other.  The exhausted call returns [NULL] and leaves the
    cursor at (0, 0), so that a further traversal of the unmodified table
    starts in the same state and visits the same nodes in the same order. *)
Theorem position_cursor_visits_every_node_once ws m h t cs :
  wf_tab ws m h t cs ->
  mask t < UINT32_MAX ->
  (forall j, 0 <= j <= mask t -> Z.of_nat (length (cs j)) <= 2 ^ 32) ->
  NoDup (all_nodes cs (mask t + 1)) /\
  exists fuel0 k0, forall fuel k, (fuel0 <= fuel)%nat -> (k0 <= k)%nat ->
    traverse ws fuel k m h 0 0 = Ok (all_nodes cs (mask t + 1), (0, 0)).
Proof.
  intros Hwf H32 Hlen. pose proof Hwf as (_ & Hmask & _ & _ & _ & Hnd & _).
  pose proof (is_mask_nonneg _ Hmask) as Hm0.
  split; [exact Hnd |].
  exists (S (Nat.max (Z.to_nat (mask t + 1)) (length (all_nodes cs (mask t + 1))))),
         (S (length (all_nodes cs (mask t + 1)))).
  intros fuel k Hfuel Hk.
  apply (traverse_spec ws m h t cs fuel Hwf H32 Hlen); try lia.
  - unfold cursor_ok. lia.
  - unfold rest_from, all_nodes. rewrite Z.sub_0_r. reflexivity.
Qed.

Lemma position_cursor_visits_every_node_once_witness :
  NoDup (all_nodes ex_cs2 (mask ex_tab2 + 1)) /\
  exists fuel0 k0, forall fuel k, (fuel0 <= fuel)%nat -> (k0 <= k)%nat ->
    traverse W64 fuel k ex_mem 2 0 0 = Ok (all_nodes ex_cs2 (mask ex_tab2 + 1), (0, 0)).
Proof.
  apply (position_cursor_visits_every_node_once W64 ex_mem 2 ex_tab2 ex_cs2 ex_wf2).
  - reflexivity.
  - intros j _. unfold ex_cs2. destruct (j =? 1); [| destruct (j =? 2)]; cbn; lia.
Defined.

Lemma big_read_slot i :
  0 <= i <= 2 ^ 32 - 1 ->
  read_slot big_mem (Bucket (Arr 1) i) = Ok (if i =? 2 ^ 32 - 1 then Ptr 1 else NULL).
Proof.
  intros Hi. unfold read_slot, big_mem. cbn [arrs]. rewrite lookup_insert_eq.
  unfold in_bounds. cbn [blen bget big_arr].
  replace (0 <=? i) with true by (symmetry; apply Z.leb_le; lia).
  replace (i <? 2 ^ 32) with true by (symmetry; apply Z.ltb_lt; lia).
  cbn [andb]. destruct (i =? 2 ^ 32 - 1); reflexivity.
Qed.

(** With enough fuel the loop over the buckets steps over the empty ones. *)
Lemma big_skip cfuel (d : nat) : forall b fuel,
  0 <= b -> b + Z.of_nat d = 2 ^ 32 - 1 ->
  position_buckets W64 (d + S fuel) (S cfuel) big_mem big_tab b 0 = Ok (Ptr 1, (0, 0)).
Proof.
  induction d as [| d IH]; intros b fuel Hb Hd.
  - assert (b = 2 ^ 32 - 1) by lia. subst b. reflexivity.
  - replace (S d + S fuel)%nat with (S (d + S fuel)) by lia. cbn [position_buckets].
    replace (b <=? mask big_tab) with true by (symmetry; apply Z.leb_le; cbn; lia).
    change (buckets big_tab) with (Arr 1).
    rewrite big_read_slot by lia.
    replace (b =? 2 ^ 32 - 1) with false by (symmetry; apply Z.eqb_neq; lia).
    cbn [rbind position_chain].
    rewrite wrap_small by (pose proof (SIZE_MAX_ge W64); unfold UINT32_MAX in *; lia).
    apply IH; lia.
Qed.

(** Whatever the fuel, a call from (0, 0) runs out of fuel or returns node 1
    with the cursor back at (0, 0). *)
Lemma big_position cfuel : forall fuel b,
  0 <= b <= 2 ^ 32 - 1 ->
  position_buckets W64 fuel cfuel big_mem big_tab b 0 = Err OutOfFuel \/
  position_buckets W64 fuel cfuel big_mem big_tab b 0 = Ok (Ptr 1, (0, 0)).
Proof.
  induction fuel as [| fuel IH]; intros b Hb; [left; reflexivity |].
  cbn [position_buckets].
  replace (b <=? mask big_tab) with true by (symmetry; apply Z.leb_le; cbn; lia).
  change (buckets big_tab) with (Arr 1).
  rewrite big_read_slot by lia.
  destruct cfuel as [| cfuel].
  - left. destruct (b =? 2 ^ 32 - 1); reflexivity.
  - destruct (Z.eqb_spec b (2 ^ 32 - 1)) as [-> | Hne].
    + right. reflexivity.
    + cbn [rbind position_chain].
      rewrite wrap_small by (pose proof (SIZE_MAX_ge W64); unfold UINT32_MAX in *; lia).
      apply IH. lia.
Qed.

(** C4 as stated fails on a 64-bit platform for a table of 2^32 buckets: the
    bucket index after the last bucket does not fit the 32-bit cursor, so the
    call that returns the node of the last bucket leaves the cursor at (0, 0),
    the next call returns the same node again, and no traversal ever gets the
    [NULL] that ends it. *)
Lemma position_cursor_wraps_counterexample :
  wf_tab W64 big_mem 1 big_tab big_cs /\
  (forall fuel, (Z.to_nat (2 ^ 32) <= fuel)%nat ->
     hmap_at_position W64 fuel big_mem 1 0 0 = Ok (Ptr 1, (0, 0))) /\
  (forall fuel k l c, traverse W64 fuel k big_mem 1 0 0 <> Ok (l, c)).
Proof.
  split_and!.
  - exact big_wf.
  - intros fuel Hfuel. unfold hmap_at_position.
    change (read_tab big_mem 1) with (Ok big_tab). cbn [rbind].
    set (d := Z.to_nat (2 ^ 32 - 1)).
    assert (Hd : Z.of_nat d = 2 ^ 32 - 1) by (unfold d; rewrite Z2Nat.id; lia).
    assert (Hle : (S d <= fuel)%nat).
    { replace (S d) with (Z.to_nat (2 ^ 32)); [exact Hfuel |]. unfold d.
      rewrite <- Z2Nat.inj_succ by lia. f_equal. }
    clearbody d.
    destruct fuel as [| f]; [lia |].
    replace (S f) with (d + S (f - d))%nat at 1 by lia.
    apply big_skip; lia.
  - intros fuel k. induction k as [| k IH]; intros l c; [discriminate |].
    cbn [traverse]. unfold hmap_at_position.
    change (read_tab big_mem 1) with (Ok big_tab). cbn [rbind].
    destruct (big_position fuel fuel 0) as [-> | ->]; [lia | discriminate |].
    cbn [rbind]. specialize (IH).
    destruct (traverse W64 fuel k big_mem 1 0 0) as [[l' c'] | e] eqn:E.
    + exfalso. exact (IH l' c' eq_refl).
    + discriminate.
Qed.

(** C5 (as amended). On a table that satisfies the invariants,
    [hmap_expand] (or [hmap_shrink], or [hmap_reserve] with a given count
    whose planned bucket array has a byte size within [size_t]) returns with
    the trigger condition of the operation false, so that the same call
    repeated straight after it resizes nothing and returns with the memory
    exactly as the first call left it. *)
Theorem policies_are_idempotent ws m h t cs k :
  wf_tab ws m h t cs ->
  0 <= k <= SIZE_MAX ws ->
  sizeof_ptr ws * (calc_mask ws k + 1) <= SIZE_MAX ws ->
  exists fuel0, forall fuel, (fuel0 <= fuel)%nat ->
    (exists m1 t1, hmap_expand ws fuel h m = Ok (tt, m1) /\
                   tabs m1 !! h = Some t1 /\
                   (calc_mask ws (n t1) >? mask t1) = false /\
                   hmap_expand ws fuel h m1 = Ok (tt, m1)) /\
    (exists m1 t1, hmap_shrink ws fuel h m = Ok (tt, m1) /\
                   tabs m1 !! h = Some t1 /\
                   (calc_mask ws (n t1) <? mask t1) = false /\
                   hmap_shrink ws fuel h m1 = Ok (tt, m1)) /\
    (exists m1 t1, hmap_reserve ws fuel h k m = Ok (tt, m1) /\
                   tabs m1 !! h = Some t1 /\
                   (calc_mask ws k >? mask t1) = false /\
                   hmap_reserve ws fuel h k m1 = Ok (tt, m1)).
Proof.
  intros Hwf Hk Hkfit. exists (S (Z.to_nat (SIZE_MAX ws))). intros fuel Hfuel.
  assert (Hf : (Z.to_nat (SIZE_MAX ws) < fuel)%nat) by exact Hfuel.
  pose proof Hwf as (Ht & _).
  pose proof (n_range ws m h t cs Hwf) as Hnr.
  pose proof (n_fits ws m h t cs Hwf) as Hnfit.
  split_and!.
  - destruct (maybe_resize_spec ws fuel h m t cs (calc_mask ws (n t))
                (calc_mask ws (n t) >? mask t) Hwf)
      as (m1 & t1 & cs1 & Hrun & (Ht1 & _) & Hm1 & Hn1 & _);
      [apply calc_mask_is_mask, Hnr | apply calc_mask_lt_max, Hnr
      | intros _; exact Hnfit | exact Hf |].
    assert (Hcond : (calc_mask ws (n t1) >? mask t1) = false).
    { rewrite Hn1, Hm1. rewrite !Z.gtb_ltb.
      destruct (Z.ltb_spec (mask t) (calc_mask ws (n t))); apply Z.ltb_ge; lia. }
    exists m1, t1. rewrite (hmap_expand_unfold ws fuel h m t Ht).
    split_and!; [exact Hrun | exact Ht1 | exact Hcond |].
    rewrite (hmap_expand_unfold ws fuel h m1 t1 Ht1), Hcond. reflexivity.
  - destruct (maybe_resize_spec ws fuel h m t cs (calc_mask ws (n t))
                (calc_mask ws (n t) <? mask t) Hwf)
      as (m1 & t1 & cs1 & Hrun & (Ht1 & _) & Hm1 & Hn1 & _);
      [apply calc_mask_is_mask, Hnr | apply calc_mask_lt_max, Hnr
      | intros _; exact Hnfit | exact Hf |].
    assert (Hcond : (calc_mask ws (n t1) <? mask t1) = false).
    { rewrite Hn1, Hm1.
      destruct (Z.ltb_spec (calc_mask ws (n t)) (mask t)); apply Z.ltb_ge; lia. }
    exists m1, t1. rewrite (hmap_shrink_unfold ws fuel h m t Ht).
    split_and!; [exact Hrun | exact Ht1 | exact Hcond |].
    rewrite (hmap_shrink_unfold ws fuel h m1 t1 Ht1), Hcond. reflexivity.
  - destruct (maybe_resize_spec ws fuel h m t cs (calc_mask ws k)
                (calc_mask ws k >? mask t) Hwf)
      as (m1 & t1 & cs1 & Hrun & (Ht1 & _) & Hm1 & Hn1 & _);
      [apply calc_mask_is_mask, Hk | apply calc_mask_lt_max, Hk
      | intros _; exact Hkfit | exact Hf |].
    assert (Hcond : (calc_mask ws k >? mask t1) = false).
    { rewrite Hm1. rewrite !Z.gtb_ltb.
      destruct (Z.ltb_spec (mask t) (calc_mask ws k)); apply Z.ltb_ge; lia. }
    exists m1, t1. rewrite (hmap_reserve_unfold ws fuel h k m t Ht).
    split_and!; [exact Hrun | exact Ht1 | exact Hcond |].
    rewrite (hmap_reserve_unfold ws fuel h k m1 t1 Ht1), Hcond. reflexivity.
Qed.

Lemma policies_are_idempotent_witness :
  exists fuel0, forall fuel, (fuel0 <= fuel)%nat ->
    (exists m1 t1, hmap_expand W64 fuel 1 ex_mem = Ok (tt, m1) /\
                   tabs m1 !! 1%positive = Some t1 /\
                   (calc_mask W64 (n t1) >? mask t1) = false /\
                   hmap_expand W64 fuel 1 m1 = Ok (tt, m1)) /\
    (exists m1 t1, hmap_shrink W64 fuel 1 ex_mem = Ok (tt, m1) /\
                   tabs m1 !! 1%positive = Some t1 /\
                   (calc_mask W64 (n t1) <? mask t1) = false /\
                   hmap_shrink W64 fuel 1 m1 = Ok (tt, m1)) /\
    (exists m1 t1, hmap_reserve W64 fuel 1 40 ex_mem = Ok (tt, m1) /\
                   tabs m1 !! 1%positive = Some t1 /\
                   (calc_mask W64 40 >? mask t1) = false /\
                   hmap_reserve W64 fuel 1 40 m1 = Ok (tt, m1)).
Proof.
  apply (policies_are_idempotent W64 ex_mem 1 ex_tab1 ex_cs1 40 ex_wf1).
  - vm_compute. split; discriminate.
  - vm_compute. discriminate.
Defined.

(** C5 as stated fails for a target count whose planned bucket array does
    not fit [size_t]: on a 64-bit platform [hmap_reserve] with the count
    [SIZE_MAX] plans the mask 2^63 - 1, the byte size 8 * 2^63 wraps to 0, and
    the first call already stores outside the block it was given; there is no
    state after it in which a second call could do nothing. *)
Lemma hmap_reserve_wraps_counterexample :
  wf_tab W64 ex_mem 1 ex_tab1 ex_cs1 /\
  0 <= SIZE_MAX W64 <= SIZE_MAX W64 /\
  calc_mask W64 (SIZE_MAX W64) = 2 ^ 63 - 1 /\
  buckets_size W64 (calc_mask W64 (SIZE_MAX W64)) = 0 /\
  (forall fuel, hmap_reserve W64 (S fuel) 1 (SIZE_MAX W64) ex_mem = Err MemFault) /\
  (forall fuel m1, hmap_reserve W64 fuel 1 (SIZE_MAX W64) ex_mem <> Ok (tt, m1)).
Proof.
  assert (Hwrap : forall fuel,
            hmap_reserve W64 (S fuel) 1 (SIZE_MAX W64) ex_mem = Err MemFault).
  { intros fuel.
    rewrite (hmap_reserve_unfold W64 _ 1 _ ex_mem ex_tab1) by reflexivity.
    change (calc_mask W64 (SIZE_MAX W64) >? mask ex_tab1) with true. cbv iota.
    apply resize_wraps.
    - apply calc_mask_is_mask. vm_compute. split; discriminate.
    - vm_compute. reflexivity.
    - vm_compute. reflexivity. }
  split_and!.
  - exact ex_wf1.
  - vm_compute. discriminate.
  - vm_compute. discriminate.
  - reflexivity.
  - reflexivity.
  - exact Hwrap.
  - intros [| fuel] m1; [vm_compute; discriminate | rewrite Hwrap; discriminate].
Qed.

(** C6. After [hmap_swap a b] each table holds the other's former mask, [n]
    and inline-slot value, and with them the other's nodes; a table whose mask
    is 0 has [buckets] pointing at its own inline slot, a table whose mask is
    not 0 has the other's former bucket array. *)
Theorem hmap_swap_exchanges_contents ws m a b ta tb :
  tabs m !! a = Some ta -> tabs m !! b = Some tb ->
  (mask ta = 0 -> buckets ta = InlineOf a) ->
  (mask tb = 0 -> buckets tb = InlineOf b) ->
  exists m' ta' tb',
    hmap_swap a b m = Ok (tt, m') /\
    tabs m' !! a = Some ta' /\ tabs m' !! b = Some tb' /\
    (mask ta' = mask tb /\ n ta' = n tb /\ one ta' = one tb) /\
    (mask tb' = mask ta /\ n tb' = n ta /\ one tb' = one ta) /\
    (mask ta' = 0 -> buckets ta' = InlineOf a) /\
    (mask ta' <> 0 -> buckets ta' = buckets tb) /\
    (mask tb' = 0 -> buckets tb' = InlineOf b) /\
    (mask tb' <> 0 -> buckets tb' = buckets ta) /\
    arrs m' = arrs m /\ nodes m' = nodes m /\
    (forall cs, wf_tab ws m b tb cs -> wf_tab ws m' a ta' cs) /\
    (forall cs, wf_tab ws m a ta cs -> wf_tab ws m' b tb' cs).
Proof.
  intros Ha Hb _ _.
  set (m' := with_tabs m (<[b := moved_fix b ta]> (<[a := moved_fix a tb]> (tabs m)))).
  assert (Ha' : tabs m' !! a = Some (moved_fix a tb)).
  { cbn. destruct (decide (a = b)) as [<- | Hne].
    - rewrite lookup_insert_eq. congruence.
    - rewrite lookup_insert_ne by congruence. apply lookup_insert_eq. }
  assert (Hb' : tabs m' !! b = Some (moved_fix b ta)) by apply lookup_insert_eq.
  assert (Hfix : forall h t,
    mask (moved_fix h t) = mask t /\ n (moved_fix h t) = n t /\ one (moved_fix h t) = one t /\
    (mask (moved_fix h t) = 0 -> buckets (moved_fix h t) = InlineOf h) /\
    (mask (moved_fix h t) <> 0 -> buckets (moved_fix h t) = buckets t)).
  { intros h t. unfold moved_fix. destruct (Z.eqb_spec (mask t) 0) as [E | E]; cbn.
    - split_and!; try reflexivity. intros H; contradiction.
    - split_and!; try reflexivity. intros H; contradiction. }
  destruct (Hfix a tb) as (Ea1 & Ea2 & Ea3 & Ea4 & Ea5).
  destruct (Hfix b ta) as (Eb1 & Eb2 & Eb3 & Eb4 & Eb5).
  exists m', (moved_fix a tb), (moved_fix b ta).
  split_and!; try assumption; try reflexivity.
  - apply hmap_swap_ok; assumption.
  - intros cs Hwf. eapply wf_tab_move; [exact Hwf | exact Ha' | reflexivity | reflexivity].
  - intros cs Hwf. eapply wf_tab_move; [exact Hwf | exact Hb' | reflexivity | reflexivity].
Qed.

Lemma hmap_swap_exchanges_contents_witness :
  exists m' ta' tb',
    hmap_swap 1 2 ex_mem = Ok (tt, m') /\
    tabs m' !! 1%positive = Some ta' /\ tabs m' !! 2%positive = Some tb' /\
    (mask ta' = mask ex_tab2 /\ n ta' = n ex_tab2 /\ one ta' = one ex_tab2) /\
    (mask tb' = mask ex_tab1 /\ n tb' = n ex_tab1 /\ one tb' = one ex_tab1) /\
    (mask ta' = 0 -> buckets ta' = InlineOf 1) /\
    (mask ta' <> 0 -> buckets ta' = buckets ex_tab2) /\
    (mask tb' = 0 -> buckets tb' = InlineOf 2) /\
    (mask tb' <> 0 -> buckets tb' = buckets ex_tab1) /\
    arrs m' = arrs ex_mem /\ nodes m' = nodes ex_mem /\
    (forall cs, wf_tab W64 ex_mem 2 ex_tab2 cs -> wf_tab W64 m' 1 ta' cs) /\
    (forall cs, wf_tab W64 ex_mem 1 ex_tab1 cs -> wf_tab W64 m' 2 tb' cs).
Proof.
  apply (hmap_swap_exchanges_contents W64 ex_mem 1 2 ex_tab1 ex_tab2).
  - reflexivity.
  - reflexivity.
  - reflexivity.
  - vm_compute. discriminate.
Defined.

(** C7. When the storage of a node of the table moves from [old] to the
    unused address [new] and [hmap_node_moved] is called with the two
    addresses, the call returns (given enough fuel) and the table satisfies
    the invariants again with [new] standing exactly where [old] stood: the
    chain of bucket [hash & mask] is the old chain with [old] replaced by
    [new], every other bucket holds the chain it held, and [mask] and [n] are
    unchanged. *)
Theorem hmap_node_moved_relinks ws m0 h t cs old new :
  wf_tab ws m0 h t cs ->
  old ∈ all_nodes cs (mask t + 1) ->
  nodes m0 !! new = None ->
  exists fuel0, forall fuel, (fuel0 <= fuel)%nat ->
    exists m' t' x l1 l2 p,
      hmap_node_moved fuel h (Ptr old) (Ptr new) (move_node old new m0) = Ok (tt, m') /\
      nodes m0 !! old = Some x /\ nodes m' !! new = Some x /\
      cs (Z.land (hash x) (mask t)) = l1 ++ old :: l2 /\
      wf_tab ws m' h t' (upd cs (Z.land (hash x) (mask t)) (l1 ++ new :: l2)) /\
      read_slot m' (Bucket (buckets t') (Z.land (hash x) (mask t'))) = Ok p /\
      chain (nodes m') p (l1 ++ new :: l2) /\
      mask t' = mask t /\ n t' = n t.
Proof.
  intros Hwf Hold Hnew.
  exists (S (length (all_nodes cs (mask t + 1)))). intros fuel Hfuel.
  destruct (hmap_node_moved_spec ws fuel m0 h t cs old new Hwf Hold Hnew)
    as (m' & t' & x & l1 & l2 & Hrun & Hx & Hj & Hsplit & Hwf' & Hm' & Hb' & Hn' & Hx' & _);
    [lia |].
  pose proof Hwf' as (_ & _ & _ & _ & Hbk & _).
  destruct (Hbk (Z.land (hash x) (mask t))) as (p & Hp & Hc & _); [lia |].
  unfold upd in Hc. rewrite Z.eqb_refl in Hc.
  exists m', t', x, l1, l2, p. rewrite Hm'. split_and!; assumption || reflexivity.
Qed.

Lemma hmap_node_moved_relinks_witness :
  exists fuel0, forall fuel, (fuel0 <= fuel)%nat ->
    exists m' t' x l1 l2 p,
      hmap_node_moved fuel 1 (Ptr 2) (Ptr 9) (move_node 2 9 ex_mem) = Ok (tt, m') /\
      nodes ex_mem !! 2%positive = Some x /\ nodes m' !! 9%positive = Some x /\
      ex_cs1 (Z.land (hash x) (mask ex_tab1)) = l1 ++ 2%positive :: l2 /\
      wf_tab W64 m' 1 t' (upd ex_cs1 (Z.land (hash x) (mask ex_tab1)) (l1 ++ 9%positive :: l2)) /\
      read_slot m' (Bucket (buckets t') (Z.land (hash x) (mask t'))) = Ok p /\
      chain (nodes m') p (l1 ++ 9%positive :: l2) /\
      mask t' = mask ex_tab1 /\ n t' = n ex_tab1.
Proof.
  apply (hmap_node_moved_relinks W64 ex_mem 1 ex_tab1 ex_cs1 2 9 ex_wf1).
  - apply (bool_decide_unpack _). vm_compute. exact I.
  - reflexivity.
Defined.

(** C8 (as amended). The walk of [hmap_node_moved] always ends within as
    many [next] steps as the chain is long.  Let the walk start at a slot that
    holds [p], and let the links from [p] lead over the nodes [l], none of
    which is [old_node], to the pointer [q].  When [q] is [old_node] (some
    link of the chain points to it: it is present), the walk stops at that
    link after [length l] steps, without reading the record of [old_node],
    which may be gone once the node has moved.  When the chain ends ([q] is
    [NULL]) and no link pointed to [old_node], the walk stops at the null link
    if [old_node] is [NULL] and dereferences the null link if it is not.  In
    neither case does it run on. *)
Theorem walk_to_ends m s p l q target fuel :
  read_slot m s = Ok p ->
  chain_seg (nodes m) p l q ->
  (forall b, b ∈ l -> Ptr b <> target) ->
  (length l + 1 < fuel)%nat ->
  (q = target -> walk_to fuel s target m = Ok (link_slot s l, m)) /\
  (q = NULL -> target <> NULL -> walk_to fuel s target m = Err MemFault) /\
  (q = target \/ q = NULL -> walk_to fuel s target m <> Err OutOfFuel).
Proof.
  intros Hrd Hseg Hne Hfuel.
  assert (Hfound : q = target -> walk_to fuel s target m = Ok (link_slot s l, m)).
  { intros ->. apply (walk_to_spec l s p m fuel target Hrd Hseg Hne). lia. }
  assert (Habs : q = NULL -> target <> NULL -> walk_to fuel s target m = Err MemFault).
  { intros -> Hnull. apply chain_seg_null in Hseg.
    apply (walk_to_absent l s p m fuel target Hrd Hseg Hne Hnull Hfuel). }
  split_and!; [exact Hfound | exact Habs |].
  intros [E | E].
  - rewrite (Hfound E). discriminate.
  - destruct (decide (target = NULL)) as [Ht | Ht].
    + rewrite Hfound by congruence. discriminate.
    + rewrite (Habs E Ht). discriminate.
Qed.

Lemma walk_to_ends_witness :
  (Ptr 2 = Ptr 2 ->
     walk_to 5 (Bucket (InlineOf 1) 0) (Ptr 2) (move_node 2 9 ex_mem)
     = Ok (link_slot (Bucket (InlineOf 1) 0) [3%positive], move_node 2 9 ex_mem)) /\
  (Ptr 2 = NULL -> Ptr 2 <> NULL ->
     walk_to 5 (Bucket (InlineOf 1) 0) (Ptr 2) (move_node 2 9 ex_mem) = Err MemFault) /\
  (Ptr 2 = Ptr 2 \/ Ptr 2 = NULL ->
     walk_to 5 (Bucket (InlineOf 1) 0) (Ptr 2) (move_node 2 9 ex_mem) <> Err OutOfFuel).
Proof.
  apply (walk_to_ends (move_node 2 9 ex_mem) (Bucket (InlineOf 1) 0) (Ptr 3)
           [3%positive] (Ptr 2) (Ptr 2) 5).
  - reflexivity.
  - split; [reflexivity |]. eexists. split; [vm_compute; reflexivity | reflexivity].
  - intros b Hb E. apply list_elem_of_singleton in Hb. subst b. discriminate.
  - cbn. lia.
Defined.

(** C8 as stated fails in its second half: a walk for an [old_node] that is
    not in the chain is not unbounded.  In the table holding 3, 2, 1, the call
    for the absent address 9 ends in a fault after the third step, and the call
    for [NULL] returns normally. *)
Lemma walk_without_precondition_counterexample :
  (9%positive ∉ all_nodes ex_cs1 (mask ex_tab1 + 1)) /\
  hmap_node_moved 5 1 (Ptr 9) (Ptr 4) ex_mem = Err MemFault /\
  (exists m', hmap_node_moved 5 1 NULL (Ptr 4) ex_mem = Ok (tt, m')) /\
  ~ (forall fuel, hmap_node_moved fuel 1 (Ptr 9) (Ptr 4) ex_mem = Err OutOfFuel).
Proof.
  split_and!.
  - apply (bool_decide_unpack _). vm_compute. exact I.
  - vm_compute. reflexivity.
  - eexists. vm_compute. reflexivity.
  - intros H. specialize (H 5%nat). vm_compute in H. discriminate.
Qed.

(** C9. For every [size_t] count [c], [calc_mask c] passes both assertions
    of [resize]; hence no call of [hmap_expand], [hmap_shrink] or
    [hmap_reserve] ends in a failed assertion. *)
Theorem calc_mask_passes_resize_assertions ws c :
  0 <= c <= SIZE_MAX ws ->
  (Z.land (calc_mask ws c) (wrap ws (calc_mask ws c + 1)) =? 0) = true /\
  negb (calc_mask ws c =? SIZE_MAX ws) = true /\
  (forall fuel h m t, tabs m !! h = Some t -> n t = c ->
     hmap_expand ws fuel h m <> Err AssertFailed /\
     hmap_shrink ws fuel h m <> Err AssertFailed) /\
  (forall fuel h m, hmap_reserve ws fuel h c m <> Err AssertFailed).
Proof.
  intros Hc.
  pose proof (calc_mask_is_mask ws c Hc) as Hmask.
  pose proof (calc_mask_lt_max ws c Hc) as Hlt.
  pose proof (is_mask_nonneg _ Hmask) as H0.
  assert (Hland : Z.land (calc_mask ws c) (wrap ws (calc_mask ws c + 1)) = 0).
  { rewrite wrap_small by lia. apply is_mask_land, Hmask. }
  assert (Hne : calc_mask ws c <> SIZE_MAX ws) by lia.
  split_and!.
  - rewrite Hland. reflexivity.
  - apply negb_true_iff, Z.eqb_neq, Hne.
  - intros fuel h m t Ht Hn. split.
    + rewrite (hmap_expand_unfold ws fuel h m t Ht), Hn.
      destruct (calc_mask ws c >? mask t); [| discriminate].
      apply resize_no_assert; assumption.
    + rewrite (hmap_shrink_unfold ws fuel h m t Ht), Hn.
      destruct (calc_mask ws c <? mask t); [| discriminate].
      apply resize_no_assert; assumption.
  - intros fuel h m. unfold hmap_reserve.
    apply na_bind; [apply na_get, na_read_tab |]. intros t.
    destruct (calc_mask ws c >? mask t); [| apply na_ret].
    intros m'. apply resize_no_assert; assumption.
Qed.

Lemma calc_mask_passes_resize_assertions_witness :
  (Z.land (calc_mask W64 1000) (wrap W64 (calc_mask W64 1000 + 1)) =? 0) = true /\
  negb (calc_mask W64 1000 =? SIZE_MAX W64) = true /\
  (forall fuel h m t, tabs m !! h = Some t -> n t = 1000 ->
     hmap_expand W64 fuel h m <> Err AssertFailed /\
     hmap_shrink W64 fuel h m <> Err AssertFailed) /\
  (forall fuel h m, hmap_reserve W64 fuel h 1000 m <> Err AssertFailed).
Proof.
  apply (calc_mask_passes_resize_assertions W64 1000). vm_compute. split; discriminate.
Defined.

(** C10. [calc_mask] is monotonically nondecreasing on [size_t] counts. *)
Theorem calc_mask_monotone ws c1 c2 :
  0 <= c1 -> c1 <= c2 -> c2 <= SIZE_MAX ws ->
  calc_mask ws c1 <= calc_mask ws c2.
Proof. apply calc_mask_mono. Qed.

Lemma calc_mask_monotone_witness : calc_mask W64 5 <= calc_mask W64 1000.
Proof.
  apply (calc_mask_monotone W64 5 1000); vm_compute; discriminate.
Defined.

(** * Further properties

    What the functions of hmap.c do beyond the claims above: their edge cases,
    what they leave untouched, and how they compose. *)

(** ** Table lifecycle *)

Lemma mem_eq (m m' : mem) :
  tabs m = tabs m' -> arrs m = arrs m' -> nodes m = nodes m' -> m = m'.
Proof. destruct m, m'; cbn; intros -> -> ->; reflexivity. Qed.

Lemma hmap_destroy_inline m h t :
  tabs m !! h = Some t -> buckets t = InlineOf h -> hmap_destroy (Some h) m = Ok (tt, m).
Proof.
  intros Ht Hb. unfold hmap_destroy.
  rewrite (bind_ok _ _ m t m) by (apply get_ok, read_tab_ok, Ht).
  destruct (decide (buckets t <> InlineOf h)) as [Hd | _]; [contradiction | reflexivity].
Qed.

Lemma hmap_destroy_array m h t a :
  tabs m !! h = Some t -> buckets t = Arr a ->
  hmap_destroy (Some h) m
  = match arrs m !! a with
    | Some _ => Ok (tt, with_arrs m (delete a (arrs m)))
    | None => Err MemFault
    end.
Proof.
  intros Ht Hb. unfold hmap_destroy.
  rewrite (bind_ok _ _ m t m) by (apply get_ok, read_tab_ok, Ht).
  destruct (decide (buckets t <> InlineOf h)) as [_ | Hd].
  - rewrite Hb. reflexivity.
  - exfalso. apply Hd. rewrite Hb. discriminate.
Qed.

(** X1. [hmap_init] makes an empty table of whatever the struct held before:
    the result satisfies the invariants with no node in any bucket, [buckets]
    is the table's own inline slot, [mask] and [n] are 0, a walk over the
    buckets counts 0 nodes and the position cursor returns [NULL] at once;
    nodes, allocated arrays and other table structs are untouched (an array
    that the struct owned before is neither freed nor reachable from it). *)
Theorem hmap_init_gives_empty_table ws m h t_any :
  tabs m !! h = Some t_any ->
  exists m' t',
    hmap_init h m = Ok (tt, m') /\
    wf_tab ws m' h t' (fun _ => []) /\
    buckets t' = InlineOf h /\ mask t' = 0 /\ n t' = 0 /\
    nodes m' = nodes m /\ arrs m' = arrs m /\
    (forall h', h' <> h -> tabs m' !! h' = tabs m !! h') /\
    (forall fuel, hmap_at_position ws (S (S fuel)) m' h 0 0 = Ok (NULL, (0, 0))) /\
    (forall fuel, count_reachable (S (S fuel)) m' h = Ok 0).
Proof.
  intros Ht.
  destruct (hmap_init_spec ws m h t_any Ht) as (m' & t' & Hrun & Hwf & Hm & Hn & Hnodes & Htabs).
  set (init := {| buckets := InlineOf h; one := NULL; mask := 0; n := 0 |}).
  assert (Hm' : m' = with_tabs m (<[h := init]> (tabs m))).
  { unfold hmap_init in Hrun. erewrite put_ok in Hrun by (eapply write_tab_ok, Ht).
    injection Hrun as <-. reflexivity. }
  pose proof Hwf as (Ht' & _).
  assert (Et : t' = init).
  { rewrite Hm' in Ht'. cbn in Ht'. rewrite lookup_insert_eq in Ht'. congruence. }
  exists m', t'. split_and!; try assumption.
  - rewrite Et. reflexivity.
  - rewrite Hm'. reflexivity.
  - intros fuel. unfold hmap_at_position. rewrite (read_tab_ok _ _ _ Ht'). subst t'.
    cbn. unfold read_tab. rewrite Ht'. cbn.
    replace (wrap ws (0 + 1)) with 1 by (destruct ws; reflexivity). reflexivity.
  - intros fuel. unfold count_reachable. rewrite (read_tab_ok _ _ _ Ht'). subst t'.
    cbn. unfold read_tab. rewrite Ht'. reflexivity.
Qed.

Lemma hmap_init_gives_empty_table_witness :
  exists m' t',
    hmap_init 2 ex_mem = Ok (tt, m') /\
    wf_tab W64 m' 2 t' (fun _ => []) /\
    buckets t' = InlineOf 2 /\ mask t' = 0 /\ n t' = 0 /\
    nodes m' = nodes ex_mem /\ arrs m' = arrs ex_mem /\
    (forall h', h' <> 2%positive -> tabs m' !! h' = tabs ex_mem !! h') /\
    (forall fuel, hmap_at_position W64 (S (S fuel)) m' 2 0 0 = Ok (NULL, (0, 0))) /\
    (forall fuel, count_reachable (S (S fuel)) m' 2 = Ok 0).
Proof.
  apply (hmap_init_gives_empty_table W64 ex_mem 2 ex_tab2). reflexivity.
Defined.

(** X2. [hmap_destroy] frees the bucket array of a table that has one and
    nothing else: the struct and the nodes stay as they are, and a null
    pointer or a table that uses its inline slot leaves the memory unchanged.
    The struct keeps pointing at the freed array, so that a second
    [hmap_destroy] of the same table frees the array twice. *)
Theorem hmap_destroy_frees_the_bucket_array ws m h t cs :
  wf_tab ws m h t cs ->
  hmap_destroy None m = Ok (tt, m) /\
  (mask t = 0 -> hmap_destroy (Some h) m = Ok (tt, m)) /\
  (mask t <> 0 ->
     exists a, buckets t = Arr a /\ is_Some (arrs m !! a) /\
       hmap_destroy (Some h) m = Ok (tt, with_arrs m (delete a (arrs m))) /\
       hmap_destroy (Some h) (with_arrs m (delete a (arrs m))) = Err MemFault).
Proof.
  intros (Ht & _ & _ & Hst & _). split_and!.
  - reflexivity.
  - intros H0. destruct Hst as [(_ & Hb) | (Hn0 & _)]; [| contradiction].
    apply (hmap_destroy_inline m h t Ht Hb).
  - intros Hn0. destruct Hst as [(H0 & _) | (_ & a & arr & Hb & Harr & _)]; [contradiction |].
    exists a. split_and!.
    + exact Hb.
    + rewrite Harr. eexists. reflexivity.
    + rewrite (hmap_destroy_array m h t a Ht Hb), Harr. reflexivity.
    + rewrite (hmap_destroy_array (with_arrs m (delete a (arrs m))) h t a Ht Hb).
      cbn. rewrite lookup_delete_eq. reflexivity.
Qed.

Lemma hmap_destroy_frees_the_bucket_array_witness :
  hmap_destroy None ex_mem = Ok (tt, ex_mem) /\
  (mask ex_tab2 = 0 -> hmap_destroy (Some 2%positive) ex_mem = Ok (tt, ex_mem)) /\
  (mask ex_tab2 <> 0 ->
     exists a, buckets ex_tab2 = Arr a /\ is_Some (arrs ex_mem !! a) /\
       hmap_destroy (Some 2%positive) ex_mem = Ok (tt, with_arrs ex_mem (delete a (arrs ex_mem))) /\
       hmap_destroy (Some 2%positive) (with_arrs ex_mem (delete a (arrs ex_mem))) = Err MemFault).
Proof.
  apply (hmap_destroy_frees_the_bucket_array W64 ex_mem 2 ex_tab2 ex_cs2 ex_wf2).
Defined.

(** X3. For a table with an allocated bucket array, [hmap_destroy] followed
    by [hmap_init] gives a well-formed empty table with the array released and
    the nodes untouched.  [hmap_destroy] followed by [hmap_clear] (the sequence
    that the comment above [hmap_clear] recommends) does not: with nodes in
    the table [hmap_clear] writes through the freed [buckets] pointer, and
    with no nodes it returns but leaves a table whose buckets cannot be
    read. *)
Theorem hmap_destroy_then_init_or_clear ws m h t cs :
  wf_tab ws m h t cs -> mask t <> 0 ->
  (exists m' t' a,
     (hmap_destroy (Some h) ;; hmap_init h) m = Ok (tt, m') /\
     wf_tab ws m' h t' (fun _ => []) /\ mask t' = 0 /\ n t' = 0 /\
     buckets t = Arr a /\ arrs m' = delete a (arrs m) /\ nodes m' = nodes m) /\
  (0 < n t -> (hmap_destroy (Some h) ;; hmap_clear ws h) m = Err MemFault) /\
  (n t = 0 ->
     exists m', (hmap_destroy (Some h) ;; hmap_clear ws h) m = Ok (tt, m') /\
       forall fuel, hmap_at_position ws (S fuel) m' h 0 0 = Err MemFault).
Proof.
  intros Hwf Hn0. pose proof Hwf as (Ht & Hmask & Hlt & Hst & _).
  pose proof (is_mask_nonneg _ Hmask) as Hm0.
  destruct Hst as [(H0 & _) | (_ & a & arr & Hb & Harr & Hlen)]; [contradiction |].
  set (m1 := with_arrs m (delete a (arrs m))).
  assert (Hd : hmap_destroy (Some h) m = Ok (tt, m1)).
  { rewrite (hmap_destroy_array m h t a Ht Hb), Harr. reflexivity. }
  assert (Ht1 : tabs m1 !! h = Some t) by exact Ht.
  assert (Ha1 : arrs m1 !! a = None) by apply lookup_delete_eq.
  split_and!.
  - destruct (hmap_init_spec ws m1 h t Ht1) as (m' & t' & Hrun & Hwf' & Hm' & Hn' & Hnodes & _).
    exists m', t', a. rewrite (bind_ok _ _ m tt m1) by exact Hd.
    split_and!; try assumption.
    unfold hmap_init in Hrun. erewrite put_ok in Hrun by (eapply write_tab_ok, Ht1).
    injection Hrun as <-. reflexivity.
  - intros Hpos. rewrite (bind_ok _ _ m tt m1) by exact Hd.
    unfold hmap_clear. rewrite (bind_ok _ _ m1 t m1) by (apply get_ok, read_tab_ok, Ht1).
    replace (n t >? 0) with true by (symmetry; apply Z.gtb_lt; lia).
    set (t1 := set_n t 0).
    set (m2 := with_tabs m1 (<[h := t1]> (tabs m1))).
    rewrite (bind_ok _ _ m1 tt m2) by (apply (set_field_ok m1 h t (fun t => set_n t 0) Ht1)).
    assert (Ht2 : tabs m2 !! h = Some t1) by apply lookup_insert_eq.
    rewrite (bind_ok _ _ m2 t1 m2) by (apply get_ok, read_tab_ok, Ht2).
    change (buckets t1) with (buckets t). rewrite Hb. unfold memset_null.
    change (arrs m2) with (arrs m1). rewrite Ha1. reflexivity.
  - intros Hz. exists m1. rewrite (bind_ok _ _ m tt m1) by exact Hd. split.
    + unfold hmap_clear. rewrite (bind_ok _ _ m1 t m1) by (apply get_ok, read_tab_ok, Ht1).
      rewrite Hz. reflexivity.
    + intros fuel. unfold hmap_at_position. rewrite (read_tab_ok _ _ _ Ht1).
      cbn [rbind position_buckets].
      replace (0 <=? mask t) with true by (symmetry; apply Z.leb_le; lia).
      rewrite Hb. unfold read_slot. rewrite Ha1. reflexivity.
Qed.

Lemma hmap_destroy_then_init_or_clear_witness :
  (exists m' t' a,
     (hmap_destroy (Some 2%positive) ;; hmap_init 2) ex_mem = Ok (tt, m') /\
     wf_tab W64 m' 2 t' (fun _ => []) /\ mask t' = 0 /\ n t' = 0 /\
     buckets ex_tab2 = Arr a /\ arrs m' = delete a (arrs ex_mem) /\ nodes m' = nodes ex_mem) /\
  (0 < n ex_tab2 -> (hmap_destroy (Some 2%positive) ;; hmap_clear W64 2) ex_mem = Err MemFault) /\
  (n ex_tab2 = 0 ->
     exists m', (hmap_destroy (Some 2%positive) ;; hmap_clear W64 2) ex_mem = Ok (tt, m') /\
       forall fuel, hmap_at_position W64 (S fuel) m' 2 0 0 = Err MemFault).
Proof.
  apply (hmap_destroy_then_init_or_clear W64 ex_mem 2 ex_tab2 ex_cs2 ex_wf2).
  vm_compute. discriminate.
Defined.

(** [hmap_clear] allocates nothing, frees nothing and keeps the [buckets]
    pointer of the table. *)
Lemma hmap_clear_footprint ws h m m' :
  hmap_clear ws h m = Ok (tt, m') ->
  dom (tabs m') = dom (tabs m) /\ dom (arrs m') = dom (arrs m) /\ nodes m' = nodes m /\
  (forall t t', tabs m !! h = Some t -> tabs m' !! h = Some t' -> buckets t' = buckets t).
Proof.
  intros H. destruct (tabs m !! h) as [t |] eqn:Ht.
  2:{ exfalso. revert H. unfold hmap_clear, bind, get, read_tab. rewrite Ht. discriminate. }
  unfold hmap_clear in H.
  rewrite (bind_ok _ _ m t m) in H by (apply get_ok, read_tab_ok, Ht).
  destruct (n t >? 0).
  2:{ injection H as <-. split_and!; try reflexivity. intros t0 t' E0 E'. congruence. }
  set (t1 := set_n t 0) in *.
  set (m1 := with_tabs m (<[h := t1]> (tabs m))) in *.
  rewrite (bind_ok _ _ m tt m1) in H by (apply (set_field_ok m h t (fun t => set_n t 0) Ht)).
  assert (Ht1 : tabs m1 !! h = Some t1) by apply lookup_insert_eq.
  rewrite (bind_ok _ _ m1 t1 m1) in H by (apply get_ok, read_tab_ok, Ht1).
  assert (Hdom : dom (tabs m1) = dom (tabs m)).
  { apply dom_insert_lookup_L. rewrite Ht. eexists. reflexivity. }
  assert (Hkeep : forall t0 t', Some t = Some t0 -> Some t1 = Some t' -> buckets t' = buckets t0).
  { intros t0 t' E0 E'. injection E0 as <-. injection E' as <-. reflexivity. }
  unfold memset_null in H. destruct (buckets t1) as [h0 | a].
  - destruct (wrap ws (mask t1 + 1) =? 0).
    { injection H as <-. split_and!; try reflexivity; try exact Hdom.
      intros t0 t' E0 E'. rewrite Ht1 in E'. apply Hkeep; [exact E0 | exact E']. }
    destruct (wrap ws (mask t1 + 1) =? 1); [| discriminate].
    unfold put, write_slot in H. rewrite Z.eqb_refl in H. unfold read_tab, rbind, write_tab in H.
    destruct (tabs m1 !! h0) as [t0 |] eqn:E0; [| discriminate].
    injection H as <-. cbn [tabs arrs nodes with_tabs]. split_and!; try reflexivity.
    + rewrite dom_insert_lookup_L by (eexists; exact E0). exact Hdom.
    + intros t2 t' E2 E'. destruct (decide (h0 = h)) as [-> | Hne].
      * rewrite lookup_insert_eq in E'. injection E' as <-.
        change (tabs m1 !! h = Some t0) in E0.
        rewrite Ht1 in E0. injection E0 as <-. injection E2 as <-. reflexivity.
      * rewrite lookup_insert_ne in E' by exact Hne.
        change (tabs m1 !! h = Some t') in E'. rewrite Ht1 in E'.
        apply Hkeep; [exact E2 | exact E'].
  - destruct (arrs m1 !! a) as [arr |] eqn:Ea; [| discriminate].
    destruct (wrap ws (mask t1 + 1) <=? blen arr); [| discriminate].
    injection H as <-. cbn [tabs arrs nodes with_arrs]. split_and!; try reflexivity; try exact Hdom.
    + apply dom_insert_lookup_L. eexists. exact Ea.
    + intros t0 t' E0 E'. rewrite Ht1 in E'. apply Hkeep; [exact E0 | exact E'].
Qed.

(** X4. [hmap_clear] empties every bucket and sets [n] to 0 while the table
    keeps its mask and its bucket array: the result satisfies the invariants
    with no node in any bucket, no array is allocated or freed, the nodes
    themselves and the other table structs are untouched.  On a table with
    [n = 0] it changes nothing at all, so a second [hmap_clear] is the
    identity. *)
Theorem hmap_clear_empties_and_keeps_capacity ws m h t cs :
  wf_tab ws m h t cs ->
  exists m' t',
    hmap_clear ws h m = Ok (tt, m') /\
    wf_tab ws m' h t' (fun _ => []) /\
    mask t' = mask t /\ buckets t' = buckets t /\ n t' = 0 /\
    nodes m' = nodes m /\
    dom (arrs m') = dom (arrs m) /\
    (forall h', h' <> h -> tabs m' !! h' = tabs m !! h') /\
    (n t = 0 -> m' = m) /\
    hmap_clear ws h m' = Ok (tt, m').
Proof.
  intros Hwf.
  destruct (hmap_clear_spec ws m h t cs Hwf)
    as (m' & t' & Hrun & Hwf' & Hm & Hn & Hnodes & Htabs).
  destruct (hmap_clear_footprint ws h m m' Hrun) as (_ & Harrs & _ & Hbk).
  pose proof Hwf as (Ht & _). pose proof Hwf' as (Ht' & _).
  specialize (Hbk t t' Ht Ht').
  assert (Hnoop : forall m0 t0, tabs m0 !! h = Some t0 -> n t0 = 0 ->
                                hmap_clear ws h m0 = Ok (tt, m0)).
  { intros m0 t0 Ht0 Hz. unfold hmap_clear.
    rewrite (bind_ok _ _ m0 t0 m0) by (apply get_ok, read_tab_ok, Ht0).
    rewrite Hz. reflexivity. }
  exists m', t'. split_and!; try assumption.
  - intros Hz. rewrite (Hnoop m t Ht Hz) in Hrun. congruence.
  - apply (Hnoop m' t' Ht' Hn).
Qed.

Lemma hmap_clear_empties_and_keeps_capacity_witness :
  exists m' t',
    hmap_clear W64 2 ex_mem = Ok (tt, m') /\
    wf_tab W64 m' 2 t' (fun _ => []) /\
    mask t' = mask ex_tab2 /\ buckets t' = buckets ex_tab2 /\ n t' = 0 /\
    nodes m' = nodes ex_mem /\
    dom (arrs m') = dom (arrs ex_mem) /\
    (forall h', h' <> 2%positive -> tabs m' !! h' = tabs ex_mem !! h') /\
    (n ex_tab2 = 0 -> m' = ex_mem) /\
    hmap_clear W64 2 m' = Ok (tt, m').
Proof.
  apply (hmap_clear_empties_and_keeps_capacity W64 ex_mem 2 ex_tab2 ex_cs2 ex_wf2).
Defined.

Lemma moved_fix_back a b t :
  (mask t = 0 -> buckets t = InlineOf a) -> moved_fix a (moved_fix b t) = t.
Proof.
  intros H. unfold moved_fix. destruct (Z.eqb_spec (mask t) 0) as [E | E]; cbn.
  - rewrite E. cbn. destruct t as [bk o mk nn]; cbn in *.
    unfold set_buckets; cbn. rewrite (H E). reflexivity.
  - destruct (Z.eqb_spec (mask t) 0); [contradiction | reflexivity].
Qed.

(** X5. [hmap_swap] does not depend on the order of its two arguments, and
    on tables whose [buckets] pointer agrees with their mask (a table with
    mask 0 points at its own inline slot) swapping twice restores the memory
    exactly. *)
Theorem hmap_swap_is_symmetric_and_self_inverse m a b ta tb :
  tabs m !! a = Some ta -> tabs m !! b = Some tb ->
  (mask ta = 0 -> buckets ta = InlineOf a) ->
  (mask tb = 0 -> buckets tb = InlineOf b) ->
  hmap_swap a b m = hmap_swap b a m /\
  (hmap_swap a b ;; hmap_swap a b) m = Ok (tt, m).
Proof.
  intros Ha Hb Hia Hib.
  rewrite (hmap_swap_ok m a b ta tb Ha Hb), (hmap_swap_ok m b a tb ta Hb Ha).
  set (m1 := with_tabs m (<[b := moved_fix b ta]> (<[a := moved_fix a tb]> (tabs m)))).
  destruct (decide (a = b)) as [<- | Hne].
  - assert (E : ta = tb) by congruence. subst tb. split.
    + reflexivity.
    + rewrite (bind_ok _ _ m tt m1) by (apply hmap_swap_ok; assumption).
      assert (Ha1 : tabs m1 !! a = Some (moved_fix a ta)) by apply lookup_insert_eq.
      rewrite (hmap_swap_ok m1 a a _ _ Ha1 Ha1). f_equal. f_equal.
      apply mem_eq; try reflexivity. cbn.
      rewrite !insert_insert_eq. rewrite moved_fix_idem.
      replace (moved_fix a ta) with ta.
      * apply insert_id, Ha.
      * symmetry. rewrite <- (moved_fix_idem a ta). apply moved_fix_back, Hia.
  - split.
    + f_equal. f_equal. apply mem_eq; try reflexivity. cbn.
      apply insert_insert_ne. congruence.
    + rewrite (bind_ok _ _ m tt m1) by (apply hmap_swap_ok; assumption).
      assert (Ha1 : tabs m1 !! a = Some (moved_fix a tb)).
      { cbn. rewrite lookup_insert_ne by congruence. apply lookup_insert_eq. }
      assert (Hb1 : tabs m1 !! b = Some (moved_fix b ta)) by apply lookup_insert_eq.
      rewrite (hmap_swap_ok m1 a b _ _ Ha1 Hb1). f_equal. f_equal.
      rewrite (moved_fix_back a b ta Hia), (moved_fix_back b a tb Hib).
      apply mem_eq; try reflexivity. cbn.
      apply map_eq. intros i.
      destruct (decide (i = b)) as [-> | Hib'].
      * rewrite lookup_insert_eq. congruence.
      * rewrite lookup_insert_ne by congruence.
        destruct (decide (i = a)) as [-> | Hia'].
        -- rewrite lookup_insert_eq. congruence.
        -- rewrite !lookup_insert_ne by congruence. reflexivity.
Qed.

Lemma hmap_swap_is_symmetric_and_self_inverse_witness :
  hmap_swap 1 2 ex_mem = hmap_swap 2 1 ex_mem /\
  (hmap_swap 1 2 ;; hmap_swap 1 2) ex_mem = Ok (tt, ex_mem).
Proof.
  apply (hmap_swap_is_symmetric_and_self_inverse ex_mem 1 2 ex_tab1 ex_tab2).
  - reflexivity.
  - reflexivity.
  - reflexivity.
  - vm_compute. discriminate.
Defined.

(** X6. After the client has moved a well-formed table struct to another
    address, [hmap_moved] on the new address makes it a well-formed table
    again, with the same chains, mask, [n] and inline-slot value, without
    touching arrays or nodes; calling it again changes nothing.  Before the
    call, a table that uses its inline slot still has [buckets] pointing into
    the old struct, which is gone. *)
Theorem hmap_moved_repairs_a_moved_table ws m old new t cs :
  wf_tab ws m old t cs ->
  tabs m !! new = None ->
  exists m' t',
    hmap_moved new (move_tab old new m) = Ok (tt, m') /\
    wf_tab ws m' new t' cs /\
    mask t' = mask t /\ n t' = n t /\ one t' = one t /\
    tabs m' !! old = None /\
    arrs m' = arrs m /\ nodes m' = nodes m /\
    (mask t = 0 ->
       read_slot (move_tab old new m) (Bucket (buckets t) 0) = Err MemFault) /\
    hmap_moved new m' = Ok (tt, m').
Proof.
  intros Hwf Hnew. pose proof Hwf as (Ht & _ & _ & Hst & _).
  assert (Hne : old <> new) by (intros ->; congruence).
  set (m1 := move_tab old new m).
  assert (Em1 : m1 = with_tabs m (<[new := t]> (delete old (tabs m)))).
  { unfold m1, move_tab. rewrite Ht. reflexivity. }
  assert (Ht1 : tabs m1 !! new = Some t).
  { rewrite Em1. cbn. apply lookup_insert_eq. }
  set (m' := with_tabs m1 (<[new := moved_fix new t]> (tabs m1))).
  assert (Ht' : tabs m' !! new = Some (moved_fix new t)) by apply lookup_insert_eq.
  assert (Hfix : mask (moved_fix new t) = mask t /\ n (moved_fix new t) = n t /\
                 one (moved_fix new t) = one t).
  { unfold moved_fix. destruct (mask t =? 0); split_and!; reflexivity. }
  destruct Hfix as (F1 & F2 & F3).
  exists m', (moved_fix new t). split_and!; try assumption.
  - apply hmap_moved_ok, Ht1.
  - apply (wf_tab_move ws m m' old new t cs Hwf Ht').
    + unfold m'. rewrite Em1. reflexivity.
    + intros a _. unfold m'. rewrite Em1. reflexivity.
  - unfold m'. rewrite Em1. cbn.
    rewrite !lookup_insert_ne by congruence. apply lookup_delete_eq.
  - unfold m'. rewrite Em1. reflexivity.
  - unfold m'. rewrite Em1. reflexivity.
  - intros H0. destruct Hst as [(_ & Hb) | (Hn0 & _)]; [| contradiction].
    rewrite Hb. unfold read_slot. rewrite Z.eqb_refl. unfold read_tab.
    fold m1. rewrite Em1. cbn.
    rewrite lookup_insert_ne by congruence. rewrite lookup_delete_eq. reflexivity.
  - rewrite (hmap_moved_ok m' new (moved_fix new t) Ht'). rewrite moved_fix_idem.
    f_equal. f_equal. unfold m'. apply mem_eq; try reflexivity.
    cbn. rewrite insert_insert_eq. reflexivity.
Qed.

Lemma hmap_moved_repairs_a_moved_table_witness :
  exists m' t',
    hmap_moved 7 (move_tab 1 7 ex_mem) = Ok (tt, m') /\
    wf_tab W64 m' 7 t' ex_cs1 /\
    mask t' = mask ex_tab1 /\ n t' = n ex_tab1 /\ one t' = one ex_tab1 /\
    tabs m' !! 1%positive = None /\
    arrs m' = arrs ex_mem /\ nodes m' = nodes ex_mem /\
    (mask ex_tab1 = 0 ->
       read_slot (move_tab 1 7 ex_mem) (Bucket (buckets ex_tab1) 0) = Err MemFault) /\
    hmap_moved 7 m' = Ok (tt, m').
Proof.
  apply (hmap_moved_repairs_a_moved_table W64 ex_mem 1 7 ex_tab1 ex_cs1 ex_wf1).
  reflexivity.
Defined.

(** ** Resize engine *)

(** X7. For a [size_t] mask, [resize] ends in a failed assertion exactly when
    the mask is not of the form 2^k - 1 or is [SIZE_MAX]; the second assertion
    is the one that catches [SIZE_MAX], for which [new_mask + 1] wraps to 0
    and the first assertion passes. *)
Theorem resize_rejects_exactly_bad_masks ws fuel h nm m :
  0 <= nm <= SIZE_MAX ws ->
  resize ws fuel h nm m = Err AssertFailed <-> (~ is_mask nm \/ nm = SIZE_MAX ws).
Proof.
  intros Hnm. pose proof (SIZE_MAX_pos ws) as Hpos.
  assert (Hmax : resize ws fuel h (SIZE_MAX ws) m = Err AssertFailed).
  { unfold resize.
    replace (wrap ws (SIZE_MAX ws + 1)) with 0.
    - rewrite Z.land_0_r, !Z.eqb_refl. reflexivity.
    - unfold wrap, SIZE_MAX. replace (2 ^ size_bits ws - 1 + 1) with (2 ^ size_bits ws) by lia.
      symmetry. apply Z.mod_same. destruct ws; discriminate. }
  split.
  - intros Hres. destruct (Z.eq_dec nm (SIZE_MAX ws)) as [E | Hne]; [right; exact E |].
    left. intros Hmask. apply (resize_no_assert ws fuel h nm m); [| exact Hne | exact Hres].
    rewrite wrap_small by lia. apply is_mask_land, Hmask.
  - intros [Hbad | ->]; [| exact Hmax].
    destruct (Z.eq_dec nm (SIZE_MAX ws)) as [-> | Hne]; [exact Hmax |].
    unfold resize. rewrite wrap_small by lia.
    destruct (Z.eqb_spec (Z.land nm (nm + 1)) 0) as [E | _]; [| reflexivity].
    exfalso. apply Hbad. apply land_succ_is_mask; [lia | exact E].
Qed.

Lemma resize_rejects_exactly_bad_masks_witness :
  resize W64 5 1 5 ex_mem = Err AssertFailed <-> (~ is_mask 5 \/ 5 = SIZE_MAX W64).
Proof.
  apply (resize_rejects_exactly_bad_masks W64 5 1 5 ex_mem). vm_compute. split; discriminate.
Defined.

Lemma filter_bucket nd msk i j l :
  Forall (node_ok nd msk j) l ->
  List.filter (lands_in nd msk i) l = if j =? i then l else [].
Proof.
  induction l as [| a l IH]; intros Hall; cbn [List.filter].
  - destruct (j =? i); reflexivity.
  - apply Forall_cons in Hall. destruct Hall as ((x & Hx & Hl) & Hall).
    rewrite (IH Hall). unfold lands_in, hash_of. rewrite Hx, Hl.
    destruct (j =? i); reflexivity.
Qed.

Lemma filter_own_bucket ws m h t cs i :
  wf_tab ws m h t cs -> 0 <= i <= mask t ->
  List.filter (lands_in (nodes m) (mask t) i) (all_nodes cs (mask t + 1)) = cs i.
Proof.
  intros (_ & _ & _ & _ & Hbk & _) Hi.
  assert (H : forall k, 0 <= k -> k <= mask t + 1 ->
            List.filter (lands_in (nodes m) (mask t) i) (all_nodes cs k)
            = if i <? k then cs i else []).
  { apply (natlike_ind (fun k => k <= mask t + 1 -> _ = _)).
    - intros _. rewrite all_nodes_zero.
      replace (i <? 0) with false by (symmetry; apply Z.ltb_ge; lia). reflexivity.
    - intros k Hk IH Hle. unfold Z.succ in *. rewrite all_nodes_succ by lia.
      rewrite List.filter_app, IH by lia.
      destruct (Hbk k) as (_ & _ & _ & Hall); [lia |].
      rewrite (filter_bucket _ _ i k _ Hall).
      destruct (Z.ltb_spec i k), (Z.eqb_spec k i), (Z.ltb_spec i (k + 1)); try lia.
      + apply app_nil_r.
      + subst k. reflexivity.
      + reflexivity. }
  rewrite H by lia. replace (i <? mask t + 1) with true by (symmetry; apply Z.ltb_lt; lia).
  reflexivity.
Qed.

(** X8. [resize] to a mask that passes its assertions and whose bucket array
    has a byte size within [size_t] fills each new bucket with the nodes
    whose hash selects it, in the reverse of the order in which the old table
    lists them (bucket by bucket in ascending order, each chain from its
    head); in particular a resize to the mask the table already has reverses
    every chain. *)
Theorem resize_fills_buckets_in_reverse_order ws m h t cs nm :
  wf_tab ws m h t cs ->
  0 <= nm <= SIZE_MAX ws ->
  Z.land nm (wrap ws (nm + 1)) = 0 ->
  nm <> SIZE_MAX ws ->
  sizeof_ptr ws * (nm + 1) <= SIZE_MAX ws ->
  exists fuel0, forall fuel, (fuel0 <= fuel)%nat ->
    exists m' t' cs',
      resize ws fuel h nm m = Ok (tt, m') /\
      wf_tab ws m' h t' cs' /\ mask t' = nm /\
      (forall i, cs' i = rev (List.filter (lands_in (nodes m) nm i)
                                (all_nodes cs (mask t + 1)))) /\
      (nm = mask t -> forall i, 0 <= i <= mask t -> cs' i = rev (cs i)).
Proof.
  intros Hwf Hrange Hland Hne Hfit.
  assert (Hlt : nm < SIZE_MAX ws) by lia.
  assert (Hmask : is_mask nm).
  { apply land_succ_is_mask; [lia |]. rewrite wrap_small in Hland by lia. exact Hland. }
  exists (S (Nat.max (Z.to_nat (nm + 1))
              (Nat.max (Z.to_nat (mask t + 1)) (length (all_nodes cs (mask t + 1)))))).
  intros fuel Hfuel.
  destruct (resize_spec ws fuel h m t cs nm Hwf Hmask Hlt Hfit)
    as (m' & t' & cs' & Hrun & Hwf' & Hm' & _ & _ & _ & _ & _ & _ & _ & _ & Hord);
    [lia | lia | lia |].
  exists m', t', cs'. split_and!; try assumption.
  intros -> i Hi. rewrite Hord. f_equal. apply (filter_own_bucket ws m h t cs i Hwf Hi).
Qed.

Lemma resize_fills_buckets_in_reverse_order_witness :
  exists fuel0, forall fuel, (fuel0 <= fuel)%nat ->
    exists m' t' cs',
      resize W64 fuel 1 3 ex_mem = Ok (tt, m') /\
      wf_tab W64 m' 1 t' cs' /\ mask t' = 3 /\
      (forall i, cs' i = rev (List.filter (lands_in (nodes ex_mem) 3 i)
                                (all_nodes ex_cs1 (mask ex_tab1 + 1)))) /\
      (3 = mask ex_tab1 -> forall i, 0 <= i <= mask ex_tab1 -> cs' i = rev (ex_cs1 i)).
Proof.
  apply (resize_fills_buckets_in_reverse_order W64 ex_mem 1 ex_tab1 ex_cs1 3 ex_wf1).
  - vm_compute. split; discriminate.
  - reflexivity.
  - vm_compute. discriminate.
  - vm_compute. discriminate.
Defined.

(** X9. [resize] of one table, to a mask that passes its assertions and
    whose bucket array has a byte size within [size_t], leaves every other
    table as it is: a second well-formed table that shares no node and no
    bucket array with the resized one satisfies the invariants afterwards with
    the same struct and the same chains; no node outside the resized table and
    no other table struct changes (the temporary struct of [resize] is
    gone). *)
Theorem resize_leaves_other_tables_alone ws m h t cs nm h2 t2 cs2 :
  wf_tab ws m h t cs ->
  0 <= nm <= SIZE_MAX ws ->
  Z.land nm (wrap ws (nm + 1)) = 0 ->
  nm <> SIZE_MAX ws ->
  sizeof_ptr ws * (nm + 1) <= SIZE_MAX ws ->
  wf_tab ws m h2 t2 cs2 -> h2 <> h ->
  (forall x, x ∈ all_nodes cs2 (mask t2 + 1) -> x ∉ all_nodes cs (mask t + 1)) ->
  (forall a, buckets t2 = Arr a -> buckets t <> Arr a) ->
  exists fuel0, forall fuel, (fuel0 <= fuel)%nat ->
    exists m',
      resize ws fuel h nm m = Ok (tt, m') /\
      wf_tab ws m' h2 t2 cs2 /\
      (forall x, x ∉ all_nodes cs (mask t + 1) -> nodes m' !! x = nodes m !! x) /\
      (forall h', h' <> h -> tabs m' !! h' = tabs m !! h').
Proof.
  intros Hwf Hrange Hland Hne Hfit Hwf2 Hh2 Hdisj Harr2.
  assert (Hlt : nm < SIZE_MAX ws) by lia.
  assert (Hmask : is_mask nm).
  { apply land_succ_is_mask; [lia |]. rewrite wrap_small in Hland by lia. exact Hland. }
  exists (S (Nat.max (Z.to_nat (nm + 1))
              (Nat.max (Z.to_nat (mask t + 1)) (length (all_nodes cs (mask t + 1)))))).
  intros fuel Hfuel.
  destruct (resize_spec ws fuel h m t cs nm Hwf Hmask Hlt Hfit)
    as (m' & t' & cs' & Hrun & Hwf' & _ & _ & _ & _ & Hnodes & Htabs & _ & Harrs & Hfresh & _);
    [lia | lia | lia |].
  exists m'. split_and!; try assumption.
  destruct Hwf2 as (Ht2 & Hmask2 & Hlt2 & Hst2 & Hbk2 & Hnd2 & Hn2 & Hmax2).
  pose proof (MAX_NODES_le ws) as Hmn.
  assert (Hkeep : forall a, buckets t2 = Arr a -> arrs m' !! a = arrs m !! a).
  { intros a Ha. apply Harrs; [apply Harr2, Ha |].
    intros Hb'. apply Hfresh in Hb'.
    destruct Hst2 as [(_ & Hi) | (_ & a0 & arr & Hb & Ha0 & _)]; congruence. }
  unfold wf_tab. split_and!; try assumption.
  - rewrite Htabs by exact Hh2. exact Ht2.
  - eapply storage_ok_transfer; [reflexivity | reflexivity | exact Hkeep | exact Hst2].
  - intros i Hi. destruct (Hbk2 i Hi) as (p & Hp & Hc & Hall).
    assert (Hfr : forall x, x ∈ cs2 i -> nodes m' !! x = nodes m !! x).
    { intros x Hx. apply Hnodes, Hdisj, elem_of_all_nodes. exists i. split; [lia | exact Hx]. }
    exists p. split_and!.
    + destruct Hst2 as [(_ & Hb) | (_ & a0 & arr & Hb & _)]; rewrite Hb in Hp |- *; cbn in Hp |- *.
      * unfold read_tab in *. rewrite Htabs by exact Hh2. exact Hp.
      * rewrite Hkeep by exact Hb. exact Hp.
    + eapply chain_frame; [| exact Hc]. exact Hfr.
    + rewrite Forall_forall in Hall |- *. intros x Hx.
      eapply node_ok_frame; [| apply Hall, Hx]. apply Hfr, Hx.
Qed.

Lemma resize_leaves_other_tables_alone_witness :
  exists fuel0, forall fuel, (fuel0 <= fuel)%nat ->
    exists m',
      resize W64 fuel 1 3 ex_mem = Ok (tt, m') /\
      wf_tab W64 m' 2 ex_tab2 ex_cs2 /\
      (forall x, x ∉ all_nodes ex_cs1 (mask ex_tab1 + 1) -> nodes m' !! x = nodes ex_mem !! x) /\
      (forall h', h' <> 1%positive -> tabs m' !! h' = tabs ex_mem !! h').
Proof.
  apply (resize_leaves_other_tables_alone W64 ex_mem 1 ex_tab1 ex_cs1 3 2 ex_tab2 ex_cs2 ex_wf1).
  - vm_compute. split; discriminate.
  - reflexivity.
  - vm_compute. discriminate.
  - vm_compute. discriminate.
  - exact ex_wf2.
  - discriminate.
  - intros x Hx Hx'. apply list_elem_of_In in Hx, Hx'. vm_compute in Hx, Hx'.
    intuition congruence.
  - intros a _. discriminate.
Defined.

(** ** Capacity planner *)

Lemma round_mask_upper x : 1 <= x -> round_mask x <= 2 * x - 1.
Proof.
  intros Hx. unfold round_mask. destruct (Z.eqb_spec x 0) as [-> | _]; [lia |].
  rewrite Z.ones_equiv. destruct (Z.log2_spec x) as (Hlo & _); [lia |].
  pose proof (Z.log2_nonneg x).
  rewrite Z.pow_add_r by lia. change (2 ^ 1) with 2. lia.
Qed.

Lemma round_mask_zero x : 0 <= x -> (round_mask x = 0 <-> x = 0).
Proof.
  intros Hx. pose proof (round_mask_ge x Hx). split; [lia |].
  intros ->. reflexivity.
Qed.

(** X10. The planned mask keeps the load between one and two nodes per
    bucket: for a [size_t] count [c], [c / 2 <= calc_mask c], and
    [calc_mask c <= max 3 (c - 1)], so that a planned table has more than
    [c / 2] buckets and, from four elements on, no more buckets than elements.
    The result is 0 exactly for [c <= 1], and it is never 1 or 2: a table has
    one bucket or at least four. *)
Theorem calc_mask_load_bounds ws c :
  0 <= c <= SIZE_MAX ws ->
  c / 2 <= calc_mask ws c /\
  calc_mask ws c <= Z.max 3 (c - 1) /\
  (calc_mask ws c = 0 <-> c <= 1) /\
  calc_mask ws c <> 1 /\ calc_mask ws c <> 2.
Proof.
  intros Hc. rewrite calc_mask_round by exact Hc.
  pose proof (div2_range ws c Hc) as (Hx & _).
  pose proof (round_mask_ge (c / 2) Hx) as Hge.
  pose proof (round_mask_zero (c / 2) Hx) as Hz.
  pose proof (round_mask_is_mask (c / 2)) as Hm.
  assert (Hup : 1 <= c / 2 -> round_mask (c / 2) <= c - 1).
  { intros H1. pose proof (round_mask_upper _ H1).
    pose proof (Z.mul_div_le c 2). lia. }
  assert (Hsmall : c / 2 = 0 <-> c <= 1).
  { split; intros H.
    - destruct (Z_le_gt_dec c 1); [assumption |].
      assert (1 <= c / 2) by (apply Z.div_le_lower_bound; lia). lia.
    - apply Z.div_small. lia. }
  assert (H2 : round_mask (c / 2) <> 2).
  { intros E. destruct Hm as (k & Hk & Ek). rewrite E in Ek.
    assert (2 ^ k = 3) by lia.
    destruct (Z_lt_le_dec k 2) as [Hlt | Hge2].
    - assert (k = 0 \/ k = 1) as [-> | ->] by lia; simpl in *; lia.
    - assert (2 ^ 2 <= 2 ^ k) by (apply Z.pow_le_mono_r; lia). lia. }
  destruct (Z.eqb_spec (round_mask (c / 2)) 1) as [E1 | N1].
  - split_and!; lia.
  - split_and!; lia.
Qed.

Lemma calc_mask_load_bounds_witness :
  10 / 2 <= calc_mask W32 10 /\
  calc_mask W32 10 <= Z.max 3 (10 - 1) /\
  (calc_mask W32 10 = 0 <-> 10 <= 1) /\
  calc_mask W32 10 <> 1 /\ calc_mask W32 10 <> 2.
Proof.
  apply (calc_mask_load_bounds W32 10). vm_compute. split; discriminate.
Defined.

(** X11. The shift by 32 that [calc_mask] performs only where [size_t] is
    wider than 32 bits changes nothing for a count that fits 32 bits: the two
    variants of the function agree there. *)
Theorem calc_mask_same_on_both_widths c :
  0 <= c <= UINT32_MAX -> calc_mask W64 c = calc_mask W32 c.
Proof.
  intros Hc. pose proof (SIZE_MAX_ge W64).
  rewrite (calc_mask_round W64) by lia.
  rewrite (calc_mask_round W32) by exact Hc. reflexivity.
Qed.

Lemma calc_mask_same_on_both_widths_witness : calc_mask W64 77 = calc_mask W32 77.
Proof.
  apply (calc_mask_same_on_both_widths 77). vm_compute. split; discriminate.
Defined.

(** ** The three policies *)

Lemma calc_mask_small ws c : 0 <= c <= 1 -> calc_mask ws c = 0.
Proof.
  intros Hc. assert (c = 0 \/ c = 1) as [-> | ->] by lia; destruct ws; reflexivity.
Qed.

Lemma calc_mask_ge_half ws c : 0 <= c <= SIZE_MAX ws -> c / 2 <= calc_mask ws c.
Proof.
  intros Hc. rewrite calc_mask_round by exact Hc.
  pose proof (div2_range ws c Hc) as (Hx & _).
  pose proof (round_mask_ge (c / 2) Hx).
  destruct (round_mask (c / 2) =? 1) eqn:E; [apply Z.eqb_eq in E |]; lia.
Qed.

(** What a policy does once it has read the table and planned the mask. *)
Lemma policy_spec ws fuel h m t cs nm (go : bool) :
  wf_tab ws m h t cs -> is_mask nm -> nm < SIZE_MAX ws ->
  sizeof_ptr ws * (nm + 1) <= SIZE_MAX ws ->
  (Z.to_nat (SIZE_MAX ws) < fuel)%nat ->
  exists m' t' cs',
    (if go then resize ws fuel h nm else ret tt) m = Ok (tt, m') /\
    wf_tab ws m' h t' cs' /\
    mask t' = (if go then nm else mask t) /\ n t' = n t /\
    all_nodes cs' (mask t' + 1) ≡ₚ all_nodes cs (mask t + 1) /\
    (go = false -> m' = m).
Proof.
  intros Hwf Hmask Hlt Hfit Hfuel.
  destruct (maybe_resize_spec ws fuel h m t cs nm go Hwf Hmask Hlt (fun _ => Hfit) Hfuel)
    as (m' & t' & cs' & Hrun & Hwf' & Hm' & Hn' & Hperm & _).
  exists m', t', cs'. split_and!; try assumption.
  intros ->. unfold ret in Hrun. congruence.
Qed.

(** X12. On a well-formed table, [hmap_expand] leaves the larger of the
    current and the planned mask, [hmap_shrink] the smaller, and
    [hmap_reserve k], for a count [k] whose planned bucket array has a byte
    size within [size_t], the larger of the current mask and the mask planned
    for [k]; each keeps [n] and the set of nodes, leaves the table well
    formed, and changes nothing at all when its test fails.  After
    [hmap_expand] the mask is at least [n / 2], after [hmap_reserve k] at
    least [k / 2]. *)
Theorem policies_set_the_planned_mask ws m h t cs k :
  wf_tab ws m h t cs ->
  0 <= k <= SIZE_MAX ws ->
  sizeof_ptr ws * (calc_mask ws k + 1) <= SIZE_MAX ws ->
  exists fuel0, forall fuel, (fuel0 <= fuel)%nat ->
    (exists m1 t1 cs1,
       hmap_expand ws fuel h m = Ok (tt, m1) /\ wf_tab ws m1 h t1 cs1 /\
       mask t1 = Z.max (mask t) (calc_mask ws (n t)) /\ n t1 = n t /\
       n t1 / 2 <= mask t1 /\
       all_nodes cs1 (mask t1 + 1) ≡ₚ all_nodes cs (mask t + 1) /\
       (calc_mask ws (n t) <= mask t -> m1 = m)) /\
    (exists m1 t1 cs1,
       hmap_shrink ws fuel h m = Ok (tt, m1) /\ wf_tab ws m1 h t1 cs1 /\
       mask t1 = Z.min (mask t) (calc_mask ws (n t)) /\ n t1 = n t /\
       all_nodes cs1 (mask t1 + 1) ≡ₚ all_nodes cs (mask t + 1) /\
       (mask t <= calc_mask ws (n t) -> m1 = m)) /\
    (exists m1 t1 cs1,
       hmap_reserve ws fuel h k m = Ok (tt, m1) /\ wf_tab ws m1 h t1 cs1 /\
       mask t1 = Z.max (mask t) (calc_mask ws k) /\ n t1 = n t /\
       k / 2 <= mask t1 /\
       all_nodes cs1 (mask t1 + 1) ≡ₚ all_nodes cs (mask t + 1) /\
       (calc_mask ws k <= mask t -> m1 = m)).
Proof.
  intros Hwf Hk Hkfit. exists (S (Z.to_nat (SIZE_MAX ws))). intros fuel Hfuel.
  assert (Hf : (Z.to_nat (SIZE_MAX ws) < fuel)%nat) by exact Hfuel.
  pose proof Hwf as (Ht & _).
  pose proof (n_range ws m h t cs Hwf) as Hnr.
  pose proof (n_fits ws m h t cs Hwf) as Hnfit.
  pose proof (calc_mask_ge_half ws (n t) Hnr) as Hhn.
  pose proof (calc_mask_ge_half ws k Hk) as Hhk.
  split_and!.
  - destruct (policy_spec ws fuel h m t cs (calc_mask ws (n t))
                (calc_mask ws (n t) >? mask t) Hwf)
      as (m1 & t1 & cs1 & Hrun & Hwf1 & Hm1 & Hn1 & Hperm & Hsame);
      [apply calc_mask_is_mask, Hnr | apply calc_mask_lt_max, Hnr | exact Hnfit | exact Hf |].
    exists m1, t1, cs1. rewrite (hmap_expand_unfold ws fuel h m t Ht).
    rewrite Z.gtb_ltb in Hm1, Hsame.
    destruct (Z.ltb_spec (mask t) (calc_mask ws (n t))) as [Hlt | Hge]; cbv iota in Hm1;
      (split_and!; [exact Hrun | exact Hwf1 | lia | exact Hn1 | rewrite Hn1; lia | exact Hperm |]).
    + intros Hle. lia.
    + intros _. apply Hsame. reflexivity.
  - destruct (policy_spec ws fuel h m t cs (calc_mask ws (n t))
                (calc_mask ws (n t) <? mask t) Hwf)
      as (m1 & t1 & cs1 & Hrun & Hwf1 & Hm1 & Hn1 & Hperm & Hsame);
      [apply calc_mask_is_mask, Hnr | apply calc_mask_lt_max, Hnr | exact Hnfit | exact Hf |].
    exists m1, t1, cs1. rewrite (hmap_shrink_unfold ws fuel h m t Ht).
    destruct (Z.ltb_spec (calc_mask ws (n t)) (mask t)) as [Hlt | Hge]; cbv iota in Hm1;
      (split_and!; [exact Hrun | exact Hwf1 | lia | exact Hn1 | exact Hperm |]).
    + intros Hle. lia.
    + intros _. apply Hsame. reflexivity.
  - destruct (policy_spec ws fuel h m t cs (calc_mask ws k)
                (calc_mask ws k >? mask t) Hwf)
      as (m1 & t1 & cs1 & Hrun & Hwf1 & Hm1 & Hn1 & Hperm & Hsame);
      [apply calc_mask_is_mask, Hk | apply calc_mask_lt_max, Hk | exact Hkfit | exact Hf |].
    exists m1, t1, cs1. rewrite (hmap_reserve_unfold ws fuel h k m t Ht).
    rewrite Z.gtb_ltb in Hm1, Hsame.
    destruct (Z.ltb_spec (mask t) (calc_mask ws k)) as [Hlt | Hge]; cbv iota in Hm1;
      (split_and!; [exact Hrun | exact Hwf1 | lia | exact Hn1 | lia | exact Hperm |]).
    + intros Hle. lia.
    + intros _. apply Hsame. reflexivity.
Qed.

Lemma policies_set_the_planned_mask_witness :
  exists fuel0, forall fuel, (fuel0 <= fuel)%nat ->
    (exists m1 t1 cs1,
       hmap_expand W64 fuel 1 ex_mem = Ok (tt, m1) /\ wf_tab W64 m1 1 t1 cs1 /\
       mask t1 = Z.max (mask ex_tab1) (calc_mask W64 (n ex_tab1)) /\ n t1 = n ex_tab1 /\
       n t1 / 2 <= mask t1 /\
       all_nodes cs1 (mask t1 + 1) ≡ₚ all_nodes ex_cs1 (mask ex_tab1 + 1) /\
       (calc_mask W64 (n ex_tab1) <= mask ex_tab1 -> m1 = ex_mem)) /\
    (exists m1 t1 cs1,
       hmap_shrink W64 fuel 1 ex_mem = Ok (tt, m1) /\ wf_tab W64 m1 1 t1 cs1 /\
       mask t1 = Z.min (mask ex_tab1) (calc_mask W64 (n ex_tab1)) /\ n t1 = n ex_tab1 /\
       all_nodes cs1 (mask t1 + 1) ≡ₚ all_nodes ex_cs1 (mask ex_tab1 + 1) /\
       (mask ex_tab1 <= calc_mask W64 (n ex_tab1) -> m1 = ex_mem)) /\
    (exists m1 t1 cs1,
       hmap_reserve W64 fuel 1 40 ex_mem = Ok (tt, m1) /\ wf_tab W64 m1 1 t1 cs1 /\
       mask t1 = Z.max (mask ex_tab1) (calc_mask W64 40) /\ n t1 = n ex_tab1 /\
       40 / 2 <= mask t1 /\
       all_nodes cs1 (mask t1 + 1) ≡ₚ all_nodes ex_cs1 (mask ex_tab1 + 1) /\
       (calc_mask W64 40 <= mask ex_tab1 -> m1 = ex_mem)).
Proof.
  apply (policies_set_the_planned_mask W64 ex_mem 1 ex_tab1 ex_cs1 40 ex_wf1).
  - vm_compute. split; discriminate.
  - vm_compute. discriminate.
Defined.

Lemma is_mask_lt_double a b : is_mask a -> is_mask b -> a < b -> 2 * a + 1 <= b.
Proof.
  intros (i & Hi & ->) (j & Hj & ->) Hlt.
  assert (Hij : i < j).
  { destruct (Z_lt_le_dec i j) as [? | Hge]; [assumption |].
    assert (2 ^ j <= 2 ^ i) by (apply Z.pow_le_mono_r; lia). lia. }
  assert (2 ^ (i + 1) <= 2 ^ j) by (apply Z.pow_le_mono_r; lia).
  rewrite Z.pow_add_r in H by lia. change (2 ^ 1) with 2 in H. lia.
Qed.

(** X13. A policy that resizes at all changes the number of buckets by a
    factor of at least two: after [hmap_expand] or [hmap_reserve] (with a
    count whose planned bucket array has a byte size within [size_t]) the
    memory is unchanged or the table has at least twice as many buckets as
    before, after [hmap_shrink] it is unchanged or the table has at most half
    as many. *)
Theorem policies_double_or_halve_the_buckets ws m h t cs k :
  wf_tab ws m h t cs ->
  0 <= k <= SIZE_MAX ws ->
  sizeof_ptr ws * (calc_mask ws k + 1) <= SIZE_MAX ws ->
  exists fuel0, forall fuel, (fuel0 <= fuel)%nat ->
    (exists m1 t1, hmap_expand ws fuel h m = Ok (tt, m1) /\ tabs m1 !! h = Some t1 /\
                   (m1 = m \/ 2 * (mask t + 1) <= mask t1 + 1)) /\
    (exists m1 t1, hmap_shrink ws fuel h m = Ok (tt, m1) /\ tabs m1 !! h = Some t1 /\
                   (m1 = m \/ 2 * (mask t1 + 1) <= mask t + 1)) /\
    (exists m1 t1, hmap_reserve ws fuel h k m = Ok (tt, m1) /\ tabs m1 !! h = Some t1 /\
                   (m1 = m \/ 2 * (mask t + 1) <= mask t1 + 1)).
Proof.
  intros Hwf Hk Hkfit. exists (S (Z.to_nat (SIZE_MAX ws))). intros fuel Hfuel.
  assert (Hf : (Z.to_nat (SIZE_MAX ws) < fuel)%nat) by exact Hfuel.
  pose proof Hwf as (Ht & Hmask & _).
  pose proof (n_range ws m h t cs Hwf) as Hnr.
  pose proof (n_fits ws m h t cs Hwf) as Hnfit.
  assert (Hgen : forall nm (go : bool), is_mask nm -> nm < SIZE_MAX ws ->
            sizeof_ptr ws * (nm + 1) <= SIZE_MAX ws ->
            exists m1 t1, (if go then resize ws fuel h nm else ret tt) m = Ok (tt, m1) /\
                          tabs m1 !! h = Some t1 /\
                          (go = false -> m1 = m) /\ (go = true -> mask t1 = nm)).
  { intros nm go Hnm Hlt Hfit.
    destruct (policy_spec ws fuel h m t cs nm go Hwf Hnm Hlt Hfit Hf)
      as (m1 & t1 & cs1 & Hrun & (Ht1 & _) & Hm1 & _ & _ & Hsame).
    exists m1, t1. split_and!; [exact Hrun | exact Ht1 | exact Hsame |].
    intros ->. exact Hm1. }
  split_and!.
  - destruct (Hgen (calc_mask ws (n t)) (calc_mask ws (n t) >? mask t))
      as (m1 & t1 & Hrun & Ht1 & Hsame & Hnew);
      [apply calc_mask_is_mask, Hnr | apply calc_mask_lt_max, Hnr | exact Hnfit |].
    exists m1, t1. rewrite (hmap_expand_unfold ws fuel h m t Ht).
    split_and!; [exact Hrun | exact Ht1 |].
    destruct (calc_mask ws (n t) >? mask t) eqn:E; [right | left; auto].
    rewrite Hnew by reflexivity. apply Z.gtb_lt in E.
    pose proof (is_mask_lt_double _ _ Hmask (calc_mask_is_mask ws (n t) Hnr) E). lia.
  - destruct (Hgen (calc_mask ws (n t)) (calc_mask ws (n t) <? mask t))
      as (m1 & t1 & Hrun & Ht1 & Hsame & Hnew);
      [apply calc_mask_is_mask, Hnr | apply calc_mask_lt_max, Hnr | exact Hnfit |].
    exists m1, t1. rewrite (hmap_shrink_unfold ws fuel h m t Ht).
    split_and!; [exact Hrun | exact Ht1 |].
    destruct (calc_mask ws (n t) <? mask t) eqn:E; [right | left; auto].
    rewrite Hnew by reflexivity. apply Z.ltb_lt in E.
    pose proof (is_mask_lt_double _ _ (calc_mask_is_mask ws (n t) Hnr) Hmask E). lia.
  - destruct (Hgen (calc_mask ws k) (calc_mask ws k >? mask t))
      as (m1 & t1 & Hrun & Ht1 & Hsame & Hnew);
      [apply calc_mask_is_mask, Hk | apply calc_mask_lt_max, Hk | exact Hkfit |].
    exists m1, t1. rewrite (hmap_reserve_unfold ws fuel h k m t Ht).
    split_and!; [exact Hrun | exact Ht1 |].
    destruct (calc_mask ws k >? mask t) eqn:E; [right | left; auto].
    rewrite Hnew by reflexivity. apply Z.gtb_lt in E.
    pose proof (is_mask_lt_double _ _ Hmask (calc_mask_is_mask ws k Hk) E). lia.
Qed.

Lemma policies_double_or_halve_the_buckets_witness :
  exists fuel0, forall fuel, (fuel0 <= fuel)%nat ->
    (exists m1 t1, hmap_expand W64 fuel 1 ex_mem = Ok (tt, m1) /\ tabs m1 !! 1%positive = Some t1 /\
                   (m1 = ex_mem \/ 2 * (mask ex_tab1 + 1) <= mask t1 + 1)) /\
    (exists m1 t1, hmap_shrink W64 fuel 1 ex_mem = Ok (tt, m1) /\ tabs m1 !! 1%positive = Some t1 /\
                   (m1 = ex_mem \/ 2 * (mask t1 + 1) <= mask ex_tab1 + 1)) /\
    (exists m1 t1, hmap_reserve W64 fuel 1 40 ex_mem = Ok (tt, m1) /\ tabs m1 !! 1%positive = Some t1 /\
                   (m1 = ex_mem \/ 2 * (mask ex_tab1 + 1) <= mask t1 + 1)).
Proof.
  apply (policies_double_or_halve_the_buckets W64 ex_mem 1 ex_tab1 ex_cs1 40 ex_wf1).
  - vm_compute. split; discriminate.
  - vm_compute. discriminate.
Defined.

Lemma calc_mask_gt_iff ws c msk :
  0 <= c <= SIZE_MAX ws -> is_mask msk -> msk <> 1 ->
  (msk < calc_mask ws c <-> 2 * (msk + 1) <= c).
Proof.
  intros Hc Hmsk Hne. rewrite calc_mask_round by exact Hc.
  pose proof (div2_range ws c Hc) as (Hx & _).
  pose proof (round_mask_ge (c / 2) Hx) as Hge.
  pose proof (is_mask_nonneg _ Hmsk) as H0.
  pose proof (Z.mul_div_le c 2 ltac:(lia)) as Hd1.
  pose proof (Z.mul_succ_div_gt c 2 ltac:(lia)) as Hd2.
  split.
  - intros Hgt. destruct (Z_le_gt_dec (2 * (msk + 1)) c) as [? | Hsmall]; [assumption |].
    exfalso. assert (Hxm : c / 2 <= msk) by lia.
    pose proof (round_mask_least (c / 2) msk Hx Hmsk Hxm) as Hr.
    destruct (Z.eqb_spec (round_mask (c / 2)) 1) as [E | _]; [| lia].
    assert (1 < msk) by lia. pose proof (is_mask_gt_1 _ Hmsk H). lia.
  - intros Hbig. assert (msk < c / 2) by lia.
    destruct (Z.eqb_spec (round_mask (c / 2)) 1); lia.
Qed.

Lemma is_mask_half msk : is_mask msk -> 1 <= msk -> is_mask ((msk - 1) / 2).
Proof.
  intros (k & Hk & ->) H1.
  assert (Hk1 : 1 <= k).
  { destruct (Z.eq_dec k 0) as [-> | ?]; [simpl in H1; lia | lia]. }
  exists (k - 1). split; [lia |].
  replace (2 ^ k) with (2 * 2 ^ (k - 1)).
  - replace (2 * 2 ^ (k - 1) - 1 - 1) with ((2 ^ (k - 1) - 1) * 2) by lia.
    apply Z.div_mul. lia.
  - rewrite <- (Z.pow_succ_r 2 (k - 1)) by lia. f_equal. lia.
Qed.

Lemma calc_mask_lt_iff ws c msk :
  0 <= c <= SIZE_MAX ws -> is_mask msk -> 7 <= msk ->
  (calc_mask ws c < msk <-> c <= msk).
Proof.
  intros Hc Hmsk H7. rewrite calc_mask_round by exact Hc.
  pose proof (div2_range ws c Hc) as (Hx & _).
  pose proof (round_mask_ge (c / 2) Hx) as Hge.
  pose proof (round_mask_is_mask (c / 2)) as Hr.
  pose proof (is_mask_half msk Hmsk ltac:(lia)) as Hhalf.
  assert (Hodd : msk = 2 * ((msk - 1) / 2) + 1).
  { destruct Hmsk as (k & Hk & ->).
    assert (Hk1 : 1 <= k).
    { destruct (Z.eq_dec k 0) as [-> | ?]; [simpl in H7; lia | lia]. }
    replace (2 ^ k) with (2 * 2 ^ (k - 1)).
    - replace (2 * 2 ^ (k - 1) - 1 - 1) with ((2 ^ (k - 1) - 1) * 2) by lia.
      rewrite Z.div_mul by lia. lia.
    - rewrite <- (Z.pow_succ_r 2 (k - 1)) by lia. f_equal. lia. }
  set (m' := (msk - 1) / 2) in *.
  pose proof (Z.mul_div_le c 2 ltac:(lia)) as Hd1.
  pose proof (Z.mul_succ_div_gt c 2 ltac:(lia)) as Hd2.
  split.
  - intros Hlt. destruct (Z_le_gt_dec c msk) as [? | Hbig]; [assumption |].
    exfalso. assert (Hxm : m' < c / 2) by lia.
    assert (Hrm : m' < round_mask (c / 2)) by lia.
    pose proof (is_mask_lt_double _ _ Hhalf Hr Hrm).
    destruct (Z.eqb_spec (round_mask (c / 2)) 1); lia.
  - intros Hle. assert (Hxm : c / 2 <= m') by lia.
    pose proof (round_mask_least (c / 2) m' Hx Hhalf Hxm).
    destruct (Z.eqb_spec (round_mask (c / 2)) 1); lia.
Qed.

(** X14. The load at which the policies act.  On a table whose mask is not
    1, [hmap_expand] resizes (to a larger mask) exactly when the table holds
    at least two nodes per bucket, and otherwise leaves the memory unchanged;
    on a table of at least eight buckets, [hmap_shrink] resizes (to a smaller
    mask) exactly when the table holds fewer nodes than buckets. *)
Theorem expand_and_shrink_thresholds ws m h t cs :
  wf_tab ws m h t cs ->
  exists fuel0, forall fuel, (fuel0 <= fuel)%nat ->
    (mask t <> 1 -> n t < 2 * (mask t + 1) -> hmap_expand ws fuel h m = Ok (tt, m)) /\
    (mask t <> 1 -> 2 * (mask t + 1) <= n t ->
       exists m1 t1 cs1, hmap_expand ws fuel h m = Ok (tt, m1) /\
                         wf_tab ws m1 h t1 cs1 /\ mask t < mask t1) /\
    (7 <= mask t -> mask t < n t -> hmap_shrink ws fuel h m = Ok (tt, m)) /\
    (7 <= mask t -> n t <= mask t ->
       exists m1 t1 cs1, hmap_shrink ws fuel h m = Ok (tt, m1) /\
                         wf_tab ws m1 h t1 cs1 /\ mask t1 < mask t).
Proof.
  intros Hwf. exists (S (Z.to_nat (SIZE_MAX ws))). intros fuel Hfuel.
  assert (Hf : (Z.to_nat (SIZE_MAX ws) < fuel)%nat) by exact Hfuel.
  pose proof Hwf as (Ht & Hmask & _).
  pose proof (n_range ws m h t cs Hwf) as Hnr.
  pose proof (calc_mask_is_mask ws (n t) Hnr) as Hcm.
  pose proof (calc_mask_lt_max ws (n t) Hnr) as Hcl.
  split_and!.
  - intros Hne Hsmall. rewrite (hmap_expand_unfold ws fuel h m t Ht).
    replace (calc_mask ws (n t) >? mask t) with false; [reflexivity |].
    symmetry. rewrite Z.gtb_ltb. apply Z.ltb_ge.
    pose proof (calc_mask_gt_iff ws (n t) (mask t) Hnr Hmask Hne). lia.
  - intros Hne Hbig.
    assert (Hgt : mask t < calc_mask ws (n t))
      by (apply (calc_mask_gt_iff ws (n t) (mask t) Hnr Hmask Hne); exact Hbig).
    destruct (maybe_resize_spec ws fuel h m t cs (calc_mask ws (n t)) true Hwf Hcm Hcl
                (fun _ => n_fits ws m h t cs Hwf) Hf)
      as (m1 & t1 & cs1 & Hrun & Hwf1 & Hm1 & _).
    exists m1, t1, cs1. rewrite (hmap_expand_unfold ws fuel h m t Ht).
    replace (calc_mask ws (n t) >? mask t) with true
      by (symmetry; rewrite Z.gtb_ltb; apply Z.ltb_lt; exact Hgt).
    split_and!; [exact Hrun | exact Hwf1 | lia].
  - intros H7 Hbig. rewrite (hmap_shrink_unfold ws fuel h m t Ht).
    replace (calc_mask ws (n t) <? mask t) with false; [reflexivity |].
    symmetry. apply Z.ltb_ge.
    pose proof (calc_mask_lt_iff ws (n t) (mask t) Hnr Hmask H7). lia.
  - intros H7 Hsmall.
    assert (Hlt : calc_mask ws (n t) < mask t)
      by (apply (calc_mask_lt_iff ws (n t) (mask t) Hnr Hmask H7); exact Hsmall).
    destruct (maybe_resize_spec ws fuel h m t cs (calc_mask ws (n t)) true Hwf Hcm Hcl
                (fun _ => n_fits ws m h t cs Hwf) Hf)
      as (m1 & t1 & cs1 & Hrun & Hwf1 & Hm1 & _).
    exists m1, t1, cs1. rewrite (hmap_shrink_unfold ws fuel h m t Ht).
    replace (calc_mask ws (n t) <? mask t) with true
      by (symmetry; apply Z.ltb_lt; exact Hlt).
    split_and!; [exact Hrun | exact Hwf1 | lia].
Qed.

Lemma expand_and_shrink_thresholds_witness :
  exists fuel0, forall fuel, (fuel0 <= fuel)%nat ->
    (mask big_tab <> 1 -> n big_tab < 2 * (mask big_tab + 1) ->
       hmap_expand W64 fuel 1 big_mem = Ok (tt, big_mem)) /\
    (mask big_tab <> 1 -> 2 * (mask big_tab + 1) <= n big_tab ->
       exists m1 t1 cs1, hmap_expand W64 fuel 1 big_mem = Ok (tt, m1) /\
                         wf_tab W64 m1 1 t1 cs1 /\ mask big_tab < mask t1) /\
    (7 <= mask big_tab -> mask big_tab < n big_tab ->
       hmap_shrink W64 fuel 1 big_mem = Ok (tt, big_mem)) /\
    (7 <= mask big_tab -> n big_tab <= mask big_tab ->
       exists m1 t1 cs1, hmap_shrink W64 fuel 1 big_mem = Ok (tt, m1) /\
                         wf_tab W64 m1 1 t1 cs1 /\ mask t1 < mask big_tab).
Proof.
  apply (expand_and_shrink_thresholds W64 big_mem 1 big_tab big_cs big_wf).
Defined.

(** X15. After [hmap_reserve k], for a count [k] whose planned bucket array
    has a byte size within [size_t], [hmap_expand] does not resize the table
    for as long as it holds at most [k] nodes and its mask has not been
    lowered: the call returns with the memory unchanged. *)
Theorem hmap_reserve_prevents_rehashing ws m h t cs k :
  wf_tab ws m h t cs ->
  0 <= k <= SIZE_MAX ws ->
  sizeof_ptr ws * (calc_mask ws k + 1) <= SIZE_MAX ws ->
  exists fuel0, forall fuel, (fuel0 <= fuel)%nat ->
    exists m1 t1 cs1,
      hmap_reserve ws fuel h k m = Ok (tt, m1) /\ wf_tab ws m1 h t1 cs1 /\
      forall fuel2 m2 t2,
        tabs m2 !! h = Some t2 -> mask t1 <= mask t2 -> 0 <= n t2 <= k ->
        hmap_expand ws fuel2 h m2 = Ok (tt, m2).
Proof.
  intros Hwf Hk Hkfit. exists (S (Z.to_nat (SIZE_MAX ws))). intros fuel Hfuel.
  assert (Hf : (Z.to_nat (SIZE_MAX ws) < fuel)%nat) by exact Hfuel.
  pose proof Hwf as (Ht & _).
  destruct (policy_spec ws fuel h m t cs (calc_mask ws k) (calc_mask ws k >? mask t) Hwf)
    as (m1 & t1 & cs1 & Hrun & Hwf1 & Hm1 & _);
    [apply calc_mask_is_mask, Hk | apply calc_mask_lt_max, Hk | exact Hkfit | exact Hf |].
  exists m1, t1, cs1. rewrite (hmap_reserve_unfold ws fuel h k m t Ht).
  split_and!; [exact Hrun | exact Hwf1 |].
  intros fuel2 m2 t2 Ht2 Hmask Hn.
  rewrite (hmap_expand_unfold ws fuel2 h m2 t2 Ht2).
  assert (Hmono : calc_mask ws (n t2) <= calc_mask ws k) by (apply calc_mask_mono; lia).
  assert (Hge : calc_mask ws k <= mask t1).
  { rewrite Hm1, Z.gtb_ltb. destruct (Z.ltb_spec (mask t) (calc_mask ws k)); lia. }
  replace (calc_mask ws (n t2) >? mask t2) with false; [reflexivity |].
  symmetry. rewrite Z.gtb_ltb. apply Z.ltb_ge. lia.
Qed.

Lemma hmap_reserve_prevents_rehashing_witness :
  exists fuel0, forall fuel, (fuel0 <= fuel)%nat ->
    exists m1 t1 cs1,
      hmap_reserve W64 fuel 1 40 ex_mem = Ok (tt, m1) /\ wf_tab W64 m1 1 t1 cs1 /\
      forall fuel2 m2 t2,
        tabs m2 !! 1%positive = Some t2 -> mask t1 <= mask t2 -> 0 <= n t2 <= 40 ->
        hmap_expand W64 fuel2 1 m2 = Ok (tt, m2).
Proof.
  apply (hmap_reserve_prevents_rehashing W64 ex_mem 1 ex_tab1 ex_cs1 40 ex_wf1).
  - vm_compute. split; discriminate.
  - vm_compute. discriminate.
Defined.

(** X16. [hmap_expand] and [hmap_shrink] called one after the other, in
    either order, leave a well-formed table whose mask is exactly
    [calc_mask n], with [n] and the set of nodes unchanged. *)
Theorem expand_and_shrink_settle_on_the_planned_mask ws m h t cs :
  wf_tab ws m h t cs ->
  exists fuel0, forall fuel, (fuel0 <= fuel)%nat ->
    (exists m2 t2 cs2,
       (hmap_expand ws fuel h ;; hmap_shrink ws fuel h) m = Ok (tt, m2) /\
       wf_tab ws m2 h t2 cs2 /\ mask t2 = calc_mask ws (n t) /\ n t2 = n t /\
       all_nodes cs2 (mask t2 + 1) ≡ₚ all_nodes cs (mask t + 1)) /\
    (exists m2 t2 cs2,
       (hmap_shrink ws fuel h ;; hmap_expand ws fuel h) m = Ok (tt, m2) /\
       wf_tab ws m2 h t2 cs2 /\ mask t2 = calc_mask ws (n t) /\ n t2 = n t /\
       all_nodes cs2 (mask t2 + 1) ≡ₚ all_nodes cs (mask t + 1)).
Proof.
  intros Hwf. exists (S (Z.to_nat (SIZE_MAX ws))). intros fuel Hfuel.
  assert (Hf : (Z.to_nat (SIZE_MAX ws) < fuel)%nat) by exact Hfuel.
  pose proof Hwf as (Ht & _).
  pose proof (n_range ws m h t cs Hwf) as Hnr.
  pose proof (calc_mask_is_mask ws (n t) Hnr) as Hcm.
  pose proof (calc_mask_lt_max ws (n t) Hnr) as Hcl.
  pose proof (n_fits ws m h t cs Hwf) as Hcf.
  set (cm := calc_mask ws (n t)) in *.
  split.
  - destruct (policy_spec ws fuel h m t cs cm (cm >? mask t) Hwf Hcm Hcl Hcf Hf)
      as (m1 & t1 & cs1 & Hrun1 & Hwf1 & Hm1 & Hn1 & Hperm1 & _).
    pose proof Hwf1 as (Ht1 & _).
    destruct (policy_spec ws fuel h m1 t1 cs1 cm (cm <? mask t1) Hwf1 Hcm Hcl Hcf Hf)
      as (m2 & t2 & cs2 & Hrun2 & Hwf2 & Hm2 & Hn2 & Hperm2 & _).
    exists m2, t2, cs2. split_and!.
    + rewrite (bind_ok _ _ m tt m1)
        by (rewrite (hmap_expand_unfold ws fuel h m t Ht); exact Hrun1).
      rewrite (hmap_shrink_unfold ws fuel h m1 t1 Ht1), Hn1. exact Hrun2.
    + exact Hwf2.
    + assert (E1 : mask t1 = Z.max (mask t) cm).
      { rewrite Hm1, Z.gtb_ltb. destruct (Z.ltb_spec (mask t) cm); lia. }
      assert (E2 : mask t2 = Z.min (mask t1) cm).
      { rewrite Hm2. destruct (Z.ltb_spec cm (mask t1)); lia. }
      lia.
    + congruence.
    + rewrite Hperm2. exact Hperm1.
  - destruct (policy_spec ws fuel h m t cs cm (cm <? mask t) Hwf Hcm Hcl Hcf Hf)
      as (m1 & t1 & cs1 & Hrun1 & Hwf1 & Hm1 & Hn1 & Hperm1 & _).
    pose proof Hwf1 as (Ht1 & _).
    destruct (policy_spec ws fuel h m1 t1 cs1 cm (cm >? mask t1) Hwf1 Hcm Hcl Hcf Hf)
      as (m2 & t2 & cs2 & Hrun2 & Hwf2 & Hm2 & Hn2 & Hperm2 & _).
    exists m2, t2, cs2. split_and!.
    + rewrite (bind_ok _ _ m tt m1)
        by (rewrite (hmap_shrink_unfold ws fuel h m t Ht); exact Hrun1).
      rewrite (hmap_expand_unfold ws fuel h m1 t1 Ht1), Hn1. exact Hrun2.
    + exact Hwf2.
    + assert (E1 : mask t1 = Z.min (mask t) cm).
      { rewrite Hm1. destruct (Z.ltb_spec cm (mask t)); lia. }
      assert (E2 : mask t2 = Z.max (mask t1) cm).
      { rewrite Hm2, Z.gtb_ltb. destruct (Z.ltb_spec (mask t1) cm); lia. }
      lia.
    + congruence.
    + rewrite Hperm2. exact Hperm1.
Qed.

Lemma expand_and_shrink_settle_on_the_planned_mask_witness :
  exists fuel0, forall fuel, (fuel0 <= fuel)%nat ->
    (exists m2 t2 cs2,
       (hmap_expand W64 fuel 2 ;; hmap_shrink W64 fuel 2) ex_mem = Ok (tt, m2) /\
       wf_tab W64 m2 2 t2 cs2 /\ mask t2 = calc_mask W64 (n ex_tab2) /\ n t2 = n ex_tab2 /\
       all_nodes cs2 (mask t2 + 1) ≡ₚ all_nodes ex_cs2 (mask ex_tab2 + 1)) /\
    (exists m2 t2 cs2,
       (hmap_shrink W64 fuel 2 ;; hmap_expand W64 fuel 2) ex_mem = Ok (tt, m2) /\
       wf_tab W64 m2 2 t2 cs2 /\ mask t2 = calc_mask W64 (n ex_tab2) /\ n t2 = n ex_tab2 /\
       all_nodes cs2 (mask t2 + 1) ≡ₚ all_nodes ex_cs2 (mask ex_tab2 + 1)).
Proof.
  apply (expand_and_shrink_settle_on_the_planned_mask W64 ex_mem 2 ex_tab2 ex_cs2 ex_wf2).
Defined.

(** [hmap_shrink] on a table of at most one node with an allocated array. *)
Lemma shrink_small_spec ws fuel m h t cs :
  wf_tab ws m h t cs -> n t <= 1 -> mask t <> 0 ->
  (Z.to_nat (SIZE_MAX ws) < fuel)%nat ->
  exists m1 t1 cs1 a,
    hmap_shrink ws fuel h m = Ok (tt, m1) /\ wf_tab ws m1 h t1 cs1 /\
    mask t1 = 0 /\ buckets t1 = InlineOf h /\ n t1 = n t /\
    cs1 0 = all_nodes cs (mask t + 1) /\
    buckets t = Arr a /\ arrs m1 = delete a (arrs m) /\
    (forall h', h' <> h -> tabs m1 !! h' = tabs m !! h') /\
    (forall x, x ∉ all_nodes cs (mask t + 1) -> nodes m1 !! x = nodes m !! x).
Proof.
  intros Hwf Hn Hm Hfuel.
  pose proof Hwf as (Ht & Hmask & Hlt & Hst & _).
  pose proof (n_range ws m h t cs Hwf) as Hnr.
  pose proof (is_mask_nonneg _ Hmask) as Hm0.
  destruct Hst as [(H0 & _) | (_ & a & arr & Hb & Harr & _)]; [contradiction |].
  assert (Hcm : calc_mask ws (n t) = 0) by (apply calc_mask_small; lia).
  assert (Hlen : Z.of_nat (length (all_nodes cs (mask t + 1))) <= 1).
  { destruct Hwf as (_ & _ & _ & _ & _ & _ & E & _). lia. }
  destruct (resize_spec ws fuel h m t cs 0 Hwf)
    as (m1 & t1 & cs1 & Hrun & Hwf1 & Hm1 & Hn1 & Hperm & _ & Hnodes & Htabs & Hfreed & Harrs & _);
    [exists 0; split; [lia | reflexivity] | apply SIZE_MAX_pos
    | destruct ws; vm_compute; discriminate | cbn; lia | lia | lia |].
  pose proof Hwf1 as (_ & _ & _ & Hst1 & _).
  assert (Hb1 : buckets t1 = InlineOf h).
  { destruct Hst1 as [(_ & Hb1) | (Hn0 & _)]; [exact Hb1 | contradiction]. }
  exists m1, t1, cs1, a. rewrite (hmap_shrink_unfold ws fuel h m t Ht), Hcm.
  replace (0 <? mask t) with true by (symmetry; apply Z.ltb_lt; lia).
  split_and!; try assumption.
  - change (0 + 1) with 1 in Hperm. unfold all_nodes at 1 in Hperm.
    change (seqZ 0 1) with [0] in Hperm. cbn in Hperm. rewrite app_nil_r in Hperm.
    destruct (all_nodes cs (mask t + 1)) as [| x [| y l]].
    + apply Permutation_nil_r in Hperm. exact Hperm.
    + apply Permutation_singleton_r in Hperm. exact Hperm.
    + cbn in Hlen. lia.
  - apply map_eq. intros a'. destruct (decide (a' = a)) as [-> | Hne].
    + rewrite lookup_delete_eq. apply Hfreed, Hb.
    + rewrite lookup_delete_ne by congruence. apply Harrs.
      * rewrite Hb. congruence.
      * rewrite Hb1. discriminate.
Qed.

(** X17. [hmap_shrink] on a table that holds at most one node in an
    allocated bucket array goes back to the inline slot: afterwards the mask
    is 0, [buckets] is the table's own inline slot, which holds the node if
    there is one, the old array is freed, and no other array and no other
    table struct has changed. *)
Theorem hmap_shrink_returns_to_the_inline_slot ws m h t cs :
  wf_tab ws m h t cs -> n t <= 1 -> mask t <> 0 ->
  exists fuel0, forall fuel, (fuel0 <= fuel)%nat ->
    exists m1 t1 cs1 a,
      hmap_shrink ws fuel h m = Ok (tt, m1) /\ wf_tab ws m1 h t1 cs1 /\
      mask t1 = 0 /\ buckets t1 = InlineOf h /\ n t1 = n t /\
      cs1 0 = all_nodes cs (mask t + 1) /\
      buckets t = Arr a /\ arrs m1 = delete a (arrs m) /\
      (forall h', h' <> h -> tabs m1 !! h' = tabs m !! h').
Proof.
  intros Hwf Hn Hm. exists (S (Z.to_nat (SIZE_MAX ws))). intros fuel Hfuel.
  destruct (shrink_small_spec ws fuel m h t cs Hwf Hn Hm Hfuel)
    as (m1 & t1 & cs1 & a & Hrun & Hwf1 & Hm1 & Hb1 & Hn1 & Hcs1 & Ha & Harrs & Htabs & _).
  exists m1, t1, cs1, a. split_and!; assumption.
Qed.

Lemma hmap_shrink_returns_to_the_inline_slot_witness :
  exists fuel0, forall fuel, (fuel0 <= fuel)%nat ->
    exists m1 t1 cs1 a,
      hmap_shrink W64 fuel 1 big_mem = Ok (tt, m1) /\ wf_tab W64 m1 1 t1 cs1 /\
      mask t1 = 0 /\ buckets t1 = InlineOf 1 /\ n t1 = n big_tab /\
      cs1 0 = all_nodes big_cs (mask big_tab + 1) /\
      buckets big_tab = Arr a /\ arrs m1 = delete a (arrs big_mem) /\
      (forall h', h' <> 1%positive -> tabs m1 !! h' = tabs big_mem !! h').
Proof.
  apply (hmap_shrink_returns_to_the_inline_slot W64 big_mem 1 big_tab big_cs big_wf).
  - vm_compute. discriminate.
  - vm_compute. discriminate.
Defined.

(** X18. [hmap_clear] followed by [hmap_shrink] gives the bucket array
    back: for a table with an allocated array the two calls leave a
    well-formed empty table on its inline slot, the array freed, no other
    array allocated or freed, and the nodes and the other table structs
    untouched. *)
Theorem hmap_clear_then_shrink_releases_the_array ws m h t cs :
  wf_tab ws m h t cs -> mask t <> 0 ->
  exists fuel0, forall fuel, (fuel0 <= fuel)%nat ->
    exists m2 t2 a,
      (hmap_clear ws h ;; hmap_shrink ws fuel h) m = Ok (tt, m2) /\
      wf_tab ws m2 h t2 (fun _ => []) /\
      mask t2 = 0 /\ n t2 = 0 /\ buckets t2 = InlineOf h /\
      buckets t = Arr a /\ dom (arrs m2) = dom (arrs m) ∖ {[a]} /\
      nodes m2 = nodes m /\
      (forall h', h' <> h -> tabs m2 !! h' = tabs m !! h').
Proof.
  intros Hwf Hm. exists (S (Z.to_nat (SIZE_MAX ws))). intros fuel Hfuel.
  pose proof Hwf as (Ht & _).
  destruct (hmap_clear_spec ws m h t cs Hwf)
    as (m1 & t1 & Hrun1 & Hwf1 & Hm1 & Hn1 & Hnodes1 & Htabs1).
  destruct (hmap_clear_footprint ws h m m1 Hrun1) as (_ & Harrs1 & _ & Hbk1).
  pose proof Hwf1 as (Ht1 & _).
  destruct (shrink_small_spec ws fuel m1 h t1 (fun _ => []) Hwf1)
    as (m2 & t2 & cs2 & a & Hrun2 & Hwf2 & Hm2 & Hb2 & Hn2 & Hcs2 & Ha & Harrs2 & Htabs2 & Hnodes2);
    [lia | lia | exact Hfuel |].
  exists m2, t2, a. split_and!; try assumption.
  - rewrite (bind_ok _ _ m tt m1) by exact Hrun1. exact Hrun2.
  - destruct Hwf2 as (E1 & E2 & E3 & E4 & E5 & E6 & E7 & E8).
    rewrite all_nodes_empty in Hcs2.
    unfold wf_tab. rewrite all_nodes_empty. split_and!; try assumption.
    + intros i Hi. destruct (E5 i Hi) as (p & Hp & Hc & Hall).
      assert (i = 0) by lia. subst i. rewrite Hcs2 in Hc, Hall.
      exists p. split_and!; assumption.
    + constructor.
    + cbn. lia.
  - congruence.
  - rewrite <- (Hbk1 t t1 Ht Ht1). exact Ha.
  - rewrite Harrs2, dom_delete_L, Harrs1. reflexivity.
  - rewrite <- Hnodes1. apply map_eq. intros x. apply Hnodes2.
    rewrite all_nodes_empty. apply not_elem_of_nil.
  - intros h' Hh'. rewrite Htabs2, Htabs1 by exact Hh'. reflexivity.
Qed.

Lemma hmap_clear_then_shrink_releases_the_array_witness :
  exists fuel0, forall fuel, (fuel0 <= fuel)%nat ->
    exists m2 t2 a,
      (hmap_clear W64 2 ;; hmap_shrink W64 fuel 2) ex_mem = Ok (tt, m2) /\
      wf_tab W64 m2 2 t2 (fun _ => []) /\
      mask t2 = 0 /\ n t2 = 0 /\ buckets t2 = InlineOf 2 /\
      buckets ex_tab2 = Arr a /\ dom (arrs m2) = dom (arrs ex_mem) ∖ {[a]} /\
      nodes m2 = nodes ex_mem /\
      (forall h', h' <> 2%positive -> tabs m2 !! h' = tabs ex_mem !! h').
Proof.
  apply (hmap_clear_then_shrink_releases_the_array W64 ex_mem 2 ex_tab2 ex_cs2 ex_wf2).
  vm_compute. discriminate.
Defined.

(** The bucket array planned for [k] elements has a byte size within
    [size_t] exactly when [k] pointers have. *)
Lemma planned_size_fits_iff ws k :
  0 <= k <= SIZE_MAX ws ->
  (sizeof_ptr ws * (calc_mask ws k + 1) <= SIZE_MAX ws <-> sizeof_ptr ws * k <= SIZE_MAX ws).
Proof.
  intros Hk.
  set (j := match ws with W32 => 29 | W64 => 60 end).
  assert (Hj : 0 <= j) by (destruct ws; cbn; lia).
  assert (Hsz : sizeof_ptr ws * (2 * 2 ^ j) = SIZE_MAX ws + 1) by (destruct ws; reflexivity).
  assert (H3 : 3 < 2 ^ j) by (destruct ws; reflexivity).
  pose proof (sizeof_ptr_pos ws) as Hp.
  rewrite calc_mask_round by exact Hk.
  pose proof (div2_range ws k Hk) as (Hx & _).
  pose proof (round_mask_ge (k / 2) Hx) as Hge.
  pose proof (round_mask_is_mask (k / 2)) as Hm.
  pose proof (Z.mul_div_le k 2 ltac:(lia)) as Hd1.
  pose proof (Z.mul_succ_div_gt k 2 ltac:(lia)) as Hd2.
  assert (Hiff : forall x, sizeof_ptr ws * x <= SIZE_MAX ws <-> x < 2 * 2 ^ j).
  { intros x. split; intros H.
    - destruct (Z_lt_le_dec x (2 * 2 ^ j)) as [? | Hge']; [assumption |].
      pose proof (Z.mul_le_mono_nonneg_l _ _ (sizeof_ptr ws) ltac:(lia) Hge'). lia.
    - assert (Hle : x <= 2 * 2 ^ j - 1) by lia.
      pose proof (Z.mul_le_mono_nonneg_l _ _ (sizeof_ptr ws) ltac:(lia) Hle). lia. }
  rewrite !Hiff. split.
  - intros Hcm. destruct (Z_lt_le_dec k (2 * 2 ^ j)) as [? | Hbig]; [assumption |].
    exfalso. assert (Ha : is_mask (2 ^ j - 1)) by (exists j; auto).
    assert (Hlt : 2 ^ j - 1 < round_mask (k / 2)) by lia.
    pose proof (is_mask_lt_double _ _ Ha Hm Hlt).
    destruct (Z.eqb_spec (round_mask (k / 2)) 1); lia.
  - intros Hsmall.
    assert (Hr : round_mask (k / 2) < 2 ^ j).
    { apply round_mask_lt_pow2; [| exact Hj]. lia. }
    destruct (Z.eqb_spec (round_mask (k / 2)) 1); lia.
Qed.

(** X25. [hmap_reserve] does not check that the bucket array it plans can be
    allocated.  The byte size [sizeof *buckets * (new_mask + 1)] of the array
    planned for [k] elements is within [size_t] exactly when [k] pointers
    are; for a larger [k] (up to [SIZE_MAX]) on a table with a smaller mask the
    size wraps to 0, [resize] passes both assertions, is given a block without
    a single slot, and its first store into the new array lies outside the
    block. *)
Theorem hmap_reserve_overflows_for_huge_counts ws m h t k fuel :
  tabs m !! h = Some t ->
  0 <= k <= SIZE_MAX ws ->
  (0 < fuel)%nat ->
  (sizeof_ptr ws * (calc_mask ws k + 1) <= SIZE_MAX ws <-> sizeof_ptr ws * k <= SIZE_MAX ws) /\
  (SIZE_MAX ws < sizeof_ptr ws * k -> mask t < calc_mask ws k ->
     buckets_size ws (calc_mask ws k) = 0 /\
     resize ws fuel h (calc_mask ws k) m = Err MemFault /\
     hmap_reserve ws fuel h k m = Err MemFault).
Proof.
  intros Ht Hk Hfuel.
  pose proof (planned_size_fits_iff ws k Hk) as Hiff.
  split; [exact Hiff |]. intros Hbig Hlt.
  pose proof (calc_mask_is_mask ws k Hk) as Hmask.
  pose proof (calc_mask_lt_max ws k Hk) as Hmax.
  assert (Hwrap : SIZE_MAX ws < sizeof_ptr ws * (calc_mask ws k + 1)) by lia.
  destruct fuel as [| fuel]; [lia |].
  pose proof (resize_wraps ws fuel h (calc_mask ws k) m Hmask Hmax Hwrap) as Hrun.
  split_and!.
  - apply buckets_size_wraps; assumption.
  - exact Hrun.
  - rewrite (hmap_reserve_unfold ws _ h k m t Ht).
    replace (calc_mask ws k >? mask t) with true
      by (symmetry; rewrite Z.gtb_ltb; apply Z.ltb_lt; exact Hlt).
    exact Hrun.
Qed.

Lemma hmap_reserve_overflows_for_huge_counts_witness :
  (sizeof_ptr W32 * (calc_mask W32 (2 ^ 30) + 1) <= SIZE_MAX W32
   <-> sizeof_ptr W32 * 2 ^ 30 <= SIZE_MAX W32) /\
  (SIZE_MAX W32 < sizeof_ptr W32 * 2 ^ 30 -> mask ex_tab2 < calc_mask W32 (2 ^ 30) ->
     buckets_size W32 (calc_mask W32 (2 ^ 30)) = 0 /\
     resize W32 1 2 (calc_mask W32 (2 ^ 30)) ex_mem = Err MemFault /\
     hmap_reserve W32 1 2 (2 ^ 30) ex_mem = Err MemFault).
Proof.
  apply (hmap_reserve_overflows_for_huge_counts W32 ex_mem 2 ex_tab2 (2 ^ 30) 1).
  - reflexivity.
  - vm_compute. split; discriminate.
  - lia.
Defined.

(** ** Relocation tracker *)

Lemma write_slot_same m s v :
  read_slot m s = Ok v ->
  exists m', write_slot s v m = Ok m' /\
    tabs m' = tabs m /\ nodes m' = nodes m /\
    (forall a arr, arrs m !! a = Some arr ->
       exists arr', arrs m' !! a = Some arr' /\ blen arr' = blen arr) /\
    (forall s', read_slot m' s' = read_slot m s').
Proof.
  intros Hrd. destruct s as [[h | a] i | p].
  - cbn in Hrd. cbn [write_slot]. destruct (i =? 0); [| discriminate].
    unfold read_tab in *. destruct (tabs m !! h) as [t |] eqn:Ht; [| discriminate].
    cbn in Hrd. injection Hrd as <-. cbn [rbind]. unfold write_tab. rewrite Ht.
    assert (E : set_one t (one t) = t) by (destruct t; reflexivity).
    rewrite E, with_tabs_id by exact Ht.
    exists m. split_and!; try reflexivity. intros a arr Ha. exists arr. auto.
  - cbn in Hrd. cbn [write_slot]. destruct (arrs m !! a) as [arr |] eqn:Ha; [| discriminate].
    destruct (in_bounds arr i) eqn:Hin; [| discriminate].
    destruct (bget arr i) as [p |] eqn:Hp; [| discriminate]. injection Hrd as <-.
    eexists. split_and!; try reflexivity.
    + intros a' arr' Ha'. cbn. destruct (decide (a' = a)) as [-> | Hne].
      * rewrite lookup_insert_eq. eexists. split; [reflexivity |]. cbn. congruence.
      * rewrite lookup_insert_ne by congruence. exists arr'. auto.
    + intros [[h' | a'] j | q]; cbn; try reflexivity.
      destruct (decide (a' = a)) as [-> | Hne].
      * rewrite lookup_insert_eq, Ha. unfold in_bounds. cbn.
        destruct ((0 <=? j) && (j <? blen arr)); [| reflexivity].
        destruct (Z.eqb_spec j i) as [-> | _]; [rewrite Hp |]; reflexivity.
      * rewrite lookup_insert_ne by congruence. reflexivity.
  - cbn in Hrd. cbn [write_slot]. destruct (read_node m p) as [x |] eqn:Hx; [| discriminate].
    cbn in Hrd. injection Hrd as <-. cbn [rbind].
    destruct p as [| a]; [discriminate |]. cbn in Hx. cbn [write_node].
    destruct (nodes m !! a) as [y |] eqn:Hy; [| discriminate]. injection Hx as <-.
    assert (E : {| hash := hash y; next := next y |} = y) by (destruct y; reflexivity).
    rewrite E. exists (with_nodes m (<[a := y]> (nodes m))).
    assert (Hid : <[a := y]> (nodes m) = nodes m) by (apply insert_id, Hy).
    split_and!; try reflexivity.
    + cbn. exact Hid.
    + intros a' arr Ha. exists arr. auto.
    + intros [[h' | a'] j | q]; cbn; try reflexivity. rewrite Hid. reflexivity.
Qed.

(** X19. [hmap_node_moved] for a node of the table that has not moved (the
    old and the new address are the same) returns and changes nothing that can
    be read: the table structs and the nodes are the same, every bucket slot
    and every [next] link reads as before, and the table satisfies the
    invariants with the same chains. *)
Theorem hmap_node_moved_to_the_same_address ws m h t cs a :
  wf_tab ws m h t cs ->
  a ∈ all_nodes cs (mask t + 1) ->
  exists fuel0, forall fuel, (fuel0 <= fuel)%nat ->
    exists m',
      hmap_node_moved fuel h (Ptr a) (Ptr a) m = Ok (tt, m') /\
      tabs m' = tabs m /\ nodes m' = nodes m /\
      (forall s, read_slot m' s = read_slot m s) /\
      wf_tab ws m' h t cs.
Proof.
  intros Hwf Ha. exists (S (length (all_nodes cs (mask t + 1)))). intros fuel Hfuel.
  pose proof Hwf as (Ht & Hmask & Hlt & Hst & Hbk & Hnd & Hn & Hmax).
  pose proof (MAX_NODES_le ws) as Hmn.
  destruct (wf_tab_bucket_of ws m h t cs a Hwf Ha) as (x & Hx & Hj & Haj).
  set (j := Z.land (hash x) (mask t)) in *.
  destruct (Hbk j Hj) as (p & Hp & Hc & _).
  pose proof (wf_tab_bucket_nodup ws m h t cs j Hwf Hj) as Hndj.
  apply list_elem_of_split in Haj. destruct Haj as (l1 & l2 & Hsplit).
  rewrite Hsplit in Hc, Hndj.
  apply chain_split in Hc. destruct Hc as (q & Hseg & Hq).
  pose proof (chain_head_eq _ _ _ Hq) as Eq. cbn in Eq. subst q.
  apply NoDup_app in Hndj. destruct Hndj as (_ & Hdisj & _).
  destruct (walk_to_spec l1 (Bucket (buckets t) j) p m fuel (Ptr a) Hp Hseg) as (Hwalk & Hlink).
  { intros b Hb E. injection E as ->. apply (Hdisj a Hb), list_elem_of_here. }
  { rewrite (all_nodes_upd_self cs j (mask t + 1)) in Hfuel by lia.
    rewrite Hsplit, !length_app in Hfuel. lia. }
  destruct (write_slot_same m _ _ Hlink) as (m' & Hw & Htabs & Hnodes & Harrs & Hread).
  exists m'. split_and!; try assumption.
  - unfold hmap_node_moved.
    rewrite (bind_ok _ _ m t m) by (apply get_ok, read_tab_ok, Ht).
    rewrite (bind_ok _ _ m x m) by (apply get_ok; eapply read_node_ok, Hx).
    fold j. rewrite (bind_ok _ _ m _ m) by exact Hwalk.
    apply put_ok, Hw.
  - unfold wf_tab. rewrite Htabs. split_and!; try assumption.
    + destruct Hst as [Hin | (Hn0 & a0 & arr & Hb & Harr & Hlen)]; [left; exact Hin |].
      right. split; [exact Hn0 |]. destruct (Harrs a0 arr Harr) as (arr' & Harr' & Hl').
      exists a0, arr'. split_and!; [exact Hb | exact Harr' | congruence].
    + intros i Hi. unfold bucket_ok. rewrite Hread, Hnodes. apply Hbk, Hi.
Qed.

Lemma hmap_node_moved_to_the_same_address_witness :
  exists fuel0, forall fuel, (fuel0 <= fuel)%nat ->
    exists m',
      hmap_node_moved fuel 2 (Ptr 6) (Ptr 6) ex_mem = Ok (tt, m') /\
      tabs m' = tabs ex_mem /\ nodes m' = nodes ex_mem /\
      (forall s, read_slot m' s = read_slot ex_mem s) /\
      wf_tab W64 m' 2 ex_tab2 ex_cs2.
Proof.
  apply (hmap_node_moved_to_the_same_address W64 ex_mem 2 ex_tab2 ex_cs2 6 ex_wf2).
  apply (bool_decide_unpack _). vm_compute. exact I.
Defined.

(** The listing of a table around bucket [j]: the buckets before it, the
    chain of bucket [j], and the buckets after it. *)
Lemma all_nodes_around cs j l k :
  0 <= j < k ->
  all_nodes (upd cs j l) k
  = all_nodes cs j ++ l ++ (seqZ (j + 1) (k - (j + 1)) ≫= cs).
Proof.
  intros Hj. unfold all_nodes.
  replace k with (j + (1 + (k - (j + 1)))) at 1 by lia.
  rewrite seqZ_app by lia. rewrite (seqZ_app (0 + j) 1) by lia.
  rewrite !bind_app. change (seqZ (0 + j) 1) with [0 + j]. cbn [mbind list_bind].
  replace (0 + j) with j by lia. rewrite app_nil_r.
  f_equal; [| f_equal].
  - apply Forall_bind_ext, Forall_forall. intros i Hi. apply elem_of_seqZ in Hi.
    unfold upd. destruct (Z.eqb_spec i j); [lia | reflexivity].
  - unfold upd. rewrite Z.eqb_refl. reflexivity.
  - apply Forall_bind_ext, Forall_forall. intros i Hi. apply elem_of_seqZ in Hi.
    unfold upd. destruct (Z.eqb_spec i j); [lia | reflexivity].
Qed.

Lemma upd_same cs j : forall i, upd cs j (cs j) i = cs i.
Proof. intros i. unfold upd. destruct (Z.eqb_spec i j); congruence. Qed.

(** X20. A node that moves keeps its place in the traversal order: the
    traversal with the position cursor after the node has moved from [old] to
    [new] and [hmap_node_moved] has been called is the traversal before the
    move with [new] in the place of [old]. *)
Theorem hmap_node_moved_keeps_the_traversal_order ws m0 h t cs old new :
  wf_tab ws m0 h t cs ->
  old ∈ all_nodes cs (mask t + 1) ->
  nodes m0 !! new = None ->
  mask t < UINT32_MAX -> n t <= 2 ^ 32 ->
  exists fuel0 k0, forall fuel k, (fuel0 <= fuel)%nat -> (k0 <= k)%nat ->
    exists m' pre post,
      traverse ws fuel k m0 h 0 0 = Ok (pre ++ old :: post, (0, 0)) /\
      hmap_node_moved fuel h (Ptr old) (Ptr new) (move_node old new m0) = Ok (tt, m') /\
      traverse ws fuel k m' h 0 0 = Ok (pre ++ new :: post, (0, 0)).
Proof.
  intros Hwf Hold Hnew H32 Hn32.
  pose proof Hwf as (_ & Hmask & _ & _ & _ & _ & Hn & _).
  pose proof (is_mask_nonneg _ Hmask) as Hm0.
  exists (S (Nat.max (Z.to_nat (mask t + 1)) (length (all_nodes cs (mask t + 1))))),
         (S (length (all_nodes cs (mask t + 1)))).
  intros fuel k Hfuel Hk.
  destruct (hmap_node_moved_spec ws fuel m0 h t cs old new Hwf Hold Hnew)
    as (m' & t' & x & l1 & l2 & Hrun & Hx & Hj & Hsplit & Hwf' & Hm' & _); [lia |].
  set (j := Z.land (hash x) (mask t)) in *.
  set (R := seqZ (j + 1) (mask t + 1 - (j + 1)) ≫= cs).
  assert (E0 : all_nodes cs (mask t + 1) = (all_nodes cs j ++ l1) ++ old :: l2 ++ R).
  { rewrite (all_nodes_ext cs (upd cs j (cs j))) by (intros i _; symmetry; apply upd_same).
    rewrite all_nodes_around by lia. rewrite Hsplit, <- !app_assoc. reflexivity. }
  assert (E1 : all_nodes (upd cs j (l1 ++ new :: l2)) (mask t + 1)
               = (all_nodes cs j ++ l1) ++ new :: l2 ++ R).
  { rewrite all_nodes_around by lia. rewrite <- !app_assoc. reflexivity. }
  assert (Hlens : length (all_nodes (upd cs j (l1 ++ new :: l2)) (mask t + 1))
                  = length (all_nodes cs (mask t + 1))).
  { rewrite E0, E1, !length_app. cbn [length]. rewrite !length_app. reflexivity. }
  assert (Hchains : forall m1 t1 cs1, wf_tab ws m1 h t1 cs1 ->
            Z.of_nat (length (all_nodes cs1 (mask t1 + 1))) <= 2 ^ 32 ->
            forall i, 0 <= i <= mask t1 -> Z.of_nat (length (cs1 i)) <= 2 ^ 32).
  { intros m1 t1 cs1 _ Hl i Hi.
    rewrite (all_nodes_upd_self cs1 i (mask t1 + 1)) in Hl by lia.
    rewrite length_app in Hl. lia. }
  assert (Hstart : forall cs' msk, rest_from cs' msk 0 0 = all_nodes cs' (msk + 1)).
  { intros cs' msk. unfold rest_from, all_nodes. rewrite Z.sub_0_r. reflexivity. }
  exists m', (all_nodes cs j ++ l1), (l2 ++ R). split_and!.
  - rewrite <- E0.
    apply (traverse_spec ws m0 h t cs fuel Hwf H32 (Hchains m0 t cs Hwf ltac:(lia))); try lia.
    + unfold cursor_ok. lia.
    + apply Hstart.
  - exact Hrun.
  - rewrite <- E1. rewrite <- Hm' in *.
    apply (traverse_spec ws m' h t' _ fuel Hwf' H32 (Hchains m' t' _ Hwf' ltac:(lia))); try lia.
    + unfold cursor_ok. lia.
    + apply Hstart.
Qed.

Lemma hmap_node_moved_keeps_the_traversal_order_witness :
  exists fuel0 k0, forall fuel k, (fuel0 <= fuel)%nat -> (k0 <= k)%nat ->
    exists m' pre post,
      traverse W64 fuel k ex_mem 1 0 0 = Ok (pre ++ 2%positive :: post, (0, 0)) /\
      hmap_node_moved fuel 1 (Ptr 2) (Ptr 9) (move_node 2 9 ex_mem) = Ok (tt, m') /\
      traverse W64 fuel k m' 1 0 0 = Ok (pre ++ 9%positive :: post, (0, 0)).
Proof.
  apply (hmap_node_moved_keeps_the_traversal_order W64 ex_mem 1 ex_tab1 ex_cs1 2 9 ex_wf1).
  - apply (bool_decide_unpack _). vm_compute. exact I.
  - reflexivity.
  - reflexivity.
  - vm_compute. discriminate.
Defined.

(** ** Position cursor *)

(** X21. A call of [hmap_at_position] with the cursor on a node (bucket [b]
    within the mask, offset [o] within the chain) returns that node and moves
    the cursor to the next node of the chain, or to the start of the next
    bucket when the node is the last of its chain. *)
Theorem hmap_at_position_returns_the_node_at_the_cursor ws m h t cs b o a :
  wf_tab ws m h t cs ->
  mask t < UINT32_MAX ->
  Z.of_nat (length (cs b)) <= 2 ^ 32 ->
  0 <= b <= mask t -> 0 <= o ->
  cs b !! Z.to_nat o = Some a ->
  exists fuel0, forall fuel, (fuel0 <= fuel)%nat ->
    hmap_at_position ws fuel m h b o
    = Ok (Ptr a, if decide (o + 1 < Z.of_nat (length (cs b))) then (b, o + 1) else (b + 1, 0)).
Proof.
  intros Hwf H32 Hlen Hb Ho Ha.
  pose proof Hwf as (Ht & Hmask & Hlt & _ & Hbk & _ & Hn & Hmax).
  pose proof (MAX_NODES_le ws) as Hmn.
  exists (S (length (cs b))). intros fuel Hfuel.
  unfold hmap_at_position. rewrite (read_tab_ok _ _ _ Ht). cbn [rbind].
  destruct fuel as [| fuel]; [lia |]. cbn [position_buckets].
  replace (b <=? mask t) with true by (symmetry; apply Z.leb_le; lia).
  destruct (Hbk b Hb) as (p & Hp & Hc & Hall). rewrite Hp. cbn [rbind].
  pose proof (lookup_lt_Some _ _ _ Ha) as Hlo.
  assert (Hchain_max : Z.of_nat (length (cs b)) <= SIZE_MAX ws).
  { rewrite (all_nodes_upd_self cs b) in Hn by lia. rewrite length_app in Hn. lia. }
  destruct (position_chain_found ws m t b o (cs b) p (S fuel) 0 Hc Hall)
    as (a' & Ha' & Hrun); try lia.
  rewrite Z.sub_0_r in Ha'. rewrite Ha in Ha'. injection Ha' as <-.
  rewrite Hrun. cbn [rbind]. reflexivity.
Qed.

Lemma hmap_at_position_returns_the_node_at_the_cursor_witness :
  exists fuel0, forall fuel, (fuel0 <= fuel)%nat ->
    hmap_at_position W64 fuel ex_mem 1 0 1
    = Ok (Ptr 2, if decide (1 + 1 < Z.of_nat (length (ex_cs1 0))) then (0, 1 + 1) else (0 + 1, 0)).
Proof.
  apply (hmap_at_position_returns_the_node_at_the_cursor W64 ex_mem 1 ex_tab1 ex_cs1 0 1 2 ex_wf1).
  - reflexivity.
  - cbn. lia.
  - cbn. lia.
  - lia.
  - reflexivity.
Defined.

Lemma ex_wf2_32 : wf_tab W32 ex_mem 2 ex_tab2 ex_cs2.
Proof.
  destruct ex_wf2 as (H1 & H2 & _ & H4 & H5 & H6 & H7 & _).
  unfold wf_tab. split_and!; try assumption.
  - reflexivity.
  - vm_compute. discriminate.
Qed.

(** X22. Where [size_t] has 32 bits the two [uint32_t] of the position
    cursor are wide enough for every table: on any table that satisfies the
    invariants a traversal from (0, 0) visits every node once, in bucket order
    and chain order, and ends with [NULL] and the cursor at (0, 0). *)
Theorem position_cursor_is_complete_on_32_bit m h t cs :
  wf_tab W32 m h t cs ->
  exists fuel0 k0, forall fuel k, (fuel0 <= fuel)%nat -> (k0 <= k)%nat ->
    traverse W32 fuel k m h 0 0 = Ok (all_nodes cs (mask t + 1), (0, 0)).
Proof.
  intros Hwf. pose proof Hwf as (_ & Hmask & Hlt & _ & _ & _ & Hn & Hmax).
  pose proof (MAX_NODES_le W32) as Hmn.
  pose proof (is_mask_nonneg _ Hmask) as Hm0.
  assert (H32 : mask t < UINT32_MAX) by exact Hlt.
  assert (Hlen : forall j, 0 <= j <= mask t -> Z.of_nat (length (cs j)) <= 2 ^ 32).
  { intros j Hj. rewrite (all_nodes_upd_self cs j (mask t + 1)) in Hn by lia.
    rewrite length_app in Hn. change (SIZE_MAX W32) with (2 ^ 32 - 1) in Hmn. lia. }
  exists (S (Nat.max (Z.to_nat (mask t + 1)) (length (all_nodes cs (mask t + 1))))),
         (S (length (all_nodes cs (mask t + 1)))).
  intros fuel k Hfuel Hk.
  apply (traverse_spec W32 m h t cs fuel Hwf H32 Hlen); try lia.
  - unfold cursor_ok. lia.
  - unfold rest_from, all_nodes. rewrite Z.sub_0_r. reflexivity.
Qed.

Lemma position_cursor_is_complete_on_32_bit_witness :
  exists fuel0 k0, forall fuel k, (fuel0 <= fuel)%nat -> (k0 <= k)%nat ->
    traverse W32 fuel k ex_mem 2 0 0 = Ok (all_nodes ex_cs2 (mask ex_tab2 + 1), (0, 0)).
Proof.
  apply (position_cursor_is_complete_on_32_bit ex_mem 2 ex_tab2 ex_cs2 ex_wf2_32).
Defined.

(** With an offset at or beyond the end of the chain the inner loop of
    [hmap_at_position] runs off the end of the chain. *)
Lemma position_chain_none ws m t o l : forall p fuel k,
  chain (nodes m) p l ->
  0 <= k -> k + Z.of_nat (length l) <= o ->
  k + Z.of_nat (length l) <= SIZE_MAX ws ->
  (length l < fuel)%nat ->
  position_chain ws fuel m t p k o = Ok None.
Proof.
  induction l as [| a l IH]; intros p fuel k Hc Hk Ho Hmax Hfuel;
    (destruct fuel as [| fuel]; [simpl in Hfuel; lia |]); cbn [position_chain].
  - simpl in Hc. subst p. reflexivity.
  - simpl in Hc. destruct Hc as (-> & x & Hx & Hc). simpl length in *.
    rewrite (read_node_ok _ _ _ Hx). cbn [rbind].
    destruct (Z.eqb_spec k o) as [-> | Hne]; [lia |].
    rewrite wrap_small by lia.
    apply (IH (next x) fuel (k + 1)); [exact Hc | lia | lia | lia | lia].
Qed.

Lemma rest_from_suffix cs msk b o :
  0 <= b -> rest_from cs msk b o `suffix_of` all_nodes cs (msk + 1).
Proof.
  intros Hb. unfold rest_from.
  etrans; [apply suffix_drop |].
  destruct (Z_le_gt_dec b (msk + 1)) as [Hle | Hgt].
  - unfold all_nodes. replace (msk + 1) with (b + (msk + 1 - b)) at 2 by lia.
    rewrite seqZ_app by lia. rewrite bind_app. apply suffix_app_r. reflexivity.
  - rewrite seqZ_nil by lia. apply suffix_nil.
Qed.

(** The call for an offset that the chain of bucket [b] does not reach
    continues as the call for the start of the next bucket. *)
Lemma position_buckets_stale ws m h t cs fuel cfuel b o :
  wf_tab ws m h t cs ->
  0 <= b <= mask t -> Z.of_nat (length (cs b)) <= o ->
  (length (cs b) < cfuel)%nat ->
  position_buckets ws (S fuel) cfuel m t b o
  = position_buckets ws fuel cfuel m t (b + 1) 0.
Proof.
  intros Hwf Hb Ho Hcf.
  pose proof Hwf as (_ & _ & Hlt & _ & Hbk & _ & Hn & Hmax).
  pose proof (MAX_NODES_le ws) as Hmn.
  cbn [position_buckets].
  replace (b <=? mask t) with true by (symmetry; apply Z.leb_le; lia).
  destruct (Hbk b Hb) as (p & Hp & Hc & _). rewrite Hp. cbn [rbind].
  assert (Hchain_max : Z.of_nat (length (cs b)) <= SIZE_MAX ws).
  { rewrite (all_nodes_upd_self cs b) in Hn by lia. rewrite length_app in Hn. lia. }
  rewrite (position_chain_none ws m t o (cs b) p cfuel 0 Hc) by lia.
  cbn [rbind]. rewrite wrap_small by lia. reflexivity.
Qed.

Lemma position_buckets_more_fuel ws m t cfuel : forall fuel b o r,
  position_buckets ws fuel cfuel m t b o = Ok r ->
  position_buckets ws (S fuel) cfuel m t b o = Ok r.
Proof.
  induction fuel as [| fuel IH]; intros b o r H; [discriminate |].
  cbn [position_buckets] in H. cbn [position_buckets].
  destruct (b <=? mask t); [| exact H].
  destruct (read_slot m (Bucket (buckets t) b)) as [p | e]; [| discriminate].
  cbn [rbind] in *.
  destruct (position_chain ws cfuel m t p 0 o) as [[found |] | e]; cbn [rbind] in *;
    [exact H | | discriminate].
  apply IH, H.
Qed.

Lemma hmap_at_position_stale ws m h t cs fuel b o :
  wf_tab ws m h t cs ->
  mask t < UINT32_MAX ->
  (forall j, 0 <= j <= mask t -> Z.of_nat (length (cs j)) <= 2 ^ 32) ->
  0 <= b <= mask t -> Z.of_nat (length (cs b)) <= o ->
  (Z.to_nat (mask t + 1) < fuel)%nat ->
  (length (all_nodes cs (mask t + 1)) < fuel)%nat ->
  hmap_at_position ws (S fuel) m h b o = hmap_at_position ws (S fuel) m h (b + 1) 0.
Proof.
  intros Hwf H32 Hlen Hb Ho Hf1 Hf2. pose proof Hwf as (Ht & Hmask & _).
  assert (Hcf : forall j, 0 <= j <= mask t -> (length (cs j) < S fuel)%nat).
  { intros j Hj. rewrite (all_nodes_upd_self cs j (mask t + 1)) in Hf2 by lia.
    rewrite length_app in Hf2. lia. }
  unfold hmap_at_position. rewrite (read_tab_ok _ _ _ Ht). cbn [rbind].
  rewrite (position_buckets_stale ws m h t cs fuel (S fuel) b o Hwf Hb Ho (Hcf b Hb)).
  assert (Hcur : cursor_ok cs (mask t) (b + 1) 0) by (unfold cursor_ok; lia).
  pose proof (position_buckets_spec ws m h t cs (S fuel) Hwf H32 Hlen Hcf
                (Z.to_nat (mask t + 1 - (b + 1))) (b + 1) 0 fuel Hcur) as Hspec.
  assert (Hres : exists r, position_buckets ws fuel (S fuel) m t (b + 1) 0 = Ok r).
  { destruct (rest_from cs (mask t) (b + 1) 0) as [| a r].
    - eexists. apply Hspec; lia.
    - destruct Hspec as (b' & o' & Hrun & _); [lia | lia |]. eexists. exact Hrun. }
  destruct Hres as (r & Hr). rewrite Hr. symmetry.
  apply position_buckets_more_fuel, Hr.
Qed.

Lemma traverse_from_any_position ws m h t cs b o :
  wf_tab ws m h t cs ->
  mask t < UINT32_MAX ->
  (forall j, 0 <= j <= mask t -> Z.of_nat (length (cs j)) <= 2 ^ 32) ->
  0 <= b -> 0 <= o ->
  exists fuel0 k0, forall fuel k, (fuel0 <= fuel)%nat -> (k0 <= k)%nat ->
    exists l,
      traverse ws fuel k m h b o = Ok (l, (0, 0)) /\
      l `suffix_of` all_nodes cs (mask t + 1) /\
      (mask t < b -> l = []) /\
      (b <= mask t -> o < Z.of_nat (length (cs b)) -> l = rest_from cs (mask t) b o) /\
      (b <= mask t -> Z.of_nat (length (cs b)) <= o -> l = rest_from cs (mask t) (b + 1) 0).
Proof.
  intros Hwf H32 Hlen Hb Ho.
  pose proof Hwf as (Ht & Hmask & _). pose proof (is_mask_nonneg _ Hmask) as Hm0.
  exists (S (S (Nat.max (Z.to_nat (mask t + 1)) (length (all_nodes cs (mask t + 1)))))),
         (S (length (all_nodes cs (mask t + 1)))).
  intros fuel k Hfuel Hk.
  assert (Hgo : forall b' o', cursor_ok cs (mask t) b' o' ->
            traverse ws fuel k m h b' o' = Ok (rest_from cs (mask t) b' o', (0, 0))).
  { intros b' o' Hcur.
    apply (traverse_spec ws m h t cs fuel Hwf H32 Hlen); try lia; try assumption; try reflexivity.
    pose proof (suffix_length _ _ (rest_from_suffix cs (mask t) b' o' (proj1 (proj1 Hcur)))). lia. }
  destruct (Z_lt_le_dec (mask t) b) as [Hout | Hin].
  - exists []. split_and!; try (intros; lia); try reflexivity; [| apply suffix_nil].
    destruct k as [| k]; [lia |]. cbn [traverse]. unfold hmap_at_position.
    rewrite (read_tab_ok _ _ _ Ht). cbn [rbind].
    destruct fuel as [| fuel]; [lia |]. cbn [position_buckets].
    replace (b <=? mask t) with false by (symmetry; apply Z.leb_gt; lia). reflexivity.
  - destruct (Z_lt_le_dec o (Z.of_nat (length (cs b)))) as [Hlive | Hstale].
    + exists (rest_from cs (mask t) b o). split_and!; try (intros; lia); try reflexivity.
      * apply Hgo. unfold cursor_ok. lia.
      * apply rest_from_suffix, Hb.
    + exists (rest_from cs (mask t) (b + 1) 0). split_and!; try (intros; lia); try reflexivity.
      * assert (Hcur : cursor_ok cs (mask t) (b + 1) 0) by (unfold cursor_ok; lia).
        rewrite <- (Hgo (b + 1) 0 Hcur).
        destruct k as [| k]; [lia |]. cbn [traverse].
        destruct fuel as [| fuel]; [lia |].
        rewrite (hmap_at_position_stale ws m h t cs fuel b o Hwf H32 Hlen) by lia.
        reflexivity.
      * apply rest_from_suffix. lia.
Qed.

(** X23. A traversal with the position cursor that starts from any cursor
    value ends with [NULL] and the cursor at (0, 0), and visits a final part
    of the full traversal order, each node at most once: nothing for a bucket
    index beyond the mask, the rest of the table from a cursor on a node, and
    the buckets after [b] for an offset that the chain of bucket [b] does not
    reach (as after a removal). *)
Theorem position_cursor_from_any_position ws m h t cs b o :
  wf_tab ws m h t cs ->
  mask t < UINT32_MAX ->
  (forall j, 0 <= j <= mask t -> Z.of_nat (length (cs j)) <= 2 ^ 32) ->
  0 <= b -> 0 <= o ->
  exists fuel0 k0, forall fuel k, (fuel0 <= fuel)%nat -> (k0 <= k)%nat ->
    exists l,
      traverse ws fuel k m h b o = Ok (l, (0, 0)) /\
      l `suffix_of` all_nodes cs (mask t + 1) /\ NoDup l /\
      (mask t < b -> l = []) /\
      (b <= mask t -> o < Z.of_nat (length (cs b)) -> l = rest_from cs (mask t) b o) /\
      (b <= mask t -> Z.of_nat (length (cs b)) <= o -> l = rest_from cs (mask t) (b + 1) 0).
Proof.
  intros Hwf H32 Hlen Hb Ho.
  destruct (traverse_from_any_position ws m h t cs b o Hwf H32 Hlen Hb Ho) as (fuel0 & k0 & H).
  exists fuel0, k0. intros fuel k Hfuel Hk.
  destruct (H fuel k Hfuel Hk) as (l & Hrun & Hsuf & Hout & Hlive & Hstale).
  exists l. split_and!; try assumption.
  destruct Hwf as (_ & _ & _ & _ & _ & Hnd & _).
  destruct Hsuf as (l0 & E). rewrite E in Hnd. apply NoDup_app in Hnd. tauto.
Qed.

Lemma position_cursor_from_any_position_witness :
  exists fuel0 k0, forall fuel k, (fuel0 <= fuel)%nat -> (k0 <= k)%nat ->
    exists l,
      traverse W64 fuel k ex_mem 2 1 7 = Ok (l, (0, 0)) /\
      l `suffix_of` all_nodes ex_cs2 (mask ex_tab2 + 1) /\ NoDup l /\
      (mask ex_tab2 < 1 -> l = []) /\
      (1 <= mask ex_tab2 -> 7 < Z.of_nat (length (ex_cs2 1)) ->
       l = rest_from ex_cs2 (mask ex_tab2) 1 7) /\
      (1 <= mask ex_tab2 -> Z.of_nat (length (ex_cs2 1)) <= 7 ->
       l = rest_from ex_cs2 (mask ex_tab2) (1 + 1) 0).
Proof.
  apply (position_cursor_from_any_position W64 ex_mem 2 ex_tab2 ex_cs2 1 7 ex_wf2).
  - reflexivity.
  - intros j _. unfold ex_cs2. destruct (j =? 1); [| destruct (j =? 2)]; cbn; lia.
  - lia.
  - lia.
Defined.

(** X24. Growing a table with [hmap_reserve] (to a bucket array whose byte
    size is within [size_t] and whose mask the cursor can hold) may change the
    order but not the content of a traversal with the position cursor: the
    traversal after the call visits a permutation of what the traversal before
    it visits, every node once. *)
Theorem hmap_reserve_keeps_the_traversed_nodes ws m h t cs k :
  wf_tab ws m h t cs ->
  0 <= k <= SIZE_MAX ws ->
  sizeof_ptr ws * (calc_mask ws k + 1) <= SIZE_MAX ws ->
  mask t < UINT32_MAX -> calc_mask ws k < UINT32_MAX -> n t <= 2 ^ 32 ->
  exists fuel0 k0, forall fuel kk, (fuel0 <= fuel)%nat -> (k0 <= kk)%nat ->
    exists m1 l0 l1,
      traverse ws fuel kk m h 0 0 = Ok (l0, (0, 0)) /\
      hmap_reserve ws fuel h k m = Ok (tt, m1) /\
      traverse ws fuel kk m1 h 0 0 = Ok (l1, (0, 0)) /\
      l1 ≡ₚ l0 /\ NoDup l1.
Proof.
  intros Hwf Hk Hkfit H32 Hc32 Hn.
  pose proof Hwf as (Ht & Hmask & Hlt & _ & _ & Hnd & Hnt & Hmax).
  pose proof (MAX_NODES_le ws) as Hmn.
  pose proof (is_mask_nonneg _ Hmask) as Hm0.
  exists (S (Z.to_nat (SIZE_MAX ws))), (S (length (all_nodes cs (mask t + 1)))).
  intros fuel kk Hfuel Hkk.
  assert (Hf : (Z.to_nat (SIZE_MAX ws) < fuel)%nat) by exact Hfuel.
  destruct (maybe_resize_spec ws fuel h m t cs (calc_mask ws k) (calc_mask ws k >? mask t) Hwf)
    as (m1 & t1 & cs1 & Hrun & Hwf1 & Hm1 & Hn1 & Hperm & _);
    [apply calc_mask_is_mask, Hk | apply calc_mask_lt_max, Hk
    | intros _; exact Hkfit | exact Hf |].
  pose proof Hwf1 as (_ & Hmask1 & Hlt1 & _ & _ & Hnd1 & Hnt1 & Hmax1).
  pose proof (is_mask_nonneg _ Hmask1) as Hm10.
  assert (Hchains : forall m' t' cs', wf_tab ws m' h t' cs' -> n t' <= 2 ^ 32 ->
            forall j, 0 <= j <= mask t' -> Z.of_nat (length (cs' j)) <= 2 ^ 32).
  { intros m' t' cs' Hwf' Hn' j Hj.
    pose proof Hwf' as (_ & _ & _ & _ & _ & _ & E & _).
    rewrite (all_nodes_upd_self cs' j (mask t' + 1)) in E by lia.
    rewrite length_app in E. lia. }
  assert (Hstart : forall cs' msk, rest_from cs' msk 0 0 = all_nodes cs' (msk + 1)).
  { intros cs' msk. unfold rest_from, all_nodes. rewrite Z.sub_0_r. reflexivity. }
  assert (Hlen1 : length (all_nodes cs1 (mask t1 + 1)) = length (all_nodes cs (mask t + 1))).
  { rewrite Hperm. reflexivity. }
  set (sm := SIZE_MAX ws) in *.
  exists m1, (all_nodes cs (mask t + 1)), (all_nodes cs1 (mask t1 + 1)).
  split_and!.
  - apply (traverse_spec ws m h t cs fuel Hwf H32 (Hchains m t cs Hwf Hn)); try lia.
    + unfold cursor_ok. lia.
    + apply Hstart.
  - rewrite (hmap_reserve_unfold ws fuel h k m t Ht). exact Hrun.
  - assert (H32' : mask t1 < UINT32_MAX).
    { rewrite Hm1. destruct (calc_mask ws k >? mask t); lia. }
    apply (traverse_spec ws m1 h t1 cs1 fuel Hwf1 H32'
             (Hchains m1 t1 cs1 Hwf1 ltac:(lia))); try lia.
    + unfold cursor_ok. lia.
    + apply Hstart.
  - exact Hperm.
  - exact Hnd1.
Qed.

Lemma hmap_reserve_keeps_the_traversed_nodes_witness :
  exists fuel0 k0, forall fuel kk, (fuel0 <= fuel)%nat -> (k0 <= kk)%nat ->
    exists m1 l0 l1,
      traverse W64 fuel kk ex_mem 1 0 0 = Ok (l0, (0, 0)) /\
      hmap_reserve W64 fuel 1 40 ex_mem = Ok (tt, m1) /\
      traverse W64 fuel kk m1 1 0 0 = Ok (l1, (0, 0)) /\
      l1 ≡ₚ l0 /\ NoDup l1.
Proof.
  apply (hmap_reserve_keeps_the_traversed_nodes W64 ex_mem 1 ex_tab1 ex_cs1 40 ex_wf1).
  - vm_compute. split; discriminate.
  - vm_compute. discriminate.
  - reflexivity.
  - reflexivity.
  - vm_compute. discriminate.
Defined.
